(** * Surveillance decode and conflict detection engine

    A shallow embedding of the ASTERIX decoder ([AsterixDecoder.ts]), the
    radar track store ([RadarDataProcessor.ts]), the resolution-suggestion
    collaborator ([OpenAIService.ts]) and the conflict detector
    ([ConflictDetectionService.ts]), together with the properties of the
    specification that concern them.

    Conventions of the embedding.
    - JavaScript [number]s that hold byte values, offsets, field identifiers
      and epoch milliseconds are integers ([Z]); numbers that hold
      coordinates, distances, speeds and durations in seconds are real
      numbers ([R]): the arithmetic is the exact one, IEEE rounding, NaN and
      the infinities are outside the model ([Infinity] as the initial
      minimum is an absent value).
    - A [Buffer] is a list of bytes; a read outside the buffer raises
      [RangeError], as Node does.
    - A JavaScript [Map] is an insertion-ordered association list.
    - Every reading of the wall clock ([Date.now()], [new Date()]) and of
      [Math.random()] is an explicit argument or is drawn from an oracle
      indexed by the number of readings made so far.
    - Exceptions are values of a result type; the logger is the list of the
      entries written to it. *)

From Stdlib Require Import ZArith List String Ascii Bool Lia QArith.
From Stdlib Require Import Strings.Byte.
From Stdlib Require Import Reals Lra.
From Stdlib Require OctalString HexString DecimalString.
Import ListNotations.

Set Implicit Arguments.

(** ** JavaScript [Map]: insertion-ordered association lists *)

Module JsMap.
Section WithKey.
Variable K V : Type.
Variable eq_dec : forall a b : K, {a = b} + {a <> b}.

Definition t := list (K * V).

Definition empty : t := [].

Fixpoint get (k : K) (m : t) : option V :=
  match m with
  | [] => None
  | (k', v) :: m' => if eq_dec k k' then Some v else get k m'
  end.

Definition has (k : K) (m : t) : bool :=
  match get k m with Some _ => true | None => false end.

(** [set] overwrites the value in place when the key exists (the entry
    keeps its position) and appends a new entry otherwise. *)
Fixpoint set (k : K) (v : V) (m : t) : t :=
  match m with
  | [] => [(k, v)]
  | (k', v') :: m' =>
      if eq_dec k k' then (k', v) :: m' else (k', v') :: set k v m'
  end.

Fixpoint delete (k : K) (m : t) : t :=
  match m with
  | [] => []
  | (k', v') :: m' =>
      if eq_dec k k' then delete k m' else (k', v') :: delete k m'
  end.

Definition keys (m : t) : list K := map fst m.
Definition values (m : t) : list V := map snd m.
Definition size (m : t) : Z := Z.of_nat (List.length m).

(** Keys of a map are pairwise distinct. *)
Definition wf (m : t) : Prop := NoDup (keys m).
End WithKey.
End JsMap.

(** Decimal rendering of an integer, as in a template string. *)
Definition decimal (z : Z) : string :=
  DecimalString.NilZero.string_of_int (Z.to_int z).

(** ** ASTERIX decoder *)

Module Asterix.

Local Open Scope string_scope.
Local Open Scope list_scope.
Local Open Scope Z_scope.

Definition Buffer := list byte.

Definition buf_length (b : Buffer) : Z := Z.of_nat (List.length b).

Definition byteZ (b : byte) : Z := Z.of_N (Byte.to_N b).

(** Errors that the decoder throws. *)
Inductive Exn : Type :=
| UnsupportedCategory (category : Z)
| IncompleteFSPEC
| InsufficientData (fieldId : Z)
| RangeError.

Inductive Result (A : Type) : Type :=
| Ok (a : A)
| Throw (e : Exn).
Arguments Ok {A} a.
Arguments Throw {A} e.

Definition bindR {A B} (r : Result A) (k : A -> Result B) : Result B :=
  match r with
  | Ok a => k a
  | Throw e => Throw e
  end.

Notation "x <- c ;; k" := (bindR c (fun x => k))
  (at level 61, c at next level, right associativity).

(** [data.readUInt8(i)] *)
Definition readUInt8 (data : Buffer) (i : Z) : Result Z :=
  if (0 <=? i) && (i <? buf_length data)
  then match nth_error data (Z.to_nat i) with
       | Some b => Ok (byteZ b)
       | None => Throw RangeError
       end
  else Throw RangeError.

Definition readUInt16BE (data : Buffer) (i : Z) : Result Z :=
  hi <- readUInt8 data i ;;
  lo <- readUInt8 data (i + 1) ;;
  Ok (Z.lor (Z.shiftl hi 8) lo).

Definition readInt16BE (data : Buffer) (i : Z) : Result Z :=
  u <- readUInt16BE data i ;;
  Ok (if u <? 32768 then u else u - 65536).

Definition readInt32BE (data : Buffer) (i : Z) : Result Z :=
  b0 <- readUInt8 data i ;;
  b1 <- readUInt8 data (i + 1) ;;
  b2 <- readUInt8 data (i + 2) ;;
  b3 <- readUInt8 data (i + 3) ;;
  let u := Z.lor (Z.shiftl b0 24) (Z.lor (Z.shiftl b1 16) (Z.lor (Z.shiftl b2 8) b3)) in
  Ok (if u <? 2147483648 then u else u - 4294967296).

(** [data.subarray(s, e)] for non-negative bounds, clamped to the buffer. *)
Definition subarray (data : Buffer) (s e : Z) : Buffer :=
  let s' := Z.min (Z.max 0 s) (buf_length data) in
  let e' := Z.min (Z.max 0 e) (buf_length data) in
  firstn (Z.to_nat (e' - s')) (skipn (Z.to_nat s') data).

(** *** Decoded field values *)

Inductive FieldValue : Type :=
| DataSourceIdentifier (sac sic : Z)
| TargetReportDescriptor (typ sim rdp spi rab tst : Z)
| MeasuredPolarPosition (range azimuth rangeNM azimuthDeg : Q)
| Mode3ACode (validated garbled smoothed : bool) (code : string) (codeOctal : Z)
| FlightLevelBinary (validated garbled : bool) (flightLevel altitude : Q)
| AircraftAddress (address : Z) (addressHex : string)
| AircraftIdentification (callsign : string) (raw : Buffer)
| TrackNumber (trackNumber : Z)
| Wgs84Position (latitude longitude : Q) (wgs84 : bool)
| MeasuredFlightLevel (flightLevel altitude : Q)
| AircraftDerivedData (raw : Buffer).

(** [s.padStart(n, '0')] *)
Definition padStart0 (n : nat) (s : string) : string :=
  (String.concat "" (repeat "0" (n - String.length s)) ++ s)%string.

(** [code.toString(8)] for a non-negative integer *)
Definition toString8 (z : Z) : string :=
  match z with
  | Zpos p => OctalString.Raw.of_pos p ""
  | _ => "0"
  end.

Definition upper (c : ascii) : ascii :=
  let n := nat_of_ascii c in
  if (97 <=? n)%nat && (n <=? 122)%nat then ascii_of_nat (n - 32) else c.

Fixpoint toUpperCase (s : string) : string :=
  match s with
  | EmptyString => EmptyString
  | String c s' => String (upper c) (toUpperCase s')
  end.

(** [address.toString(16)] for a non-negative integer *)
Definition toString16 (z : Z) : string :=
  match z with
  | Zpos p => HexString.Raw.of_pos p ""
  | _ => "0"
  end.

Fixpoint trimStart (s : string) : string :=
  match s with
  | String " " s' => trimStart s'
  | _ => s
  end.

Fixpoint rev_string (s acc : string) : string :=
  match s with
  | EmptyString => acc
  | String c s' => rev_string s' (String c acc)
  end.

(** [s.trim()] on strings whose only white space is the blank *)
Definition trim (s : string) : string :=
  rev_string (trimStart (rev_string (trimStart s) "")) "".

(** *** Field decoders of category 048 *)

Definition decode_010 (data : Buffer) : Result FieldValue :=
  sac <- readUInt8 data 0 ;;
  sic <- readUInt8 data 1 ;;
  Ok (DataSourceIdentifier sac sic).

Definition decode_020 (data : Buffer) : Result FieldValue :=
  firstByte <- readUInt8 data 0 ;;
  Ok (TargetReportDescriptor
        (Z.land (Z.shiftr firstByte 5) 7)
        (Z.land (Z.shiftr firstByte 4) 1)
        (Z.land (Z.shiftr firstByte 3) 1)
        (Z.land (Z.shiftr firstByte 2) 1)
        (Z.land (Z.shiftr firstByte 1) 1)
        (Z.land firstByte 1)).

Definition decode_040 (data : Buffer) : Result FieldValue :=
  r <- readUInt16BE data 0 ;;
  t <- readUInt16BE data 2 ;;
  let rho := (inject_Z r * (1 # 256))%Q in
  let theta := (inject_Z t * (360 # 65536))%Q in
  Ok (MeasuredPolarPosition rho theta rho theta).

Definition decode_070 (data : Buffer) : Result FieldValue :=
  raw <- readUInt16BE data 0 ;;
  let v := Z.land (Z.shiftr raw 15) 1 in
  let g := Z.land (Z.shiftr raw 14) 1 in
  let l := Z.land (Z.shiftr raw 13) 1 in
  let code := Z.land raw 4095 in
  Ok (Mode3ACode (v =? 1) (g =? 1) (l =? 1) (padStart0 4 (toString8 code)) code).

Definition decode_090 (data : Buffer) : Result FieldValue :=
  raw <- readInt16BE data 0 ;;
  let v := Z.land (Z.shiftr raw 15) 1 in
  let g := Z.land (Z.shiftr raw 14) 1 in
  let flightLevel := (inject_Z (Z.land raw 16383) * (1 # 4))%Q in
  Ok (FlightLevelBinary (v =? 1) (g =? 1) flightLevel (flightLevel * 100)%Q).

Definition decode_220 (data : Buffer) : Result FieldValue :=
  b0 <- readUInt8 data 0 ;;
  b1 <- readUInt8 data 1 ;;
  b2 <- readUInt8 data 2 ;;
  let address := Z.lor (Z.lor (Z.shiftl b0 16) (Z.shiftl b1 8)) b2 in
  Ok (AircraftAddress address (padStart0 6 (toUpperCase (toString16 address)))).

(** One six-bit character of the aircraft identification, [i] in 0..7. *)
Definition char6bit (data : Buffer) (i : Z) : Result (option Z) :=
  let byteIndex := (i * 6) / 8 in
  let bitOffset := (i * 6) mod 8 in
  if byteIndex <? buf_length data then
    if bitOffset <=? 2 then
      b <- readUInt8 data byteIndex ;;
      Ok (Some (Z.land (Z.shiftr b (2 - bitOffset)) 63))
    else
      b <- readUInt8 data byteIndex ;;
      let highBits :=
        Z.shiftl (Z.land b (Z.shiftl 1 (8 - bitOffset) - 1)) (bitOffset - 2) in
      lowBits <-
        (if byteIndex + 1 <? buf_length data
         then b' <- readUInt8 data (byteIndex + 1) ;;
              Ok (Z.land (Z.shiftr b' (10 - bitOffset))
                         (Z.shiftl 1 (bitOffset - 2) - 1))
         else Ok 0) ;;
      Ok (Some (Z.lor highBits lowBits))
  else Ok None.

Definition fromCharCode (z : Z) : string :=
  String (ascii_of_nat (Z.to_nat z)) EmptyString.

Definition sixBitToAscii (c : Z) : string :=
  if (1 <=? c) && (c <=? 26) then fromCharCode (c + 64)
  else if (48 <=? c) && (c <=? 57) then fromCharCode c
  else if c =? 32 then " "
  else "".

Fixpoint decodeCallsign (data : Buffer) (idx : list Z) (callsign : string)
  : Result string :=
  match idx with
  | [] => Ok callsign
  | i :: idx' =>
      c <- char6bit data i ;;
      decodeCallsign data idx'
        (match c with
         | Some c6 => (callsign ++ sixBitToAscii c6)%string
         | None => callsign
         end)
  end.

Definition decode_240 (data : Buffer) : Result FieldValue :=
  callsign <- decodeCallsign data [0; 1; 2; 3; 4; 5; 6; 7] "" ;;
  Ok (AircraftIdentification (trim callsign) data).

(** *** Field decoders of category 062 *)

Definition decode_062_040 (data : Buffer) : Result FieldValue :=
  n <- readUInt16BE data 0 ;;
  Ok (TrackNumber n).

Definition decode_062_105 (data : Buffer) : Result FieldValue :=
  la <- readInt32BE data 0 ;;
  lo <- readInt32BE data 4 ;;
  Ok (Wgs84Position (inject_Z la * (180 # 33554432))%Q
                    (inject_Z lo * (180 # 33554432))%Q true).

Definition decode_062_136 (data : Buffer) : Result FieldValue :=
  raw <- readInt16BE data 0 ;;
  let flightLevel := (inject_Z raw * (1 # 4))%Q in
  Ok (MeasuredFlightLevel flightLevel (flightLevel * 100)%Q).

Definition decode_062_380 (data : Buffer) : Result FieldValue :=
  Ok (AircraftDerivedData data).

(** *** Catalogues *)

Inductive FieldType : Type := FIXED | VARIABLE | REPETITIVE | COMPOUND.

Record AsterixFieldDefinition : Type := {
  fd_id : Z;
  fd_name : string;
  fd_type : FieldType;
  fd_length : option Z;
  fd_decoder : Buffer -> Result FieldValue
}.

Record AsterixCategory : Type := {
  cat_number : Z;
  cat_name : string;
  cat_fields : JsMap.t Z AsterixFieldDefinition
}.

Definition fixedField (id : Z) (name : string) (len : Z)
  (dec : Buffer -> Result FieldValue) : Z * AsterixFieldDefinition :=
  (id, {| fd_id := id; fd_name := name; fd_type := FIXED;
          fd_length := Some len; fd_decoder := dec |}).

Definition cat048 : AsterixCategory := {|
  cat_number := 48;
  cat_name := "Monoradar Target Reports";
  cat_fields :=
    [ fixedField 0x010 "Data Source Identifier" 2 decode_010;
      (0x020, {| fd_id := 0x020; fd_name := "Target Report Descriptor";
                 fd_type := VARIABLE; fd_length := None;
                 fd_decoder := decode_020 |});
      fixedField 0x040 "Measured Position in Polar Coordinates" 4 decode_040;
      fixedField 0x070 "Mode-3/A Code in Octal Representation" 2 decode_070;
      fixedField 0x090 "Flight Level in Binary Representation" 2 decode_090;
      fixedField 0x220 "Aircraft Address" 3 decode_220;
      fixedField 0x240 "Aircraft Identification" 6 decode_240 ]
|}.

Definition cat062 : AsterixCategory := {|
  cat_number := 62;
  cat_name := "System Track Data";
  cat_fields :=
    [ fixedField 0x010 "Data Source Identifier" 2 decode_010;
      fixedField 0x040 "Track Number" 2 decode_062_040;
      fixedField 0x105 "Calculated Position in WGS-84 Coordinates" 8 decode_062_105;
      fixedField 0x136 "Measured Flight Level" 2 decode_062_136;
      (0x380, {| fd_id := 0x380; fd_name := "Aircraft Derived Data";
                 fd_type := COMPOUND; fd_length := None;
                 fd_decoder := decode_062_380 |}) ]
|}.

(** The decoder's [categories] map, as the constructor fills it. *)
Definition categories : JsMap.t Z AsterixCategory :=
  [ (48, cat048); (62, cat062) ].

(** *** The logger *)

Inductive LogLevel : Type := DEBUG | INFO | WARN | ERROR.

Record LogEntry : Type := {
  log_level : LogLevel;
  log_message : string;
  log_error : option Exn;
  log_category : Z;
  log_fieldId : option Z
}.

Definition warnUnknownField (category fieldId : Z) : LogEntry :=
  {| log_level := WARN; log_message := "Unknown field in ASTERIX message";
     log_error := None; log_category := category;
     log_fieldId := Some fieldId |}.

Definition errorFieldDecoding (e : Exn) (category fieldId : Z) : LogEntry :=
  {| log_level := ERROR; log_message := "Field decoding failed";
     log_error := Some e; log_category := category;
     log_fieldId := Some fieldId |}.

Definition errorDecodingFailed (e : Exn) (category : Z) : LogEntry :=
  {| log_level := ERROR; log_message := "ASTERIX decoding failed";
     log_error := Some e; log_category := category; log_fieldId := None |}.

(** *** Field specification and field lengths *)

Section Decoder.

(** The identifiers of the special purpose and reserved expansion fields,
    entries 26 and 27 of the index table, are not given a value by the
    source; they are parameters of the decoder. *)
Variables SP RE : Z.

(** [fieldMap[index] || null]: an index outside the table, or one mapped to
    0, gives no field. *)
Definition mapFieldIndexToId (index : Z) : option Z :=
  let fieldMap : JsMap.t Z Z :=
    [ (1, 0x010); (2, 0x020); (3, 0x040); (4, 0x070); (5, 0x090);
      (6, 0x130); (7, 0x220); (8, 0x240); (9, 0x250); (10, 0x161);
      (11, 0x042); (12, 0x200); (13, 0x170); (14, 0x210); (15, 0x030);
      (16, 0x080); (17, 0x100); (18, 0x110); (19, 0x120); (20, 0x230);
      (21, 0x260); (22, 0x055); (23, 0x050); (24, 0x065); (25, 0x060);
      (26, SP); (27, RE) ] in
  match JsMap.get Z.eq_dec index fieldMap with
  | Some id => if id =? 0 then None else Some id
  | None => None
  end.

(** The inner loop of [readFSPEC]: [bit] runs from 7 down to 1 and tests
    [fspecByte & (1 << (bit - 1))]; the field index advances at every bit. *)
Fixpoint scanBits (fspecByte : Z) (bits : list Z) (fieldIndex : Z)
  (presentFields : list Z) : list Z * Z :=
  match bits with
  | [] => (presentFields, fieldIndex)
  | bit :: bits' =>
      let presentFields' :=
        if Z.land fspecByte (Z.shiftl 1 (bit - 1)) =? 0 then presentFields
        else match mapFieldIndexToId fieldIndex with
             | Some fieldId => presentFields ++ [fieldId]
             | None => presentFields
             end in
      scanBits fspecByte bits' (fieldIndex + 1) presentFields'
  end.

(** The [do ... while] loop of [readFSPEC] over the bytes that remain from
    [offset + fspecLength] on: one byte is consumed per iteration, the loop
    throws when it runs past the end and stops after the first byte whose
    least significant bit is clear. *)
Fixpoint readFSPEC_loop (rest : list byte) (fieldIndex : Z)
  (presentFields : list Z) (fspecLength : Z) : Result (list Z * Z) :=
  match rest with
  | [] => Throw IncompleteFSPEC
  | b :: rest' =>
      let fspecByte := byteZ b in
      let fspecLength := fspecLength + 1 in
      let '(presentFields, fieldIndex) :=
        scanBits fspecByte [7; 6; 5; 4; 3; 2; 1] fieldIndex presentFields in
      if Z.land fspecByte 1 =? 1
      then readFSPEC_loop rest' fieldIndex presentFields fspecLength
      else Ok (presentFields, fspecLength)
  end.

Definition readFSPEC (data : Buffer) (offset : Z) : Result (list Z * Z) :=
  if offset >=? buf_length data then Throw IncompleteFSPEC
  else if offset <? 0 then Throw RangeError
  else readFSPEC_loop (skipn (Z.to_nat offset) data) 1 [] 0.

(** The [do ... while] loop shared by variable fields and by the FSPEC of a
    compound field: count bytes up to and including the first one whose
    least significant bit is clear, or up to the end of the buffer. *)
Fixpoint extentLoop (rest : list byte) : Z :=
  match rest with
  | [] => 0
  | b :: rest' =>
      if Z.land (byteZ b) 1 =? 1 then 1 + extentLoop rest' else 1
  end.

Definition extent (data : Buffer) (offset : Z) : Result Z :=
  if offset >=? buf_length data then Ok 0
  else if offset <? 0 then Throw RangeError
  else Ok (extentLoop (skipn (Z.to_nat offset) data)).

Definition getCompoundFieldLength (data : Buffer) (offset : Z) : Result Z :=
  fspecLength <- extent data offset ;;
  Ok (Z.min (buf_length data - offset) (fspecLength + 10)).

Definition getFieldLength (fieldDef : AsterixFieldDefinition)
  (data : Buffer) (offset : Z) : Result Z :=
  match fd_type fieldDef with
  | FIXED =>
      Ok (match fd_length fieldDef with Some l => l | None => 0 end)
  | VARIABLE => extent data offset
  | REPETITIVE =>
      if offset >=? buf_length data then Ok 0
      else
        repetitions <- readUInt8 data offset ;;
        let itemLength :=
          match fd_length fieldDef with
          | Some l => if l =? 0 then 1 else l
          | None => 1
          end in
        Ok (1 + repetitions * itemLength)
  | COMPOUND => getCompoundFieldLength data offset
  end.

(** *** Decoding a record *)

Record DecodeState : Type := {
  offset : Z;
  fields : JsMap.t string FieldValue;
  logger : list LogEntry
}.

Record DataRecord : Type := {
  rec_category : Z;
  rec_fields : JsMap.t string FieldValue
}.

(** The body of the inner [try]: the length of the field, the bounds check,
    the slice and the field decoder. *)
Definition tryDecodeField (fieldDef : AsterixFieldDefinition)
  (data : Buffer) (offset fieldId : Z) : Result (FieldValue * Z) :=
  fieldLength <- getFieldLength fieldDef data offset ;;
  if offset + fieldLength >? buf_length data
  then Throw (InsufficientData fieldId)
  else
    let fieldData := subarray data offset (offset + fieldLength) in
    decodedField <- fd_decoder fieldDef fieldData ;;
    Ok (decodedField, fieldLength).

(** One iteration of the loop over the present fields. *)
Definition decodeField (category : AsterixCategory) (data : Buffer)
  (st : DecodeState) (fieldId : Z) : DecodeState :=
  match JsMap.get Z.eq_dec fieldId (cat_fields category) with
  | None =>
      {| offset := offset st; fields := fields st;
         logger := logger st ++
                   [warnUnknownField (cat_number category) fieldId] |}
  | Some fieldDef =>
      match tryDecodeField fieldDef data (offset st) fieldId with
      | Ok (decodedField, fieldLength) =>
          {| offset := offset st + fieldLength;
             fields := JsMap.set string_dec (fd_name fieldDef) decodedField
                         (fields st);
             logger := logger st |}
      | Throw e =>
          {| offset := offset st + 1; fields := fields st;
             logger := logger st ++
                       [errorFieldDecoding e (cat_number category) fieldId] |}
      end
  end.

Definition decodeFields (category : AsterixCategory) (data : Buffer)
  (st : DecodeState) (presentFields : list Z) : DecodeState :=
  fold_left (decodeField category data) presentFields st.

Definition decodeDataRecord (category : AsterixCategory) (data : Buffer)
  (log : list LogEntry) : Result DataRecord * list LogEntry :=
  match readFSPEC data 0 with
  | Throw e => (Throw e, log)
  | Ok (presentFields, fspecLength) =>
      let st := decodeFields category data
                  {| offset := 0 + fspecLength; fields := [];
                     logger := log |} presentFields in
      (Ok {| rec_category := cat_number category;
             rec_fields := fields st |}, logger st)
  end.

Definition decodeMessage (category : Z) (data : Buffer)
  (log : list LogEntry) : Result DataRecord * list LogEntry :=
  match JsMap.get Z.eq_dec category categories with
  | None => (Throw (UnsupportedCategory category), log)
  | Some categoryDef =>
      match decodeDataRecord categoryDef data log with
      | (Ok r, log') => (Ok r, log')
      | (Throw e, log') =>
          (Throw e, log' ++ [errorDecodingFailed e category])
      end
  end.

End Decoder.

End Asterix.

(** ** Shared types ([types/index.ts]) and [Math] *)

Module Types.

Local Open Scope R_scope.

Record Position3D : Type := {
  latitude : R;
  longitude : R;
  altitude : R;
  timestamp : Z
}.

Record Vector3D : Type := { x : R; y : R; z : R }.

Inductive AircraftStatus : Type :=
| DEPARTING | ARRIVING | TAXIING | HOLDING | EMERGENCY | UNKNOWN.

Inductive ConflictType : Type :=
| SEPARATION_VIOLATION | RUNWAY_INCURSION | ALTITUDE_CONFLICT | GROUND_CONFLICT.

Inductive SeverityLevel : Type := LOW | MEDIUM | HIGH | CRITICAL.

Inductive ConflictStatus : Type :=
| DETECTED | ACKNOWLEDGED | RESOLVING | RESOLVED.

Record FlightPlan : Type := {
  origin : string;
  destination : string;
  route : string;
  cruiseAltitude : R;
  estimatedDeparture : Z;
  estimatedArrival : Z
}.

Record Clearance : Type := {
  clr_id : string;
  clr_type : string;
  clr_instruction : string;
  clr_timestamp : Z;
  clr_acknowledged : bool
}.

Record Aircraft : Type := {
  callsign : string;
  flightPlan : FlightPlan;
  currentPosition : Position3D;
  velocity : Vector3D;
  ac_altitude : R;
  heading : R;
  squawkCode : string;
  status : AircraftStatus;
  clearances : list Clearance;
  lastUpdate : Z
}.

Record ResolutionOption : Type := {
  ro_id : string;
  description : string;
  instructions : list string;
  estimatedResolutionTime : R;
  ro_confidence : R
}.

Record Conflict : Type := {
  id : string;
  aircraftInvolved : list Aircraft;
  conflictType : ConflictType;
  timeToConflict : R;
  severity : SeverityLevel;
  resolutionOptions : list ResolutionOption;
  conflict_status : ConflictStatus;
  detectedAt : Z
}.

(** Comparisons of numbers as booleans. *)
Definition Rltb (a b : R) : bool := if Rlt_dec a b then true else false.
Definition Rleb (a b : R) : bool := if Rle_dec a b then true else false.
Definition Rgtb (a b : R) : bool := if Rgt_dec a b then true else false.

(** [Math.atan2(a, b)], the angle of the point with abscissa [b] and
    ordinate [a], in (-PI, PI]. *)
Definition Math_atan2 (a b : R) : R :=
  if Rlt_dec 0 b then atan (a / b)
  else if Rlt_dec b 0 then
    if Rle_dec 0 a then atan (a / b) + PI else atan (a / b) - PI
  else if Rlt_dec 0 a then PI / 2
  else if Rlt_dec a 0 then - (PI / 2)
  else 0.

End Types.

(** ** Track store ([RadarDataProcessor.ts]) *)

Module Radar.
Import Types.

Local Open Scope string_scope.
Local Open Scope list_scope.
Local Open Scope R_scope.

Record TrackQuality : Type := {
  confidence : R;
  positionAccuracy : R;
  velocityAccuracy : R;
  ageSeconds : R;
  sourceReliability : R
}.

Record RadarTrack : Type := {
  trackNumber : Z;
  rt_callsign : option string;
  position : Position3D;
  rt_velocity : Vector3D;
  rt_heading : R;
  rt_squawkCode : option string;
  mode3A : option string;
  flightLevel : option R;
  groundSpeed : option R;
  rt_lastUpdate : Z;
  trackQuality : TrackQuality
}.

(** [Partial<RadarTrack>]: every attribute may be absent. *)
Record PartialRadarTrack : Type := {
  td_trackNumber : option Z;
  td_callsign : option string;
  td_position : option Position3D;
  td_velocity : option Vector3D;
  td_heading : option R;
  td_squawkCode : option string;
  td_mode3A : option string;
  td_flightLevel : option R;
  td_groundSpeed : option R;
  td_lastUpdate : option Z;
  td_trackQuality : option TrackQuality
}.

(** The processor's mutable fields that the track store uses. *)
Record State : Type := {
  isProcessing : bool;
  radarTracks : JsMap.t Z RadarTrack;
  aircraftMap : JsMap.t string Aircraft
}.

(** An attribute of the object spread [{...existing, ...update}]. *)
Definition spread {A} (existing : A) (update : option A) : A :=
  match update with Some v => v | None => existing end.

Definition spreadOpt {A} (existing update : option A) : option A :=
  match update with Some v => Some v | None => existing end.

Definition calculateVelocity (pos1 pos2 : Position3D) (time1 time2 : Z)
  : Vector3D :=
  let deltaTime := IZR (time2 - time1) / 1000 in
  if Rle_dec deltaTime 0 then {| x := 0; y := 0; z := 0 |}
  else
    let deltaLat := (latitude pos2 - latitude pos1) * 111320 in
    let deltaLon := (longitude pos2 - longitude pos1) * 111320
                    * cos (latitude pos1 * PI / 180) in
    let deltaAlt := altitude pos2 - altitude pos1 in
    {| x := deltaLon / deltaTime;
       y := deltaLat / deltaTime;
       z := deltaAlt / deltaTime |}.

Definition calculateHeading (velocity : Vector3D) : R :=
  let heading := Math_atan2 (x velocity) (y velocity) * 180 / PI in
  if Rlt_dec heading 0 then heading + 360 else heading.

Definition calculateGroundSpeed (velocity : Vector3D) : R :=
  sqrt (x velocity * x velocity + y velocity * y velocity).

(** [now] is the reading of [Date.now()]. *)
Definition calculateTrackQuality (now : Z) (existing : RadarTrack)
  (update : PartialRadarTrack) : TrackQuality :=
  let ageSeconds := IZR (now - rt_lastUpdate existing) / 1000 in
  {| confidence :=
       Rmax (1 / 10) (confidence (trackQuality existing) - ageSeconds * (1 / 100));
     positionAccuracy := positionAccuracy (trackQuality existing);
     velocityAccuracy := velocityAccuracy (trackQuality existing);
     ageSeconds := ageSeconds;
     sourceReliability := sourceReliability (trackQuality existing) |}.

(** [updateRadarTrack]; [clock n] is the (n+1)-th reading of the wall clock
    that the call makes. *)
Definition updateRadarTrack (clock : nat -> Z) (trackData : PartialRadarTrack)
  (st : State) : State :=
  match td_trackNumber trackData with
  | None => st
  | Some tn =>
    if Z.eqb tn 0 then st else
    match JsMap.get Z.eq_dec tn (radarTracks st) with
    | Some existingTrack =>
        let updatedTrack :=
          {| trackNumber := tn;
             rt_callsign := spreadOpt (rt_callsign existingTrack) (td_callsign trackData);
             position := spread (position existingTrack) (td_position trackData);
             rt_velocity := spread (rt_velocity existingTrack) (td_velocity trackData);
             rt_heading := spread (rt_heading existingTrack) (td_heading trackData);
             rt_squawkCode := spreadOpt (rt_squawkCode existingTrack) (td_squawkCode trackData);
             mode3A := spreadOpt (mode3A existingTrack) (td_mode3A trackData);
             flightLevel := spreadOpt (flightLevel existingTrack) (td_flightLevel trackData);
             groundSpeed := spreadOpt (groundSpeed existingTrack) (td_groundSpeed trackData);
             rt_lastUpdate := clock 0%nat;
             trackQuality := calculateTrackQuality (clock 1%nat) existingTrack trackData |} in
        let updatedTrack :=
          match td_position trackData with
          | Some newPosition =>
              let v := calculateVelocity (position existingTrack) newPosition
                         (rt_lastUpdate existingTrack) (clock 2%nat) in
              {| trackNumber := trackNumber updatedTrack;
                 rt_callsign := rt_callsign updatedTrack;
                 position := position updatedTrack;
                 rt_velocity := v;
                 rt_heading := calculateHeading v;
                 rt_squawkCode := rt_squawkCode updatedTrack;
                 mode3A := mode3A updatedTrack;
                 flightLevel := flightLevel updatedTrack;
                 groundSpeed := Some (calculateGroundSpeed v);
                 rt_lastUpdate := rt_lastUpdate updatedTrack;
                 trackQuality := trackQuality updatedTrack |}
          | None => updatedTrack
          end in
        {| isProcessing := isProcessing st;
           radarTracks := JsMap.set Z.eq_dec tn updatedTrack (radarTracks st);
           aircraftMap := aircraftMap st |}
    | None =>
        let newTrack :=
          {| trackNumber := tn;
             rt_callsign := td_callsign trackData;
             position :=
               match td_position trackData with
               | Some p => p
               | None => {| latitude := 0; longitude := 0; altitude := 0;
                            timestamp := clock 0%nat |}
               end;
             rt_velocity := {| x := 0; y := 0; z := 0 |};
             rt_heading := 0;
             rt_squawkCode := td_squawkCode trackData;
             mode3A := None;
             flightLevel := td_flightLevel trackData;
             groundSpeed := None;
             rt_lastUpdate :=
               match td_position trackData with
               | Some _ => clock 0%nat
               | None => clock 1%nat
               end;
             trackQuality :=
               {| confidence := 8 / 10; positionAccuracy := 100;
                  velocityAccuracy := 5; ageSeconds := 0;
                  sourceReliability := 9 / 10 |} |} in
        {| isProcessing := isProcessing st;
           radarTracks := JsMap.set Z.eq_dec tn newTrack (radarTracks st);
           aircraftMap := aircraftMap st |}
    end
  end.

(** [x || fallback] on an optional number: absent and 0 are falsy. *)
Definition orNumber (v : option R) (fallback : R) : R :=
  match v with
  | Some r => if Req_dec_T r 0 then fallback else r
  | None => fallback
  end.

(** [track.callsign || `TRK${track.trackNumber}`] *)
Definition aircraftKey (callsign : option string) (trackNumber : Z) : string :=
  match callsign with
  | Some c => if string_dec c "" then "TRK" ++ decimal trackNumber else c
  | None => "TRK" ++ decimal trackNumber
  end.

Definition determineAircraftStatus (track : RadarTrack) : AircraftStatus :=
  match groundSpeed track with
  | None => UNKNOWN
  | Some gs =>
      if Req_dec_T gs 0 then UNKNOWN
      else if Rlt_dec gs 5 then HOLDING
      else match flightLevel track with
           | Some fl =>
               if Req_dec_T fl 0 then ARRIVING
               else if Rlt_dec fl 1000
                    then (if Rgt_dec gs 50 then DEPARTING else TAXIING)
                    else ARRIVING
           | None => ARRIVING
           end
  end.

(** One iteration of the loop of [convertTracksToAircraft]: [now] is the
    reading taken before the loop, [n] counts the readings made so far by
    the call. *)
Definition convertTrack (clock : nat -> Z) (now : Z)
  (acc : list Aircraft * JsMap.t string Aircraft * nat) (track : RadarTrack)
  : list Aircraft * JsMap.t string Aircraft * nat :=
  let '(aircraft, acMap, n) := acc in
  let ageSeconds := IZR (now - rt_lastUpdate track) / 1000 in
  if Rgt_dec ageSeconds 30 then acc
  else
    let aircraftObj :=
      {| callsign := aircraftKey (rt_callsign track) (trackNumber track);
         flightPlan :=
           {| origin := "UNKNOWN"; destination := "UNKNOWN"; route := "";
              cruiseAltitude := orNumber (flightLevel track) 0;
              estimatedDeparture := clock n;
              estimatedArrival := clock (S n) |};
         currentPosition := position track;
         velocity := rt_velocity track;
         ac_altitude := orNumber (flightLevel track) (altitude (position track));
         heading := rt_heading track;
         squawkCode :=
           match rt_squawkCode track with
           | Some c => if string_dec c "" then "0000" else c
           | None => "0000"
           end;
         status := determineAircraftStatus track;
         clearances := [];
         lastUpdate := rt_lastUpdate track |} in
    (aircraft ++ [aircraftObj],
     JsMap.set string_dec (callsign aircraftObj) aircraftObj acMap,
     S (S n)).

Definition convertTracksToAircraft (clock : nat -> Z) (st : State)
  : list Aircraft * State :=
  let now := clock 0%nat in
  let '(aircraft, acMap, _) :=
    fold_left (convertTrack clock now) (JsMap.values (radarTracks st))
              ([], aircraftMap st, 1%nat) in
  (aircraft,
   {| isProcessing := isProcessing st;
      radarTracks := radarTracks st;
      aircraftMap := acMap |}).


(** One iteration of the loop of the maintenance timer's callback. *)
Definition maintainTrack (now : Z) (st : State) (entry : Z * RadarTrack)
  : State :=
  let '(trackNumber, track) := entry in
  let age := (now - rt_lastUpdate track)%Z in
  let staleThreshold := 60000%Z in
  if (age >? staleThreshold)%Z then
    {| isProcessing := isProcessing st;
       radarTracks := JsMap.delete Z.eq_dec trackNumber (radarTracks st);
       aircraftMap :=
         JsMap.delete string_dec (aircraftKey (rt_callsign track) trackNumber)
                      (aircraftMap st) |}
  else st.


End Radar.

(** ** Resolution-suggestion collaborator ([OpenAIService.ts],
       [OpenAIClient.ts]) *)

Module OpenAI.
Import Types.

Local Open Scope string_scope.
Local Open Scope list_scope.

(** An error thrown by a request to the remote service, with the
    attributes that [isRetryableError] inspects, or by the handling of
    its response. *)
Record ApiError : Type := {
  err_message : string;
  err_type : option string;
  err_status : option Z
}.

Inductive Error : Type :=
| RequestFailed (e : ApiError)
| InvalidResponseFormat
| SyntaxError
| TypeError.

Inductive Result (A : Type) : Type :=
| Ok (a : A)
| Throw (e : Error).
Arguments Ok {A} a.
Arguments Throw {A} e.

(** The part of a chat completion that the service reads. *)
Record FunctionCall : Type := { fc_name : string; arguments : option string }.
Record Message : Type := { function_call : option FunctionCall }.
Record Choice : Type := { message : option Message }.
Record ChatCompletion : Type := {
  choices : list Choice;
  total_tokens : option Z
}.

Inductive LogEntry : Type :=
| LogInfo (msg : string)
| LogWarn (msg : string)
| LogError (msg : string) (e : Error).

(** [s.includes(sub)] *)
Definition includes (s sub : string) : bool :=
  match String.index 0 sub s with Some _ => true | None => false end.

Definition isRetryableError (error : ApiError) : bool :=
  let retryableErrors :=
    [ "rate_limit_exceeded"; "server_error"; "timeout"; "connection_error";
      "service_unavailable" ] in
  if includes (err_message error) "ECONNRESET"
     || includes (err_message error) "ETIMEDOUT"
     || includes (err_message error) "ENOTFOUND"
  then true
  else match err_type error with
       | Some ty => existsb (String.eqb ty) retryableErrors
       | None =>
           match err_status error with
           | Some status => (status >=? 500)%Z || (status =? 429)%Z
           | None => false
           end
       end.

(** The outcome of one execution of the operation passed to
    [executeWithRetry]. *)
Inductive Attempt : Type :=
| Fulfilled (r : ChatCompletion)
| Rejected (e : ApiError).

(** [executeWithRetry]: [operation n] is the outcome of attempt number
    [n], [remaining] the number of attempts left after this one, that is
    [maxRetries - attempt]. The waits between attempts take time and
    change nothing else. *)
Fixpoint executeWithRetry_from (operation : nat -> Attempt)
  (attempt remaining : nat) (log : list LogEntry)
  : Result ChatCompletion * list LogEntry :=
  match operation attempt with
  | Fulfilled r =>
      (Ok r,
       if (0 <? attempt)%nat
       then log ++ [LogInfo "OpenAI request succeeded after retries"]
       else log)
  | Rejected e =>
      match remaining with
      | O =>
          (Throw (RequestFailed e),
           log ++ [LogError "OpenAI request failed permanently" (RequestFailed e)])
      | S remaining' =>
          if negb (isRetryableError e)
          then (Throw (RequestFailed e),
                log ++ [LogError "OpenAI request failed permanently" (RequestFailed e)])
          else executeWithRetry_from operation (S attempt) remaining'
                 (log ++ [LogWarn "OpenAI request failed, retrying"])
      end
  end.

Definition executeWithRetry (maxRetries : nat) (operation : nat -> Attempt)
  (log : list LogEntry) : Result ChatCompletion * list LogEntry :=
  executeWithRetry_from operation 0 maxRetries log.

(** The value of [JSON.parse(functionCall.arguments)] as far as the
    destructuring [{ resolutions }] and [resolutions.length] observe it. *)
Inductive ParsedArguments : Type :=
| WithResolutions (resolutions : list ResolutionOption)
| WithoutResolutions.

Definition fallbackResolution : ResolutionOption :=
  {| ro_id := "fallback-001";
     description := "Manual resolution required";
     instructions := ["Contact supervisor for manual conflict resolution"];
     estimatedResolutionTime := 300%R;
     ro_confidence := (1 / 10)%R |}.

Section Service.

(** [JSON.parse]; [None] stands for a thrown [SyntaxError]. *)
Variable JSON_parse : string -> option ParsedArguments.

(** The retry limit of the client (3 unless reconfigured). *)
Variable maxRetries : nat.

(** The body of the [try] block of [generateConflictResolutions]. *)
Definition requestResolutions (operation : nat -> Attempt)
  (log : list LogEntry) : Result (list ResolutionOption) * list LogEntry :=
  match executeWithRetry maxRetries operation log with
  | (Throw e, log1) => (Throw e, log1)
  | (Ok result, log1) =>
      let functionCall :=
        match choices result with
        | [] => None
        | c :: _ =>
            match message c with
            | None => None
            | Some m => function_call m
            end
        end in
      match functionCall with
      | None => (Throw InvalidResponseFormat, log1)
      | Some fc =>
          match arguments fc with
          | None => (Throw InvalidResponseFormat, log1)
          | Some args =>
              if string_dec args "" then (Throw InvalidResponseFormat, log1)
              else
                match JSON_parse args with
                | None => (Throw SyntaxError, log1)
                | Some WithoutResolutions => (Throw TypeError, log1)
                | Some (WithResolutions resolutions) =>
                    (Ok resolutions,
                     log1 ++ [LogInfo "Conflict resolution suggestions generated"])
                end
          end
      end
  end.

(** [generateConflictResolutions]: the [catch] clause logs the error and
    returns the fallback. *)
Definition generateConflictResolutions (operation : nat -> Attempt)
  (log : list LogEntry) : Result (list ResolutionOption) * list LogEntry :=
  match requestResolutions operation log with
  | (Ok resolutions, log1) => (Ok resolutions, log1)
  | (Throw e, log1) =>
      (Ok [fallbackResolution],
       log1 ++ [LogError "Conflict resolution generation failed" e])
  end.

End Service.

End OpenAI.

(** ** Conflict detector ([ConflictDetectionService.ts]) *)

Module Conflict.
Import Types.

Local Open Scope string_scope.
Local Open Scope list_scope.
Local Open Scope R_scope.

Record AlertThresholds : Type := {
  caution : R;
  warning : R;
  critical : R
}.

Record ConflictParameters : Type := {
  horizontalSeparation : R;
  verticalSeparation : R;
  timeHorizon : R;
  alertThresholds : AlertThresholds
}.

Definition defaultSeparationStandards : ConflictParameters :=
  {| horizontalSeparation := 3;
     verticalSeparation := 1000;
     timeHorizon := 300;
     alertThresholds := {| caution := 180; warning := 120; critical := 60 |} |}.

Record TrajectoryPrediction : Type := {
  aircraft : Aircraft;
  predictedPositions : list Position3D;
  timeStamps : list Z;
  confidence : R;
  uncertaintyRadius : R
}.

(** The mutable fields of the service, with the number of clock readings
    and of random draws made so far. *)
Record Service : Type := {
  isRunning : bool;
  activeConflicts : JsMap.t string Conflict;
  conflictHistory : list Conflict;
  trajectoryCache : JsMap.t string TrajectoryPrediction;
  separationStandards : ConflictParameters;
  clockReads : nat;
  randomDraws : nat
}.

(** The environment: [Date_now n] is the value of the (n+1)-th reading of
    the wall clock, in epoch milliseconds; [Math_random n] is the value of
    [Math.random().toString(36).substr(2, 9)] at the (n+1)-th draw. *)
Record Oracle : Type := {
  Date_now : nat -> Z;
  Math_random : nat -> string
}.

Inductive Error : Type := TypeError.

Inductive Outcome (A : Type) : Type :=
| Returns (a : A)
| Throws (e : Error).
Arguments Returns {A} a.
Arguments Throws {A} e.

(** Computations that read and write the service and may throw. *)
Definition M (A : Type) : Type := Service -> Outcome A * Service.

Definition ret {A} (a : A) : M A := fun s => (Returns a, s).

Definition bind {A B} (m : M A) (k : A -> M B) : M B :=
  fun s =>
    match m s with
    | (Returns a, s') => k a s'
    | (Throws e, s') => (Throws e, s')
    end.

Definition throw {A} (e : Error) : M A := fun s => (Throws e, s).

Notation "x <- c ;; k" := (bind c (fun x => k))
  (at level 61, c at next level, right associativity).
Notation "c ;;; k" := (bind c (fun _ => k))
  (at level 61, right associativity).

Definition getService : M Service := fun s => (Returns s, s).

Definition setActiveConflicts (m : JsMap.t string Conflict) : M unit :=
  fun s => (Returns tt,
            {| isRunning := isRunning s; activeConflicts := m;
               conflictHistory := conflictHistory s;
               trajectoryCache := trajectoryCache s;
               separationStandards := separationStandards s;
               clockReads := clockReads s; randomDraws := randomDraws s |}).

Definition setConflictHistory (h : list Conflict) : M unit :=
  fun s => (Returns tt,
            {| isRunning := isRunning s; activeConflicts := activeConflicts s;
               conflictHistory := h;
               trajectoryCache := trajectoryCache s;
               separationStandards := separationStandards s;
               clockReads := clockReads s; randomDraws := randomDraws s |}).

Definition setTrajectoryCache (c : JsMap.t string TrajectoryPrediction)
  : M unit :=
  fun s => (Returns tt,
            {| isRunning := isRunning s; activeConflicts := activeConflicts s;
               conflictHistory := conflictHistory s;
               trajectoryCache := c;
               separationStandards := separationStandards s;
               clockReads := clockReads s; randomDraws := randomDraws s |}).

Section WithOracle.

Variable o : Oracle.

(** [Date.now()] and [new Date()] *)
Definition dateNow : M Z :=
  fun s => (Returns (Date_now o (clockReads s)),
            {| isRunning := isRunning s; activeConflicts := activeConflicts s;
               conflictHistory := conflictHistory s;
               trajectoryCache := trajectoryCache s;
               separationStandards := separationStandards s;
               clockReads := S (clockReads s); randomDraws := randomDraws s |}).

(** [Math.random().toString(36).substr(2, 9)] *)
Definition randomSuffix : M string :=
  fun s => (Returns (Math_random o (randomDraws s)),
            {| isRunning := isRunning s; activeConflicts := activeConflicts s;
               conflictHistory := conflictHistory s;
               trajectoryCache := trajectoryCache s;
               separationStandards := separationStandards s;
               clockReads := clockReads s; randomDraws := S (randomDraws s) |}).

(** *** Geometry and classification *)

Definition calculateHorizontalDistance (pos1 pos2 : Position3D) : R :=
  let R := 3440065 / 1000 in
  let dLat := (latitude pos2 - latitude pos1) * PI / 180 in
  let dLon := (longitude pos2 - longitude pos1) * PI / 180 in
  let a := sin (dLat / 2) * sin (dLat / 2) +
           cos (latitude pos1 * PI / 180) * cos (latitude pos2 * PI / 180) *
           sin (dLon / 2) * sin (dLon / 2) in
  let c := 2 * Math_atan2 (sqrt a) (sqrt (1 - a)) in
  R * c.

(** The combined separation of one pair of samples, in nautical miles. *)
Definition totalSeparation (pos1 pos2 : Position3D) : R :=
  let horizontalSep := calculateHorizontalDistance pos1 pos2 in
  let verticalSep := Rabs (altitude pos1 - altitude pos2) in
  sqrt (horizontalSep ^ 2 + (verticalSep / (607612 / 100)) ^ 2).

Definition calculateGroundSpeed (velocity : Vector3D) : R :=
  sqrt (x velocity * x velocity + y velocity * y velocity) * (194384 / 100000).

Definition determineConflictType (aircraft1 aircraft2 : Aircraft)
  (pos1 pos2 : Position3D) : ConflictType :=
  let altitudeDiff := Rabs (altitude pos1 - altitude pos2) in
  if Rltb altitudeDiff 500 then SEPARATION_VIOLATION
  else if Rltb (altitude pos1) 1000 || Rltb (altitude pos2) 1000
       then GROUND_CONFLICT
       else ALTITUDE_CONFLICT.

Definition calculateSeverity (separation timeToConflict : R) : SeverityLevel :=
  if Rltb separation 1 && Rltb timeToConflict 60 then CRITICAL
  else if Rltb separation 2 && Rltb timeToConflict 120 then HIGH
  else if Rltb separation 3 && Rltb timeToConflict 180 then MEDIUM
  else LOW.

(** *** Filtering *)

Definition isActive (now : Z) (ac : Aircraft) : bool :=
  let age := (now - lastUpdate ac)%Z in
  let staleThreshold := 30000%Z in
  (age <? staleThreshold)%Z && Rgtb (ac_altitude ac) 0.

Definition filterActiveAircraft (aircraft : list Aircraft)
  : M (list Aircraft) :=
  now <- dateNow ;;
  ret (filter (isActive now) aircraft).

(** *** Trajectory prediction *)

Definition calculateTrajectoryConfidence (ac : Aircraft) : M R :=
  now <- dateNow ;;
  let dataAge := IZR (now - lastUpdate ac) / 1000 in
  let ageConfidence := Rmax (1 / 10) (1 - dataAge / 30) in
  let statusConfidence :=
    match status ac with UNKNOWN => 5 / 10 | _ => 9 / 10 end in
  ret (ageConfidence * statusConfidence).

Definition calculateUncertaintyRadius (ac : Aircraft) : M R :=
  now <- dateNow ;;
  let baseUncertainty := 5 / 10 in
  let dataAge := IZR (now - lastUpdate ac) / 1000 in
  ret (baseUncertainty + (dataAge / 60) * (1 / 10)).

(** The sample of the linear prediction [t] seconds after the last
    update. *)
Definition predictedPosition (ac : Aircraft) (t : Z) : Position3D :=
  let currentPosition := currentPosition ac in
  let currentVelocity := velocity ac in
  {| latitude := latitude currentPosition + (y currentVelocity * IZR t) / 111320;
     longitude := longitude currentPosition +
                  (x currentVelocity * IZR t) /
                  (111320 * cos (latitude currentPosition * PI / 180));
     altitude := altitude currentPosition +
                 (z currentVelocity * IZR t * (328084 / 100000));
     timestamp := (lastUpdate ac + t * 1000)%Z |}.

(** The loop [for (t = 0; t <= maxTime; t += timeStep)], with at most
    [fuel] iterations. *)
Fixpoint predictLoop (fuel : nat) (ac : Aircraft) (maxTime : R) (t : Z)
  : list Position3D :=
  match fuel with
  | O => []
  | S fuel' =>
      if Rle_dec (IZR t) maxTime
      then predictedPosition ac t :: predictLoop fuel' ac maxTime (t + 10)%Z
      else []
  end.

(** The number of iterations that the loop makes: the [t]'s are 0, 10,
    20, ... and [up r] is the integer just above [r]. *)
Definition predictSteps (maxTime : R) : nat := Z.to_nat (up (maxTime / 10)).

Definition predictTrajectory (ac : Aircraft) : M TrajectoryPrediction :=
  s <- getService ;;
  let maxTime := timeHorizon (separationStandards s) in
  let predictions := predictLoop (predictSteps maxTime) ac maxTime 0 in
  c <- calculateTrajectoryConfidence ac ;;
  u <- calculateUncertaintyRadius ac ;;
  ret {| aircraft := ac;
         predictedPositions := predictions;
         timeStamps := map timestamp predictions;
         confidence := c;
         uncertaintyRadius := u |}.

(** The [aircraft] argument is not read. *)
Definition isTrajectoryValid (trajectory : TrajectoryPrediction)
  (ac : Aircraft) : M bool :=
  now <- dateNow ;;
  match timeStamps trajectory with
  | [] => throw TypeError
  | t0 :: _ =>
      let age := (now - t0)%Z in
      ret (age <? 30000)%Z
  end.

(** The body of the loop of [generateTrajectoryPredictions]. *)
Definition generateFor (ac : Aircraft)
  (predictions : JsMap.t string TrajectoryPrediction)
  : M (JsMap.t string TrajectoryPrediction) :=
  s <- getService ;;
  let fresh :=
    prediction <- predictTrajectory ac ;;
    s' <- getService ;;
    setTrajectoryCache
      (JsMap.set string_dec (callsign ac) prediction (trajectoryCache s')) ;;;
    ret (JsMap.set string_dec (callsign ac) prediction predictions) in
  match JsMap.get string_dec (callsign ac) (trajectoryCache s) with
  | Some cached =>
      valid <- isTrajectoryValid cached ac ;;
      if valid
      then ret (JsMap.set string_dec (callsign ac) cached predictions)
      else fresh
  | None => fresh
  end.

Fixpoint generateLoop (aircraft : list Aircraft)
  (predictions : JsMap.t string TrajectoryPrediction)
  : M (JsMap.t string TrajectoryPrediction) :=
  match aircraft with
  | [] => ret predictions
  | ac :: rest =>
      predictions' <- generateFor ac predictions ;;
      generateLoop rest predictions'
  end.

Definition generateTrajectoryPredictions (aircraft : list Aircraft)
  : M (JsMap.t string TrajectoryPrediction) :=
  generateLoop aircraft [].

(** *** Pairwise detection *)

(** The variables of the scan of [detectPairwiseConflict]; an absent
    [minSeparation] is the initial [Infinity]. *)
Record Closest : Type := {
  minSeparation : option R;
  conflictTime : option Z;
  conflictPosition1 : option Position3D;
  conflictPosition2 : option Position3D
}.

Definition noClosest : Closest :=
  {| minSeparation := None; conflictTime := None;
     conflictPosition1 := None; conflictPosition2 := None |}.

(** One iteration of the scan at index [i]. *)
Definition scanSample (timeStamps1 : list Z) (i : nat)
  (pos1 pos2 : Position3D) (best : Closest) : Closest :=
  let totalSep := totalSeparation pos1 pos2 in
  let closer :=
    match minSeparation best with
    | None => true
    | Some m => Rltb totalSep m
    end in
  if closer
  then {| minSeparation := Some totalSep;
          conflictTime := nth_error timeStamps1 i;
          conflictPosition1 := Some pos1;
          conflictPosition2 := Some pos2 |}
  else best.

(** The scan over the indices below the shorter of the two lengths,
    from index [i] on. *)
Fixpoint scanFrom (timeStamps1 : list Z) (i : nat)
  (positions1 positions2 : list Position3D) (best : Closest) : Closest :=
  match positions1, positions2 with
  | pos1 :: rest1, pos2 :: rest2 =>
      scanFrom timeStamps1 (S i) rest1 rest2
               (scanSample timeStamps1 i pos1 pos2 best)
  | _, _ => best
  end.

Definition closestApproach (trajectory1 trajectory2 : TrajectoryPrediction)
  : Closest :=
  scanFrom (timeStamps trajectory1) 0
           (predictedPositions trajectory1) (predictedPositions trajectory2)
           noClosest.

Definition detectPairwiseConflict (aircraft1 aircraft2 : Aircraft)
  (trajectory1 trajectory2 : option TrajectoryPrediction)
  : M (option Conflict) :=
  match trajectory1, trajectory2 with
  | Some trajectory1, Some trajectory2 =>
      let best := closestApproach trajectory1 trajectory2 in
      s <- getService ;;
      match minSeparation best, conflictTime best,
            conflictPosition1 best, conflictPosition2 best with
      | Some minSep, Some cTime, Some cPos1, Some cPos2 =>
          if Rltb minSep (horizontalSeparation (separationStandards s)) then
            now <- dateNow ;;
            let timeToConflict := IZR (cTime - now) / 1000 in
            if Rgtb timeToConflict 0 &&
               Rleb timeToConflict (timeHorizon (separationStandards s))
            then
              let conflictType :=
                determineConflictType aircraft1 aircraft2 cPos1 cPos2 in
              let severity := calculateSeverity minSep timeToConflict in
              idTime <- dateNow ;;
              suffix <- randomSuffix ;;
              detectedAt <- dateNow ;;
              ret (Some
                {| id := "conflict_" ++ decimal idTime ++ "_" ++ suffix;
                   aircraftInvolved := [aircraft1; aircraft2];
                   conflictType := conflictType;
                   timeToConflict := timeToConflict;
                   severity := severity;
                   resolutionOptions := [];
                   conflict_status := DETECTED;
                   detectedAt := detectedAt |})
            else ret None
          else ret None
      | _, _, _, _ => ret None
      end
  | _, _ => ret None
  end.

(** The inner loop [for (j = i + 1; ...)] for a fixed first aircraft. *)
Fixpoint detectAgainst (trajectories : JsMap.t string TrajectoryPrediction)
  (aircraft1 : Aircraft) (others : list Aircraft)
  (detectedConflicts : list Conflict) : M (list Conflict) :=
  match others with
  | [] => ret detectedConflicts
  | aircraft2 :: others' =>
      conflict <- detectPairwiseConflict aircraft1 aircraft2
                    (JsMap.get string_dec (callsign aircraft1) trajectories)
                    (JsMap.get string_dec (callsign aircraft2) trajectories) ;;
      detectAgainst trajectories aircraft1 others'
        (match conflict with
         | Some c => detectedConflicts ++ [c]
         | None => detectedConflicts
         end)
  end.

(** The outer loop [for (i = 0; ...)]. *)
Fixpoint detectPairs (trajectories : JsMap.t string TrajectoryPrediction)
  (activeAircraft : list Aircraft) (detectedConflicts : list Conflict)
  : M (list Conflict) :=
  match activeAircraft with
  | [] => ret detectedConflicts
  | aircraft1 :: rest =>
      detected' <- detectAgainst trajectories aircraft1 rest detectedConflicts ;;
      detectPairs trajectories rest detected'
  end.

(** *** Lifecycle *)

Definition withStatus (c : Conflict) (st : ConflictStatus) : Conflict :=
  {| id := id c; aircraftInvolved := aircraftInvolved c;
     conflictType := conflictType c; timeToConflict := timeToConflict c;
     severity := severity c; resolutionOptions := resolutionOptions c;
     conflict_status := st; detectedAt := detectedAt c |}.

Definition moveConflictToHistory (conflictId : string) : M unit :=
  s <- getService ;;
  match JsMap.get string_dec conflictId (activeConflicts s) with
  | Some conflict =>
      setConflictHistory (conflictHistory s ++ [conflict]) ;;;
      setActiveConflicts (JsMap.delete string_dec conflictId (activeConflicts s)) ;;;
      now <- dateNow ;;
      let cutoffTime := (now - 24 * 60 * 60 * 1000)%Z in
      s' <- getService ;;
      setConflictHistory
        (filter (fun c => (detectedAt c >=? cutoffTime)%Z) (conflictHistory s'))
  | None => ret tt
  end.

(** The first loop of [updateActiveConflicts], over the entries that the
    map held when the loop began. *)
Fixpoint resolveMissing (currentConflictIds : list string)
  (entries : list (string * Conflict)) : M unit :=
  match entries with
  | [] => ret tt
  | (cid, conflict) :: entries' =>
      (if existsb (String.eqb cid) currentConflictIds
       then ret tt
       else
         s <- getService ;;
         setActiveConflicts
           (JsMap.set string_dec cid (withStatus conflict RESOLVED)
                      (activeConflicts s)) ;;;
         moveConflictToHistory cid) ;;;
      resolveMissing currentConflictIds entries'
  end.

Fixpoint storeConflicts (newConflicts : list Conflict) : M unit :=
  match newConflicts with
  | [] => ret tt
  | conflict :: rest =>
      s <- getService ;;
      setActiveConflicts
        (JsMap.set string_dec (id conflict) conflict (activeConflicts s)) ;;;
      storeConflicts rest
  end.

Definition updateActiveConflicts (newConflicts : list Conflict) : M unit :=
  let currentConflictIds := map id newConflicts in
  s <- getService ;;
  resolveMissing currentConflictIds (activeConflicts s) ;;;
  storeConflicts newConflicts.

(** *** The detection cycle *)

Definition detectConflicts (aircraft : list Aircraft) : M (list Conflict) :=
  startTime <- dateNow ;;
  activeAircraft <- filterActiveAircraft aircraft ;;
  if (List.length activeAircraft <? 2)%nat then ret []
  else
    trajectories <- generateTrajectoryPredictions activeAircraft ;;
    detectedConflicts <- detectPairs trajectories activeAircraft [] ;;
    updateActiveConflicts detectedConflicts ;;;
    endTime <- dateNow ;;
    s <- getService ;;
    ret (JsMap.values (activeConflicts s)).

End WithOracle.

End Conflict.

(** * Properties *)

(** ** Properties of the decoder *)

Module AsterixProps.
Import Asterix.

Local Open Scope Z_scope.

Lemma decodeFields_app (category : AsterixCategory) (data : Buffer)
  (st : DecodeState) (pre post : list Z) :
  decodeFields category data st (pre ++ post) =
  decodeFields category data (decodeFields category data st pre) post.
Proof. unfold decodeFields. apply fold_left_app. Qed.

Lemma decodeFields_cons (category : AsterixCategory) (data : Buffer)
  (st : DecodeState) (fieldId : Z) (post : list Z) :
  decodeFields category data st (fieldId :: post) =
  decodeFields category data (decodeField category data st fieldId) post.
Proof. reflexivity. Qed.

(** Once the field specification is read, nothing makes [decodeMessage]
    throw. *)
Lemma decodeMessage_returns (SP RE category : Z)
  (categoryDef : AsterixCategory) (data : Buffer) (log : list LogEntry)
  (presentFields : list Z) (fspecLength : Z) :
  JsMap.get Z.eq_dec category categories = Some categoryDef ->
  readFSPEC SP RE data 0 = Ok (presentFields, fspecLength) ->
  let final := decodeFields categoryDef data
                 {| offset := fspecLength; fields := []; logger := log |}
                 presentFields in
  decodeMessage SP RE category data log =
  (Ok {| rec_category := cat_number categoryDef; rec_fields := fields final |},
   logger final).
Proof.
  intros Hcat Hfspec final.
  unfold decodeMessage, decodeDataRecord.
  rewrite Hcat, Hfspec. reflexivity.
Qed.

(** The iteration for a catalogue field whose length runs past the end of
    the buffer. *)
Lemma decodeField_insufficient (categoryDef : AsterixCategory)
  (data : Buffer) (st : DecodeState) (fieldId : Z)
  (fieldDef : AsterixFieldDefinition) (fieldLength : Z) :
  JsMap.get Z.eq_dec fieldId (cat_fields categoryDef) = Some fieldDef ->
  getFieldLength fieldDef data (offset st) = Ok fieldLength ->
  offset st + fieldLength > buf_length data ->
  decodeField categoryDef data st fieldId =
  {| offset := offset st + 1; fields := fields st;
     logger := logger st ++
               [errorFieldDecoding (InsufficientData fieldId)
                  (cat_number categoryDef) fieldId] |}.
Proof.
  intros Hget Hlen Hover.
  unfold decodeField, tryDecodeField. rewrite Hget, Hlen. cbn [bindR].
  destruct (Z.gtb_spec (offset st + fieldLength) (buf_length data)) as [_ | Hle].
  - reflexivity.
  - lia.
Qed.

(** The iteration for a present field that the catalogue does not know. *)
Lemma decodeField_unknown (categoryDef : AsterixCategory)
  (data : Buffer) (st : DecodeState) (fieldId : Z) :
  JsMap.get Z.eq_dec fieldId (cat_fields categoryDef) = None ->
  decodeField categoryDef data st fieldId =
  {| offset := offset st; fields := fields st;
     logger := logger st ++
               [warnUnknownField (cat_number categoryDef) fieldId] |}.
Proof. intros Hget. unfold decodeField. rewrite Hget. reflexivity. Qed.

(** C2, as the code has it. A record whose field specification is
    complete is always decoded: [decodeMessage] returns a record and does
    not fail. A catalogue field whose declared length exceeds the bytes
    that remain at its offset is not sliced and not decoded; the error
    "insufficient data" is logged, the offset advances by one byte, and the
    loop goes on with the fields that follow. *)
Theorem truncated_field_is_skipped (SP RE category : Z)
  (categoryDef : AsterixCategory) (data : Buffer) (log : list LogEntry)
  (presentFields : list Z) (fspecLength : Z) :
  JsMap.get Z.eq_dec category categories = Some categoryDef ->
  readFSPEC SP RE data 0 = Ok (presentFields, fspecLength) ->
  let st0 := {| offset := fspecLength; fields := []; logger := log |} in
  let final := decodeFields categoryDef data st0 presentFields in
  decodeMessage SP RE category data log =
    (Ok {| rec_category := cat_number categoryDef;
           rec_fields := fields final |}, logger final)
  /\
  forall (pre post : list Z) (fieldId : Z)
         (fieldDef : AsterixFieldDefinition) (fieldLength : Z),
    presentFields = pre ++ fieldId :: post ->
    JsMap.get Z.eq_dec fieldId (cat_fields categoryDef) = Some fieldDef ->
    let st := decodeFields categoryDef data st0 pre in
    getFieldLength fieldDef data (offset st) = Ok fieldLength ->
    offset st + fieldLength > buf_length data ->
    final =
    decodeFields categoryDef data
      {| offset := offset st + 1; fields := fields st;
         logger := logger st ++
                   [errorFieldDecoding (InsufficientData fieldId)
                      (cat_number categoryDef) fieldId] |}
      post.
Proof.
  intros Hcat Hfspec st0 final. split.
  - exact (decodeMessage_returns SP RE category data log Hcat Hfspec).
  - intros pre post fieldId fieldDef fieldLength Hsplit Hget st Hlen Hover.
    unfold final. rewrite Hsplit, decodeFields_app, decodeFields_cons.
    fold st. f_equal.
    exact (decodeField_insufficient categoryDef data st fieldId Hget Hlen Hover).
Qed.

(** The record [40 01] of category 048 announces the data source
    identifier (two bytes) and carries one byte of it. *)
Lemma truncated_field_is_skipped_witness :
  fst (decodeMessage 0 0 48 [x40; x01] []) =
  Ok {| rec_category := 48; rec_fields := [] |}.
Proof.
  destruct (@truncated_field_is_skipped 0 0 48 cat048 [x40; x01] []
              [0x010] 1 eq_refl eq_refl) as [Hret _].
  rewrite Hret. reflexivity.
Defined.

(** C2 fails as stated: the same record has a present field whose
    declared length exceeds the bytes that remain, and decoding it
    returns a record instead of failing. *)
Lemma truncated_record_decodes :
  let data := [x40; x01] in
  (exists fieldDef,
     readFSPEC 0 0 data 0 = Ok ([0x010], 1) /\
     JsMap.get Z.eq_dec 0x010 (cat_fields cat048) = Some fieldDef /\
     getFieldLength fieldDef data 1 = Ok 2 /\
     1 + 2 > buf_length data) /\
  ~ (exists e log, decodeMessage 0 0 48 data [] = (Throw e, log)).
Proof.
  cbv zeta. split.
  - eexists. repeat split; try reflexivity.
  - intros [e [log H]]. vm_compute in H. discriminate H.
Qed.

(** C6, as the code has it. A present field identifier that has no entry
    in the catalogue of the category is logged as a warning and the read
    offset is left where it is; the loop then goes on with the present
    fields that follow, from that same offset. *)
Theorem unknown_field_keeps_offset (SP RE category : Z)
  (categoryDef : AsterixCategory) (data : Buffer) (log : list LogEntry)
  (presentFields : list Z) (fspecLength : Z) :
  JsMap.get Z.eq_dec category categories = Some categoryDef ->
  readFSPEC SP RE data 0 = Ok (presentFields, fspecLength) ->
  let st0 := {| offset := fspecLength; fields := []; logger := log |} in
  forall (pre post : list Z) (fieldId : Z),
    presentFields = pre ++ fieldId :: post ->
    JsMap.get Z.eq_dec fieldId (cat_fields categoryDef) = None ->
    let st := decodeFields categoryDef data st0 pre in
    let skipped :=
      {| offset := offset st; fields := fields st;
         logger := logger st ++
                   [warnUnknownField (cat_number categoryDef) fieldId] |} in
    decodeField categoryDef data st fieldId = skipped /\
    decodeMessage SP RE category data log =
      (Ok {| rec_category := cat_number categoryDef;
             rec_fields := fields (decodeFields categoryDef data skipped post) |},
       logger (decodeFields categoryDef data skipped post)).
Proof.
  intros Hcat Hfspec st0 pre post fieldId Hsplit Hget st skipped.
  pose proof (decodeField_unknown categoryDef data st fieldId Hget) as Hstep.
  split; [exact Hstep |].
  rewrite (decodeMessage_returns SP RE category data log Hcat Hfspec).
  rewrite Hsplit, decodeFields_app, decodeFields_cons.
  fold st0. fold st. rewrite Hstep. reflexivity.
Qed.

(** The record [03 00 AB CD EF] of category 048 announces field 130, which
    the catalogue does not have, and then the aircraft address. *)
Lemma unknown_field_keeps_offset_witness :
  fst (decodeMessage 0 0 48 [x03; x00; xab; xcd; xef] []) =
  Ok {| rec_category := 48;
        rec_fields := [("Aircraft Address"%string,
                        AircraftAddress 0xABCDEF "ABCDEF")] |}.
Proof.
  destruct (@unknown_field_keeps_offset 0 0 48 cat048
              [x03; x00; xab; xcd; xef] [] [0x130; 0x220] 2
              eq_refl eq_refl [] [0x220] 0x130 eq_refl eq_refl)
    as [_ Hret].
  rewrite Hret. reflexivity.
Defined.

(** C6 fails as stated: in that record the unknown field 130 is read at
    offset 2 and the offset after it is still 2; the address that follows
    is decoded from the bytes at offsets 2 to 4. *)
Lemma unknown_field_offset_unchanged :
  let data := [x03; x00; xab; xcd; xef] in
  let st := {| offset := 2; fields := []; logger := [] |} in
  readFSPEC 0 0 data 0 = Ok ([0x130; 0x220], 2) /\
  JsMap.get Z.eq_dec 0x130 (cat_fields cat048) = None /\
  offset (decodeField cat048 data st 0x130) <> offset st + 1 /\
  offset (decodeField cat048 data st 0x130) = offset st.
Proof.
  cbv zeta. repeat split; try reflexivity.
  vm_compute. discriminate.
Qed.

End AsterixProps.

(** ** Facts about [Math.atan2] *)

Module MathFacts.
Import Types.

Local Open Scope R_scope.

Lemma norm_pos (a b : R) : a <> 0 \/ b <> 0 -> 0 < sqrt (a * a + b * b).
Proof.
  intros H. apply sqrt_lt_R0.
  destruct H as [H | H].
  - assert (0 < a * a) by nra. nra.
  - assert (0 < b * b) by nra. nra.
Qed.

Lemma sqrt_one_plus_sqr (a b : R) :
  b <> 0 -> sqrt (1 + (a / b)²) = sqrt (a * a + b * b) / Rabs b.
Proof.
  intros Hb.
  assert (Habs : 0 < Rabs b) by (apply Rabs_pos_lt; exact Hb).
  replace (1 + (a / b)²) with ((a * a + b * b) / (Rabs b * Rabs b)).
  - rewrite sqrt_div_alt by nra.
    rewrite sqrt_square by lra. reflexivity.
  - unfold Rsqr.
    replace (Rabs b * Rabs b) with (b * b).
    + field. exact Hb.
    + unfold Rabs. destruct (Rcase_abs b); ring.
Qed.

Lemma atan2_bounds (a b : R) : - PI < Math_atan2 a b <= PI.
Proof.
  pose proof PI_RGT_0 as Hpi.
  pose proof (atan_bound (a / b)) as Hat.
  unfold Math_atan2.
  destruct (Rlt_dec 0 b) as [Hb | Hb]; [lra |].
  destruct (Rlt_dec b 0) as [Hb' | Hb'].
  - destruct (Rle_dec 0 a) as [Ha | Ha].
    + assert (a / b <= 0).
      { unfold Rdiv. assert (/ b < 0) by (apply Rinv_lt_0_compat; lra). nra. }
      assert (atan (a / b) <= 0).
      { destruct (Req_dec (a / b) 0) as [E | E].
        - rewrite E, atan_0. lra.
        - assert (atan (a / b) < atan 0) by (apply atan_increasing; lra).
          rewrite atan_0 in *. lra. }
      lra.
    + assert (0 < a / b).
      { unfold Rdiv. assert (/ b < 0) by (apply Rinv_lt_0_compat; lra). nra. }
      assert (atan 0 < atan (a / b)) by (apply atan_increasing; lra).
      rewrite atan_0 in *. lra.
  - destruct (Rlt_dec 0 a); [lra |].
    destruct (Rlt_dec a 0); lra.
Qed.

Lemma atan2_sin_cos (a b : R) :
  a <> 0 \/ b <> 0 ->
  sin (Math_atan2 a b) = a / sqrt (a * a + b * b) /\
  cos (Math_atan2 a b) = b / sqrt (a * a + b * b).
Proof.
  intros Hnz.
  pose proof (norm_pos Hnz) as Hn.
  unfold Math_atan2.
  destruct (Rlt_dec 0 b) as [Hb | Hb].
  - rewrite sin_atan, cos_atan, sqrt_one_plus_sqr by lra.
    rewrite Rabs_pos_eq by lra. split; field; lra.
  - destruct (Rlt_dec b 0) as [Hb' | Hb'].
    + assert (Hs : sqrt (1 + (a / b)²) = sqrt (a * a + b * b) / - b).
      { rewrite sqrt_one_plus_sqr by lra.
        rewrite Rabs_left by lra. reflexivity. }
      destruct (Rle_dec 0 a) as [Ha | Ha].
      * rewrite neg_sin, neg_cos, sin_atan, cos_atan, Hs.
        split; field; lra.
      * replace (atan (a / b) - PI) with (- (PI - atan (a / b))) by ring.
        rewrite sin_neg, cos_neg.
        replace (PI - atan (a / b)) with (- atan (a / b) + PI) by ring.
        rewrite neg_sin, neg_cos, sin_neg, cos_neg, sin_atan, cos_atan, Hs.
        split; field; lra.
    + assert (b = 0) by lra. subst b.
      destruct Hnz as [Ha | Hb0]; [| lra].
      replace (a * a + 0 * 0) with (a * a) in * by ring.
      destruct (Rlt_dec 0 a) as [Hpos | Hpos].
      * rewrite sin_PI2, cos_PI2, sqrt_square by lra.
        split; field; lra.
      * destruct (Rlt_dec a 0) as [Hneg | Hneg]; [| lra].
        rewrite sin_neg, cos_neg, sin_PI2, cos_PI2.
        replace (a * a) with ((- a) * (- a)) by ring.
        rewrite sqrt_square by lra.
        split; field; lra.
Qed.

Lemma atan2_zero_zero : Math_atan2 0 0 = 0.
Proof.
  unfold Math_atan2.
  destruct (Rlt_dec 0 0); [lra |].
  destruct (Rlt_dec 0 0); [lra | reflexivity].
Qed.

Lemma atan2_east (a : R) : 0 < a -> Math_atan2 a 0 = PI / 2.
Proof.
  intros Ha. unfold Math_atan2.
  destruct (Rlt_dec 0 0); [lra |].
  destruct (Rlt_dec 0 a); [reflexivity | lra].
Qed.

Lemma atan2_west (a : R) : a < 0 -> Math_atan2 a 0 = - (PI / 2).
Proof.
  intros Ha. unfold Math_atan2.
  destruct (Rlt_dec 0 0); [lra |].
  destruct (Rlt_dec 0 a); [lra |].
  destruct (Rlt_dec a 0); [reflexivity | lra].
Qed.

End MathFacts.

(** ** Facts about maps *)

Module JsMapFacts.
Section WithKey.
Variable K V : Type.
Variable eq_dec : forall a b : K, {a = b} + {a <> b}.

Local Abbreviation get := (JsMap.get eq_dec).
Local Abbreviation set := (JsMap.set eq_dec).
Local Abbreviation delete := (JsMap.delete eq_dec).

Lemma get_In (k : K) (v : V) (m : JsMap.t K V) :
  get k m = Some v -> In (k, v) m.
Proof.
  induction m as [| [k' v'] m IH]; simpl; [discriminate |].
  destruct (eq_dec k k') as [-> | Hne].
  - intros [= ->]. now left.
  - intros H. right. now apply IH.
Qed.



Lemma get_set_same (k : K) (v : V) (m : JsMap.t K V) :
  get k (set k v m) = Some v.
Proof.
  induction m as [| [k' v'] m IH]; simpl.
  - destruct (eq_dec k k); [reflexivity | congruence].
  - destruct (eq_dec k k') as [-> | Hne]; simpl.
    + destruct (eq_dec k' k'); [reflexivity | congruence].
    + destruct (eq_dec k k'); [congruence | exact IH].
Qed.

Lemma get_set_other (k k' : K) (v : V) (m : JsMap.t K V) :
  k <> k' -> get k (set k' v m) = get k m.
Proof.
  intros Hne.
  induction m as [| [k0 v0] m IH]; simpl.
  - destruct (eq_dec k k'); [congruence | reflexivity].
  - destruct (eq_dec k' k0) as [-> | Hne']; simpl.
    + destruct (eq_dec k k0); [congruence | reflexivity].
    + destruct (eq_dec k k0); [reflexivity | exact IH].
Qed.

Lemma get_delete_same (k : K) (m : JsMap.t K V) :
  get k (delete k m) = None.
Proof.
  induction m as [| [k' v'] m IH]; simpl; [reflexivity |].
  destruct (eq_dec k k') as [-> | Hne]; simpl; [exact IH |].
  destruct (eq_dec k k'); [congruence | exact IH].
Qed.

Lemma get_delete_other (k k' : K) (m : JsMap.t K V) :
  k <> k' -> get k (delete k' m) = get k m.
Proof.
  intros Hne.
  induction m as [| [k0 v0] m IH]; simpl; [reflexivity |].
  destruct (eq_dec k' k0) as [-> | Hne']; simpl.
  - destruct (eq_dec k k0); [congruence | exact IH].
  - destruct (eq_dec k k0); [reflexivity | exact IH].
Qed.


Lemma In_delete (k k' : K) (v : V) (m : JsMap.t K V) :
  In (k, v) (delete k' m) -> k <> k' /\ In (k, v) m.
Proof.
  induction m as [| [k0 v0] m IH]; simpl; [tauto |].
  destruct (eq_dec k' k0) as [-> | Hne]; simpl.
  - intros H. destruct (IH H). tauto.
  - intros [[= -> ->] | H].
    + split; [congruence | now left].
    + destruct (IH H). tauto.
Qed.

Lemma In_set (k k' : K) (v v' : V) (m : JsMap.t K V) :
  JsMap.wf m -> In (k, v) (set k' v' m) ->
  (k = k' /\ v = v') \/ (k <> k' /\ In (k, v) m).
Proof.
  unfold JsMap.wf, JsMap.keys.
  induction m as [| [k0 v0] m IH]; simpl; intros Hwf Hin.
  - destruct Hin as [[= -> ->] | []]. now left.
  - inversion Hwf as [| ? ? Hnotin Hwf']; subst.
    destruct (eq_dec k' k0) as [-> | Hne]; simpl in Hin.
    + destruct Hin as [[= -> ->] | Hin]; [now left |].
      right. split; [| now right].
      intros ->. apply Hnotin. apply (in_map fst) in Hin. exact Hin.
    + destruct Hin as [[= -> ->] | Hin].
      * right. split; [congruence | now left].
      * destruct (IH Hwf' Hin) as [? | [? ?]]; [now left | right; tauto].
Qed.

Lemma keys_set (k k' : K) (v : V) (m : JsMap.t K V) :
  In k (JsMap.keys (set k' v m)) <-> k = k' \/ In k (JsMap.keys m).
Proof.
  unfold JsMap.keys.
  induction m as [| [k0 v0] m IH]; simpl.
  - intuition congruence.
  - destruct (eq_dec k' k0) as [-> | Hne]; simpl.
    + intuition congruence.
    + rewrite IH. intuition congruence.
Qed.

Lemma keys_delete (k k' : K) (m : JsMap.t K V) :
  In k (JsMap.keys (delete k' m)) -> In k (JsMap.keys m).
Proof.
  unfold JsMap.keys.
  induction m as [| [k0 v0] m IH]; simpl; [tauto |].
  destruct (eq_dec k' k0) as [-> | Hne]; simpl; intuition.
Qed.

Lemma wf_set (k : K) (v : V) (m : JsMap.t K V) :
  JsMap.wf m -> JsMap.wf (set k v m).
Proof.
  unfold JsMap.wf.
  induction m as [| [k0 v0] m IH]; simpl; intros Hwf.
  - constructor; [simpl; tauto | constructor].
  - inversion Hwf as [| ? ? Hnotin Hwf']; subst.
    destruct (eq_dec k k0) as [-> | Hne]; simpl.
    + constructor; assumption.
    + constructor; [| now apply IH].
      intros Hin. apply keys_set in Hin. destruct Hin; [congruence | tauto].
Qed.

Lemma wf_delete (k : K) (m : JsMap.t K V) :
  JsMap.wf m -> JsMap.wf (delete k m).
Proof.
  unfold JsMap.wf.
  induction m as [| [k0 v0] m IH]; simpl; intros Hwf; [constructor |].
  inversion Hwf as [| ? ? Hnotin Hwf']; subst.
  destruct (eq_dec k k0) as [-> | Hne]; simpl; [now apply IH |].
  constructor; [| now apply IH].
  intros Hin. apply Hnotin. exact (keys_delete _ _ _ Hin).
Qed.

Lemma In_values (v : V) (m : JsMap.t K V) :
  In v (JsMap.values m) -> exists k, In (k, v) m.
Proof.
  unfold JsMap.values. intros Hin.
  apply in_map_iff in Hin. destruct Hin as [[k v'] [E Hin]].
  simpl in E. subst v'. now exists k.
Qed.
End WithKey.
End JsMapFacts.

(** ** Properties of the track store *)

Module RadarProps.
Import Types Radar MathFacts.

Local Open Scope string_scope.
Local Open Scope list_scope.
Local Open Scope R_scope.

(** Every entry of the aircraft map is stored under the call sign of its
    aircraft, as [convertTracksToAircraft] stores it. *)
Definition keyed (m : JsMap.t string Aircraft) : Prop :=
  forall k ac, In (k, ac) m -> callsign ac = k.

Definition zeroVector : Vector3D := {| x := 0; y := 0; z := 0 |}.

Lemma calculateVelocity_no_elapsed (pos1 pos2 : Position3D) (time1 time2 : Z) :
  (time2 - time1 <= 0)%Z ->
  calculateVelocity pos1 pos2 time1 time2 = zeroVector.
Proof.
  intros Hle. unfold calculateVelocity.
  destruct (Rle_dec (IZR (time2 - time1) / 1000) 0) as [_ | Hn];
    [reflexivity |].
  exfalso. apply Hn.
  apply IZR_le in Hle. lra.
Qed.

Lemma calculateHeading_zero : calculateHeading zeroVector = 0.
Proof.
  unfold calculateHeading, zeroVector; simpl.
  rewrite atan2_zero_zero.
  replace (0 * 180 / PI) with 0 by (unfold Rdiv; ring).
  destruct (Rlt_dec 0 0); [lra | reflexivity].
Qed.

Lemma calculateGroundSpeed_zero : calculateGroundSpeed zeroVector = 0.
Proof.
  unfold calculateGroundSpeed, zeroVector; simpl.
  replace (0 * 0 + 0 * 0) with 0 by ring. apply sqrt_0.
Qed.

(** The track that an update with a position leaves in the table. *)
Lemma updateRadarTrack_position (clock : nat -> Z)
  (trackData : PartialRadarTrack) (st : State) (tn : Z)
  (existingTrack : RadarTrack) (newPosition : Position3D) :
  td_trackNumber trackData = Some tn ->
  tn <> 0%Z ->
  JsMap.get Z.eq_dec tn (radarTracks st) = Some existingTrack ->
  td_position trackData = Some newPosition ->
  exists updated,
    JsMap.get Z.eq_dec tn (radarTracks (updateRadarTrack clock trackData st))
      = Some updated /\
    rt_velocity updated =
      calculateVelocity (position existingTrack) newPosition
        (rt_lastUpdate existingTrack) (clock 2%nat) /\
    rt_heading updated = calculateHeading (rt_velocity updated) /\
    groundSpeed updated = Some (calculateGroundSpeed (rt_velocity updated)).
Proof.
  intros Htn Hnz Hget Hpos.
  unfold updateRadarTrack. rewrite Htn.
  destruct (Z.eqb_spec tn 0) as [E | _]; [contradiction |].
  rewrite Hget, Hpos. cbn [radarTracks].
  eexists. split; [apply JsMapFacts.get_set_same |].
  cbn. repeat split.
Qed.

(** C5, as the code has it. When an update carries a position for a track
    of the table and the clock reading of the update is not later than the
    track's last update, the velocity of the track becomes the zero vector,
    and with it the heading and the ground speed become 0. *)
Theorem non_positive_elapsed_resets_velocity (clock : nat -> Z)
  (trackData : PartialRadarTrack) (st : State) (tn : Z)
  (existingTrack : RadarTrack) (newPosition : Position3D) :
  td_trackNumber trackData = Some tn ->
  tn <> 0%Z ->
  JsMap.get Z.eq_dec tn (radarTracks st) = Some existingTrack ->
  td_position trackData = Some newPosition ->
  (clock 2%nat - rt_lastUpdate existingTrack <= 0)%Z ->
  exists updated,
    JsMap.get Z.eq_dec tn (radarTracks (updateRadarTrack clock trackData st))
      = Some updated /\
    rt_velocity updated = {| x := 0; y := 0; z := 0 |} /\
    rt_heading updated = 0 /\
    groundSpeed updated = Some 0.
Proof.
  intros Htn Hnz Hget Hpos Hle.
  destruct (updateRadarTrack_position clock trackData st Htn Hnz Hget Hpos)
    as [updated [Hup [Hv [Hh Hg]]]].
  exists updated. split; [exact Hup |].
  rewrite (calculateVelocity_no_elapsed _ _ _ _ Hle) in Hv.
  rewrite Hh, Hg, Hv.
  rewrite calculateHeading_zero, calculateGroundSpeed_zero.
  repeat split.
Qed.

(** A track that flies east at 100 m/s, seen at 1000 ms, and an update
    with a new position whose clock readings are 1000 ms as well. *)
Definition quality0 : TrackQuality :=
  {| confidence := 8 / 10; positionAccuracy := 100; velocityAccuracy := 5;
     ageSeconds := 0; sourceReliability := 9 / 10 |}.

Definition eastboundTrack : RadarTrack :=
  {| trackNumber := 7; rt_callsign := Some "AAL1";
     position := {| latitude := 40; longitude := -74; altitude := 5000;
                    timestamp := 1000 |};
     rt_velocity := {| x := 100; y := 0; z := 0 |};
     rt_heading := 90; rt_squawkCode := Some "1200"; mode3A := None;
     flightLevel := None; groundSpeed := Some 100;
     rt_lastUpdate := 1000; trackQuality := quality0 |}.

Definition duplicateUpdate : PartialRadarTrack :=
  {| td_trackNumber := Some 7%Z; td_callsign := None;
     td_position := Some {| latitude := 40; longitude := -73;
                            altitude := 5000; timestamp := 1000 |};
     td_velocity := None; td_heading := None; td_squawkCode := None;
     td_mode3A := None; td_flightLevel := None; td_groundSpeed := None;
     td_lastUpdate := None; td_trackQuality := None |}.

Definition oneTrack : State :=
  {| isProcessing := true; radarTracks := [(7%Z, eastboundTrack)];
     aircraftMap := [] |}.

Lemma non_positive_elapsed_resets_velocity_witness :
  exists updated,
    JsMap.get Z.eq_dec 7%Z
      (radarTracks (updateRadarTrack (fun _ => 1000%Z) duplicateUpdate oneTrack))
      = Some updated /\
    rt_velocity updated = {| x := 0; y := 0; z := 0 |} /\
    rt_heading updated = 0 /\
    groundSpeed updated = Some 0.
Proof.
  apply (@non_positive_elapsed_resets_velocity (fun _ => 1000%Z)
           duplicateUpdate oneTrack 7%Z eastboundTrack
           {| latitude := 40; longitude := -73; altitude := 5000;
              timestamp := 1000 |}).
  - reflexivity.
  - discriminate.
  - reflexivity.
  - reflexivity.
  - simpl. lia.
Defined.

(** C5 fails as stated: the update arrives with no elapsed time, and the
    velocity of the track is not the one it had before. *)
Lemma duplicate_update_changes_velocity :
  (1000 - rt_lastUpdate eastboundTrack <= 0)%Z /\
  forall updated,
    JsMap.get Z.eq_dec 7%Z
      (radarTracks (updateRadarTrack (fun _ => 1000%Z) duplicateUpdate oneTrack))
      = Some updated ->
    rt_velocity updated <> rt_velocity eastboundTrack.
Proof.
  split; [simpl; lia |].
  intros updated Hget.
  destruct (@updateRadarTrack_position (fun _ => 1000%Z) duplicateUpdate
              oneTrack 7%Z eastboundTrack
              {| latitude := 40; longitude := -73; altitude := 5000;
                 timestamp := 1000 |} eq_refl)
    as [updated' [Hget' [Hv _]]]; try reflexivity; try discriminate.
  rewrite Hget in Hget'. injection Hget' as <-.
  rewrite calculateVelocity_no_elapsed in Hv by (simpl; lia).
  rewrite Hv. unfold zeroVector, eastboundTrack; simpl.
  intros E. injection E as E. lra.
Qed.

(** *** Heading *)

Lemma heading_range (velocity : Vector3D) :
  0 <= calculateHeading velocity < 360.
Proof.
  pose proof PI_RGT_0 as Hpi.
  pose proof (atan2_bounds (x velocity) (y velocity)) as [Hlo Hhi].
  unfold calculateHeading.
  set (theta := Math_atan2 (x velocity) (y velocity)) in *.
  assert (Hdeg : theta * 180 / PI = theta / PI * 180) by (field; lra).
  assert (Hlo' : -1 < theta / PI).
  { apply Rmult_lt_reg_r with PI; [lra |].
    unfold Rdiv. rewrite Rmult_assoc, Rinv_l by lra. lra. }
  assert (Hhi' : theta / PI <= 1).
  { apply Rmult_le_reg_r with PI; [lra |].
    unfold Rdiv. rewrite Rmult_assoc, Rinv_l by lra. lra. }
  rewrite Hdeg.
  destruct (Rlt_dec (theta / PI * 180) 0); lra.
Qed.

Lemma heading_radians (velocity : Vector3D) :
  calculateHeading velocity * PI / 180 = Math_atan2 (x velocity) (y velocity)
  \/ calculateHeading velocity * PI / 180 =
     Math_atan2 (x velocity) (y velocity) + 2 * INR 1 * PI.
Proof.
  pose proof PI_RGT_0 as Hpi.
  unfold calculateHeading.
  set (theta := Math_atan2 (x velocity) (y velocity)).
  destruct (Rlt_dec (theta * 180 / PI) 0).
  - right. simpl. field. lra.
  - left. field. lra.
Qed.

Lemma heading_sin_cos (velocity : Vector3D) :
  x velocity <> 0 \/ y velocity <> 0 ->
  let speed := calculateGroundSpeed velocity in
  x velocity = speed * sin (calculateHeading velocity * PI / 180) /\
  y velocity = speed * cos (calculateHeading velocity * PI / 180).
Proof.
  intros Hnz speed.
  destruct (atan2_sin_cos Hnz) as [Hs Hc].
  pose proof (norm_pos Hnz) as Hn.
  assert (Hsin : sin (calculateHeading velocity * PI / 180) =
                 sin (Math_atan2 (x velocity) (y velocity))).
  { destruct (heading_radians velocity) as [-> | ->];
      [reflexivity | apply sin_period]. }
  assert (Hcos : cos (calculateHeading velocity * PI / 180) =
                 cos (Math_atan2 (x velocity) (y velocity))).
  { destruct (heading_radians velocity) as [-> | ->];
      [reflexivity | apply cos_period]. }
  rewrite Hsin, Hcos, Hs, Hc.
  unfold speed, calculateGroundSpeed.
  split; field; lra.
Qed.

Lemma cos_latitude_pos (lat : R) :
  -90 < lat < 90 -> 0 < cos (lat * PI / 180).
Proof.
  intros [Hlo Hhi]. pose proof PI_RGT_0 as Hpi.
  apply cos_gt_0.
  - assert (lat * PI / 180 = lat / 90 * (PI / 2)) as -> by field.
    assert (-1 < lat / 90) by lra. nra.
  - assert (lat * PI / 180 = lat / 90 * (PI / 2)) as -> by field.
    assert (lat / 90 < 1) by lra. nra.
Qed.

Lemma heading_due_east (pos1 pos2 : Position3D) (time1 time2 : Z) :
  (time1 < time2)%Z ->
  latitude pos2 = latitude pos1 ->
  longitude pos1 < longitude pos2 ->
  -90 < latitude pos1 < 90 ->
  calculateHeading (calculateVelocity pos1 pos2 time1 time2) = 90.
Proof.
  intros Ht Hlat Hlon Hrange.
  pose proof PI_RGT_0 as Hpi.
  pose proof (cos_latitude_pos Hrange) as Hcos.
  assert (Hdt : 0 < IZR (time2 - time1) / 1000).
  { assert (0 < IZR (time2 - time1)) by (apply IZR_lt; lia). lra. }
  unfold calculateVelocity.
  destruct (Rle_dec (IZR (time2 - time1) / 1000) 0) as [Hle | _]; [lra |].
  unfold calculateHeading; cbn [x y].
  rewrite Hlat.
  replace ((latitude pos1 - latitude pos1) * 111320 /
           (IZR (time2 - time1) / 1000)) with 0 by (field; lra).
  rewrite atan2_east.
  - replace (PI / 2 * 180 / PI) with 90 by (field; lra).
    destruct (Rlt_dec 90 0); [lra | reflexivity].
  - apply Rdiv_lt_0_compat; [| exact Hdt].
    assert (0 < (longitude pos2 - longitude pos1) * 111320) by lra.
    nra.
Qed.

Lemma heading_longitude_decreases (pos1 pos2 : Position3D) (time1 time2 : Z) :
  (time1 < time2)%Z ->
  latitude pos2 = latitude pos1 ->
  longitude pos2 < longitude pos1 ->
  -90 < latitude pos1 < 90 ->
  calculateHeading (calculateVelocity pos1 pos2 time1 time2) = 270.
Proof.
  intros Ht Hlat Hlon Hrange.
  pose proof PI_RGT_0 as Hpi.
  pose proof (cos_latitude_pos Hrange) as Hcos.
  assert (Hdt : 0 < IZR (time2 - time1) / 1000).
  { assert (0 < IZR (time2 - time1)) by (apply IZR_lt; lia). lra. }
  unfold calculateVelocity.
  destruct (Rle_dec (IZR (time2 - time1) / 1000) 0) as [Hle | _]; [lra |].
  unfold calculateHeading; cbn [x y].
  rewrite Hlat.
  replace ((latitude pos1 - latitude pos1) * 111320 /
           (IZR (time2 - time1) / 1000)) with 0 by (field; lra).
  rewrite atan2_west.
  - replace (- (PI / 2) * 180 / PI) with (-90) by (field; lra).
    destruct (Rlt_dec (-90) 0); lra.
  - assert (Hneg : (longitude pos2 - longitude pos1) * 111320
                   * cos (latitude pos1 * PI / 180) < 0) by nra.
    assert (Hinv : 0 < / (IZR (time2 - time1) / 1000))
      by (apply Rinv_0_lt_compat; exact Hdt).
    unfold Rdiv at 1. nra.
Qed.

(** C8, as the code has it. The heading that [updateRadarTrack] derives
    for a track is [calculateHeading] of the track's velocity, and the
    velocity is [calculateVelocity] of the two positions: the difference of
    the two longitudes as numbers, scaled, with no wrap at the 180th
    meridian. For a velocity whose horizontal part is not zero the heading
    lies between 0 and 360 degrees and is the compass bearing of the
    velocity: the east component is speed times the sine of the heading
    and the north component is speed times its cosine. For two positions
    of the same latitude, strictly between the poles, the second observed
    later: the heading is 90 degrees when the longitude of the second is
    the greater number, and 270 degrees when it is the smaller number,
    which is the case of a second position due east of the first across
    the 180th meridian. Numbers are exact reals; the upper bound is
    inclusive because the roundings of the additions and divisions in
    double precision are outside this number model. *)
Theorem heading_is_compass_bearing :
  (forall velocity : Vector3D,
     x velocity <> 0 \/ y velocity <> 0 ->
     0 <= calculateHeading velocity <= 360 /\
     x velocity = calculateGroundSpeed velocity *
                  sin (calculateHeading velocity * PI / 180) /\
     y velocity = calculateGroundSpeed velocity *
                  cos (calculateHeading velocity * PI / 180))
  /\
  (forall (pos1 pos2 : Position3D) (time1 time2 : Z),
     (time1 < time2)%Z ->
     latitude pos2 = latitude pos1 ->
     -90 < latitude pos1 < 90 ->
     (longitude pos1 < longitude pos2 ->
      calculateHeading (calculateVelocity pos1 pos2 time1 time2) = 90) /\
     (longitude pos2 < longitude pos1 ->
      calculateHeading (calculateVelocity pos1 pos2 time1 time2) = 270))
  /\
  (forall (clock : nat -> Z) (trackData : PartialRadarTrack) (st : State)
          (tn : Z) (existingTrack : RadarTrack) (newPosition : Position3D),
     td_trackNumber trackData = Some tn ->
     tn <> 0%Z ->
     JsMap.get Z.eq_dec tn (radarTracks st) = Some existingTrack ->
     td_position trackData = Some newPosition ->
     exists updated,
       JsMap.get Z.eq_dec tn
         (radarTracks (updateRadarTrack clock trackData st)) = Some updated /\
       rt_velocity updated =
         calculateVelocity (position existingTrack) newPosition
           (rt_lastUpdate existingTrack) (clock 2%nat) /\
       rt_heading updated = calculateHeading (rt_velocity updated)).
Proof.
  split; [| split].
  - intros velocity Hnz. split.
    + pose proof (heading_range velocity). lra.
    + exact (heading_sin_cos velocity Hnz).
  - intros pos1 pos2 time1 time2 Ht Hlat Hrange. split; intros Hlon.
    + now apply heading_due_east.
    + now apply heading_longitude_decreases.
  - intros clock trackData st tn existingTrack newPosition Htn Hnz Hget Hpos.
    destruct (updateRadarTrack_position clock trackData st Htn Hnz Hget Hpos)
      as [updated [Hup [Hv [Hh _]]]].
    exists updated. repeat split; assumption.
Qed.

(** The track [eastboundTrack] is seen one degree further east two seconds
    later. *)
Lemma heading_is_compass_bearing_witness :
  exists updated,
    JsMap.get Z.eq_dec 7%Z
      (radarTracks (updateRadarTrack (fun _ => 3000%Z) duplicateUpdate oneTrack))
      = Some updated /\
    rt_heading updated = 90.
Proof.
  destruct heading_is_compass_bearing as [_ [Heast Htrack]].
  destruct (Htrack (fun _ => 3000%Z) duplicateUpdate oneTrack 7%Z eastboundTrack
              {| latitude := 40; longitude := -73; altitude := 5000;
                 timestamp := 1000 |} eq_refl)
    as [updated [Hget [Hv Hh]]]; try reflexivity; try discriminate.
  exists updated. split; [exact Hget |].
  rewrite Hh, Hv. apply Heast; simpl; try lia; lra.
Defined.

(** A track half a degree west of the 180th meridian, on the equator, and
    the report that finds it, two seconds later, one degree further east:
    half a degree beyond the meridian, at longitude -179.5. *)
Definition datelineTrack : RadarTrack :=
  {| trackNumber := 7; rt_callsign := Some "AAL1";
     position := {| latitude := 0; longitude := 359 / 2; altitude := 5000;
                    timestamp := 1000 |};
     rt_velocity := {| x := 100; y := 0; z := 0 |};
     rt_heading := 90; rt_squawkCode := Some "1200"; mode3A := None;
     flightLevel := None; groundSpeed := Some 100;
     rt_lastUpdate := 1000; trackQuality := quality0 |}.

Definition datelinePosition : Position3D :=
  {| latitude := 0; longitude := - (359 / 2); altitude := 5000;
     timestamp := 3000 |}.

Definition datelineUpdate : PartialRadarTrack :=
  {| td_trackNumber := Some 7%Z; td_callsign := None;
     td_position := Some datelinePosition;
     td_velocity := None; td_heading := None; td_squawkCode := None;
     td_mode3A := None; td_flightLevel := None; td_groundSpeed := None;
     td_lastUpdate := None; td_trackQuality := None |}.

Definition datelineStore : State :=
  {| isProcessing := true; radarTracks := [(7%Z, datelineTrack)];
     aircraftMap := [] |}.

(** C8 fails as stated across the 180th meridian: the second position is
    at the same latitude, one degree east of the first (its longitude is
    that of the first plus 1, less the full turn), and is observed two
    seconds later; the heading derived for the track is 270 degrees, not
    90. *)
Lemma due_east_across_dateline_heads_west :
  latitude datelinePosition = latitude (position datelineTrack) /\
  longitude datelinePosition = longitude (position datelineTrack) + 1 - 360 /\
  (rt_lastUpdate datelineTrack < 3000)%Z /\
  exists updated,
    JsMap.get Z.eq_dec 7%Z
      (radarTracks (updateRadarTrack (fun _ => 3000%Z) datelineUpdate
                      datelineStore))
      = Some updated /\
    rt_velocity updated <> {| x := 0; y := 0; z := 0 |} /\
    rt_heading updated = 270 /\
    rt_heading updated <> 90.
Proof.
  split; [reflexivity |].
  split; [simpl; lra |].
  split; [simpl; lia |].
  destruct (@updateRadarTrack_position (fun _ => 3000%Z) datelineUpdate
              datelineStore 7%Z datelineTrack datelinePosition)
    as [updated [Hget [Hv [Hh _]]]];
    try reflexivity; try discriminate.
  assert (H270 : rt_heading updated = 270).
  { rewrite Hh, Hv.
    apply heading_longitude_decreases; simpl; try lia; lra. }
  exists updated. split; [exact Hget |].
  split; [| split; [exact H270 | rewrite H270; lra]].
  intros Hzero. rewrite Hh, Hzero in H270.
  unfold calculateHeading in H270. cbn [x y] in H270.
  rewrite atan2_zero_zero in H270.
  replace (0 * 180 / PI) with 0 in H270
    by (pose proof PI_RGT_0; field; lra).
  destruct (Rlt_dec 0 0); lra.
Qed.

(** *** Staleness *)

Lemma maintainTrack_isProcessing (now : Z) (entries : list (Z * RadarTrack))
  (st : State) :
  isProcessing (fold_left (maintainTrack now) entries st) = isProcessing st.
Proof.
  revert st. induction entries as [| [tn track] entries IH]; intros st;
    [reflexivity |].
  simpl. rewrite IH. destruct (_ >? _)%Z; reflexivity.
Qed.

























End RadarProps.

(** ** Properties of the resolution-suggestion collaborator *)

Module OpenAIProps.
Import Types OpenAI.

Local Open Scope string_scope.
Local Open Scope list_scope.

Section WithParser.

Variable JSON_parse : string -> option ParsedArguments.
Variable maxRetries : nat.

(** A failed request is a failed [try] block. *)
Lemma requestResolutions_request_failed (operation : nat -> Attempt)
  (log log1 : list LogEntry) (e : Error) :
  executeWithRetry maxRetries operation log = (Throw e, log1) ->
  requestResolutions JSON_parse maxRetries operation log = (Throw e, log1).
Proof. intros H. unfold requestResolutions. rewrite H. reflexivity. Qed.

Lemma generateConflictResolutions_catches (operation : nat -> Attempt)
  (log log1 : list LogEntry) (e : Error) :
  requestResolutions JSON_parse maxRetries operation log = (Throw e, log1) ->
  generateConflictResolutions JSON_parse maxRetries operation log =
  (Ok [fallbackResolution],
   log1 ++ [LogError "Conflict resolution generation failed" e]).
Proof.
  intros H. unfold generateConflictResolutions. rewrite H. reflexivity.
Qed.

(** [generateConflictResolutions] never throws. *)
Lemma generateConflictResolutions_returns (operation : nat -> Attempt)
  (log : list LogEntry) :
  exists resolutions log',
    generateConflictResolutions JSON_parse maxRetries operation log =
    (Ok resolutions, log').
Proof.
  unfold generateConflictResolutions.
  destruct (requestResolutions JSON_parse maxRetries operation log)
    as [[resolutions | e] log1]; eauto.
Qed.

End WithParser.

(** C9. When the request to the collaborator fails for good (the error is
    not retryable, or every retry failed, a time-out included), or when
    its response cannot be used, [generateConflictResolutions] returns,
    without throwing, the list that holds the fallback option alone; the
    fallback tells the controller to contact the supervisor for a manual
    resolution; the error is logged. *)
Theorem collaborator_failure_gives_fallback
  (JSON_parse : string -> option ParsedArguments) (maxRetries : nat)
  (operation : nat -> Attempt) (log log1 : list LogEntry) (e : Error) :
  executeWithRetry maxRetries operation log = (Throw e, log1) \/
  requestResolutions JSON_parse maxRetries operation log = (Throw e, log1) ->
  generateConflictResolutions JSON_parse maxRetries operation log =
    (Ok [fallbackResolution],
     log1 ++ [LogError "Conflict resolution generation failed" e]) /\
  List.length [fallbackResolution] = 1%nat /\
  description fallbackResolution = "Manual resolution required" /\
  instructions fallbackResolution =
    ["Contact supervisor for manual conflict resolution"].
Proof.
  intros Hfail. split; [| repeat split].
  apply generateConflictResolutions_catches.
  destruct Hfail as [Hreq | Htry]; [| exact Htry].
  now apply requestResolutions_request_failed.
Qed.

(** Every attempt of the request times out. *)
Definition alwaysTimesOut (attempt : nat) : Attempt :=
  Rejected {| err_message := "connect ETIMEDOUT";
              err_type := None; err_status := None |}.

Lemma collaborator_failure_gives_fallback_witness :
  fst (generateConflictResolutions (fun _ => None) 3 alwaysTimesOut []) =
  Ok [fallbackResolution].
Proof.
  destruct (@collaborator_failure_gives_fallback (fun _ => None) 3
              alwaysTimesOut []
              (snd (executeWithRetry 3 alwaysTimesOut []))
              (RequestFailed {| err_message := "connect ETIMEDOUT";
                                err_type := None; err_status := None |}))
    as [Hres _].
  - left. reflexivity.
  - rewrite Hres. reflexivity.
Defined.

End OpenAIProps.

(** ** Properties of the conflict detector *)

Module ConflictProps.
Import Types Conflict MathFacts.

Local Open Scope string_scope.
Local Open Scope list_scope.
Local Open Scope R_scope.

Lemma Rltb_true (a b : R) : Rltb a b = true <-> a < b.
Proof. unfold Rltb. destruct (Rlt_dec a b); split; intros; try discriminate; tauto. Qed.

Lemma Rltb_false (a b : R) : Rltb a b = false <-> ~ a < b.
Proof. unfold Rltb. destruct (Rlt_dec a b); split; intros; try discriminate; tauto. Qed.

Lemma Rleb_true (a b : R) : Rleb a b = true <-> a <= b.
Proof. unfold Rleb. destruct (Rle_dec a b); split; intros; try discriminate; tauto. Qed.

Lemma Rgtb_true (a b : R) : Rgtb a b = true <-> b < a.
Proof. unfold Rgtb. destruct (Rgt_dec a b); split; intros; try discriminate; tauto. Qed.

(** *** The closest point of approach *)

(** What the scan holds after the pairs [done]: nothing before the first
    pair; afterwards the first index at which the separation is least. *)
Definition Best (timeStamps1 : list Z)
  (done : list (Position3D * Position3D)) (best : Closest) : Prop :=
  match minSeparation best with
  | None => done = []
  | Some m =>
      exists k p1 p2,
        nth_error done k = Some (p1, p2) /\
        m = totalSeparation p1 p2 /\
        conflictTime best = nth_error timeStamps1 k /\
        conflictPosition1 best = Some p1 /\
        conflictPosition2 best = Some p2 /\
        (forall j q1 q2, nth_error done j = Some (q1, q2) ->
                         m <= totalSeparation q1 q2) /\
        (forall j q1 q2, (j < k)%nat -> nth_error done j = Some (q1, q2) ->
                         m < totalSeparation q1 q2)
  end.

Lemma nth_error_snoc {A} (l : list A) (a : A) (j : nat) (b : A) :
  nth_error (l ++ [a]) j = Some b ->
  ((j < List.length l)%nat /\ nth_error l j = Some b) \/
  (j = List.length l /\ b = a).
Proof.
  intros H.
  destruct (Nat.lt_ge_cases j (List.length l)) as [Hlt | Hge].
  - left. split; [exact Hlt |]. now rewrite nth_error_app1 in H.
  - right. rewrite nth_error_app2 in H by exact Hge.
    destruct (j - List.length l)%nat as [| n] eqn:E.
    + simpl in H. injection H as <-. split; [lia | reflexivity].
    + simpl in H. destruct n; discriminate.
Qed.

Lemma scanSample_Best (timeStamps1 : list Z)
  (done : list (Position3D * Position3D)) (best : Closest)
  (pos1 pos2 : Position3D) :
  Best timeStamps1 done best ->
  Best timeStamps1 (done ++ [(pos1, pos2)])
       (scanSample timeStamps1 (List.length done) pos1 pos2 best).
Proof.
  unfold Best, scanSample. intros HB.
  destruct (minSeparation best) as [m |] eqn:Hm.
  - destruct HB as (k & p1 & p2 & Hk & Hmk & Ht & Hp1 & Hp2 & Hmin & Hfirst).
    assert (Hklt : (k < List.length done)%nat)
      by (apply nth_error_Some; congruence).
    destruct (Rltb (totalSeparation pos1 pos2) m) eqn:Hlt; cbn [minSeparation
      conflictTime conflictPosition1 conflictPosition2].
    + apply Rltb_true in Hlt.
      exists (List.length done), pos1, pos2.
      repeat split.
      * rewrite nth_error_app2 by lia. now rewrite Nat.sub_diag.
      * intros j q1 q2 Hj. apply nth_error_snoc in Hj.
        destruct Hj as [[_ Hj] | [_ [= -> ->]]]; [| lra].
        specialize (Hmin j q1 q2 Hj). lra.
      * intros j q1 q2 Hjlt Hj. rewrite nth_error_app1 in Hj by exact Hjlt.
        specialize (Hmin j q1 q2 Hj). lra.
    + apply Rltb_false in Hlt. rewrite Hm.
      exists k, p1, p2.
      repeat split; try assumption.
      * now rewrite nth_error_app1.
      * intros j q1 q2 Hj. apply nth_error_snoc in Hj.
        destruct Hj as [[_ Hj] | [_ [= -> ->]]]; [| lra].
        exact (Hmin j q1 q2 Hj).
      * intros j q1 q2 Hjlt Hj.
        rewrite nth_error_app1 in Hj by lia.
        exact (Hfirst j q1 q2 Hjlt Hj).
  - subst done. cbn.
    exists 0%nat, pos1, pos2.
    repeat split.
    + intros [| j] q1 q2 Hj; simpl in Hj.
      * injection Hj as <- <-. lra.
      * destruct j; discriminate.
    + intros j q1 q2 Hjlt. lia.
Qed.

Lemma scanFrom_Best (timeStamps1 : list Z)
  (positions1 positions2 : list Position3D) :
  forall (done : list (Position3D * Position3D)) (best : Closest),
    Best timeStamps1 done best ->
    Best timeStamps1 (done ++ combine positions1 positions2)
         (scanFrom timeStamps1 (List.length done) positions1 positions2 best).
Proof.
  revert positions2.
  induction positions1 as [| pos1 rest1 IH]; intros positions2 done best HB.
  - simpl. now rewrite app_nil_r.
  - destruct positions2 as [| pos2 rest2].
    + simpl. now rewrite app_nil_r.
    + simpl.
      replace (done ++ (pos1, pos2) :: combine rest1 rest2)
        with ((done ++ [(pos1, pos2)]) ++ combine rest1 rest2)
        by (rewrite <- app_assoc; reflexivity).
      replace (S (List.length done))
        with (List.length (done ++ [(pos1, pos2)]))
        by (rewrite length_app; simpl; lia).
      apply IH. now apply scanSample_Best.
Qed.

Lemma closestApproach_Best (trajectory1 trajectory2 : TrajectoryPrediction) :
  Best (timeStamps trajectory1)
       (combine (predictedPositions trajectory1)
                (predictedPositions trajectory2))
       (closestApproach trajectory1 trajectory2).
Proof.
  unfold closestApproach.
  apply (scanFrom_Best (timeStamps trajectory1)
           (predictedPositions trajectory1) (predictedPositions trajectory2)
           [] noClosest).
  reflexivity.
Qed.

Lemma nth_error_combine {A B} (l1 : list A) (l2 : list B) (k : nat)
  (a : A) (b : B) :
  nth_error (combine l1 l2) k = Some (a, b) <->
  nth_error l1 k = Some a /\ nth_error l2 k = Some b.
Proof.
  revert l2 k. induction l1 as [| a1 l1 IH]; intros l2 k.
  - simpl. destruct k; simpl; split; intros H; try discriminate;
      destruct H; discriminate.
  - destruct l2 as [| b1 l2].
    + simpl. destruct k; simpl; split; intros H; try discriminate;
        destruct H; discriminate.
    + destruct k; simpl.
      * split; [intros [= -> ->]; tauto | intros [[= ->] [= ->]]; reflexivity].
      * apply IH.
Qed.

(** Index [k] is the closest point of approach of two trajectories: the
    first aligned sample at which the combined separation is least. *)
Definition closestSample (trajectory1 trajectory2 : TrajectoryPrediction)
  (k : nat) (p1 p2 : Position3D) : Prop :=
  nth_error (predictedPositions trajectory1) k = Some p1 /\
  nth_error (predictedPositions trajectory2) k = Some p2 /\
  (forall j q1 q2,
     nth_error (predictedPositions trajectory1) j = Some q1 ->
     nth_error (predictedPositions trajectory2) j = Some q2 ->
     totalSeparation p1 p2 <= totalSeparation q1 q2) /\
  (forall j q1 q2,
     (j < k)%nat ->
     nth_error (predictedPositions trajectory1) j = Some q1 ->
     nth_error (predictedPositions trajectory2) j = Some q2 ->
     totalSeparation p1 p2 < totalSeparation q1 q2).

Lemma closestSample_unique (trajectory1 trajectory2 : TrajectoryPrediction)
  (k k' : nat) (p1 p2 p1' p2' : Position3D) :
  closestSample trajectory1 trajectory2 k p1 p2 ->
  closestSample trajectory1 trajectory2 k' p1' p2' ->
  k = k' /\ p1 = p1' /\ p2 = p2'.
Proof.
  intros (H1 & H2 & Hmin & Hfirst) (H1' & H2' & Hmin' & Hfirst').
  assert (k = k').
  { destruct (Nat.lt_trichotomy k k') as [Hlt | [E | Hgt]]; [| exact E |].
    - specialize (Hfirst' k p1 p2 Hlt H1 H2).
      specialize (Hmin k' p1' p2' H1' H2'). lra.
    - specialize (Hfirst k' p1' p2' Hgt H1' H2').
      specialize (Hmin' k p1 p2 H1 H2). lra. }
  subst k'. split; [reflexivity |]. split; congruence.
Qed.

(** When the scan has found a minimum, it is at the closest sample. *)
Lemma closestApproach_found (trajectory1 trajectory2 : TrajectoryPrediction)
  (m : R) :
  minSeparation (closestApproach trajectory1 trajectory2) = Some m ->
  exists k p1 p2,
    closestSample trajectory1 trajectory2 k p1 p2 /\
    closestApproach trajectory1 trajectory2 =
    {| minSeparation := Some (totalSeparation p1 p2);
       conflictTime := nth_error (timeStamps trajectory1) k;
       conflictPosition1 := Some p1;
       conflictPosition2 := Some p2 |}.
Proof.
  pose proof (closestApproach_Best trajectory1 trajectory2) as HB.
  unfold Best in HB.
  intros Hm. rewrite Hm in HB.
  destruct HB as (k & p1 & p2 & Hk & Hmk & Ht & Hp1 & Hp2 & Hmin & Hfirst).
  apply nth_error_combine in Hk. destruct Hk as [Hk1 Hk2].
  exists k, p1, p2. split.
  - repeat split; try assumption.
    + intros j q1 q2 Hj1 Hj2. rewrite <- Hmk.
      apply (Hmin j). now apply nth_error_combine.
    + intros j q1 q2 Hlt Hj1 Hj2. rewrite <- Hmk.
      apply (Hfirst j); [exact Hlt |]. now apply nth_error_combine.
  - destruct (closestApproach trajectory1 trajectory2) as [ms ct cp1 cp2].
    simpl in *. congruence.
Qed.

(** The scan finds the closest sample whenever there is one. *)
Lemma closestApproach_at (trajectory1 trajectory2 : TrajectoryPrediction)
  (k : nat) (p1 p2 : Position3D) :
  closestSample trajectory1 trajectory2 k p1 p2 ->
  closestApproach trajectory1 trajectory2 =
  {| minSeparation := Some (totalSeparation p1 p2);
     conflictTime := nth_error (timeStamps trajectory1) k;
     conflictPosition1 := Some p1;
     conflictPosition2 := Some p2 |}.
Proof.
  intros Hcs.
  destruct (minSeparation (closestApproach trajectory1 trajectory2))
    as [m |] eqn:Hm.
  - destruct (closestApproach_found _ _ Hm) as (k' & p1' & p2' & Hcs' & Heq).
    destruct (closestSample_unique Hcs Hcs') as (-> & -> & ->).
    exact Heq.
  - exfalso.
    pose proof (closestApproach_Best trajectory1 trajectory2) as HB.
    unfold Best in HB. rewrite Hm in HB.
    destruct Hcs as (H1 & H2 & _).
    assert (Hin : nth_error (combine (predictedPositions trajectory1)
                               (predictedPositions trajectory2)) k
                  = Some (p1, p2)) by now apply nth_error_combine.
    rewrite HB in Hin. destruct k; discriminate.
Qed.

(** *** One pair *)

Definition tick (s : Service) : Service :=
  {| isRunning := isRunning s; activeConflicts := activeConflicts s;
     conflictHistory := conflictHistory s;
     trajectoryCache := trajectoryCache s;
     separationStandards := separationStandards s;
     clockReads := S (clockReads s); randomDraws := randomDraws s |}.

Definition draw (s : Service) : Service :=
  {| isRunning := isRunning s; activeConflicts := activeConflicts s;
     conflictHistory := conflictHistory s;
     trajectoryCache := trajectoryCache s;
     separationStandards := separationStandards s;
     clockReads := clockReads s; randomDraws := S (randomDraws s) |}.

(** The record that [detectPairwiseConflict] builds in state [s] for the
    closest samples [p1], [p2] at time [cpaTime]. *)
Definition emitted (o : Oracle) (s : Service) (aircraft1 aircraft2 : Aircraft)
  (p1 p2 : Position3D) (cpaTime : Z) : Conflict :=
  let timeToConflict := IZR (cpaTime - Date_now o (clockReads s)) / 1000 in
  {| id := "conflict_" ++ decimal (Date_now o (S (clockReads s))) ++ "_"
           ++ Math_random o (randomDraws s);
     aircraftInvolved := [aircraft1; aircraft2];
     conflictType := determineConflictType aircraft1 aircraft2 p1 p2;
     timeToConflict := timeToConflict;
     severity := calculateSeverity (totalSeparation p1 p2) timeToConflict;
     resolutionOptions := [];
     conflict_status := DETECTED;
     detectedAt := Date_now o (S (S (clockReads s))) |}.

(** The conditions under which a pair is in conflict in state [s]. *)
Definition inConflict (o : Oracle) (s : Service)
  (trajectory1 trajectory2 : TrajectoryPrediction)
  (k : nat) (p1 p2 : Position3D) (cpaTime : Z) : Prop :=
  closestSample trajectory1 trajectory2 k p1 p2 /\
  nth_error (timeStamps trajectory1) k = Some cpaTime /\
  totalSeparation p1 p2 < horizontalSeparation (separationStandards s) /\
  0 < IZR (cpaTime - Date_now o (clockReads s)) / 1000
    <= timeHorizon (separationStandards s).

Lemma detectPairwiseConflict_emits (o : Oracle) (s : Service)
  (aircraft1 aircraft2 : Aircraft)
  (trajectory1 trajectory2 : TrajectoryPrediction)
  (k : nat) (p1 p2 : Position3D) (cpaTime : Z) :
  inConflict o s trajectory1 trajectory2 k p1 p2 cpaTime ->
  detectPairwiseConflict o aircraft1 aircraft2
    (Some trajectory1) (Some trajectory2) s =
  (Returns (Some (emitted o s aircraft1 aircraft2 p1 p2 cpaTime)),
   draw (tick (tick (tick s)))).
Proof.
  intros (Hcs & Ht & Hsep & Hlo & Hhi).
  unfold detectPairwiseConflict.
  rewrite (closestApproach_at Hcs), Ht.
  cbn [minSeparation conflictTime conflictPosition1 conflictPosition2].
  unfold bind at 1. cbn [getService].
  apply Rltb_true in Hsep. rewrite Hsep.
  unfold bind at 1. cbn [dateNow].
  apply Rgtb_true in Hlo. apply Rleb_true in Hhi.
  cbn [separationStandards]. rewrite Hlo, Hhi. cbn [andb].
  reflexivity.
Qed.

(** Every run of [detectPairwiseConflict] returns: either the pair is in
    conflict and the record is emitted, or nothing is emitted and at most
    the clock has been read once. *)
Lemma detectPairwiseConflict_cases (o : Oracle) (s : Service)
  (aircraft1 aircraft2 : Aircraft)
  (trajectory1 trajectory2 : option TrajectoryPrediction) :
  (exists t1 t2 k p1 p2 cpaTime,
     trajectory1 = Some t1 /\ trajectory2 = Some t2 /\
     inConflict o s t1 t2 k p1 p2 cpaTime /\
     detectPairwiseConflict o aircraft1 aircraft2 trajectory1 trajectory2 s =
     (Returns (Some (emitted o s aircraft1 aircraft2 p1 p2 cpaTime)),
      draw (tick (tick (tick s)))))
  \/ detectPairwiseConflict o aircraft1 aircraft2 trajectory1 trajectory2 s =
     (Returns None, s)
  \/ detectPairwiseConflict o aircraft1 aircraft2 trajectory1 trajectory2 s =
     (Returns None, tick s).
Proof.
  destruct trajectory1 as [t1 |]; [| right; left; reflexivity].
  destruct trajectory2 as [t2 |]; [| right; left; reflexivity].
  destruct (minSeparation (closestApproach t1 t2)) as [m |] eqn:Hm.
  - destruct (closestApproach_found _ _ Hm) as (k & p1 & p2 & Hcs & Heq).
    destruct (nth_error (timeStamps t1) k) as [cpaTime |] eqn:Ht.
    + destruct (Rlt_dec (totalSeparation p1 p2)
                  (horizontalSeparation (separationStandards s))) as [Hsep | Hsep].
      * destruct (Rlt_dec 0 (IZR (cpaTime - Date_now o (clockReads s)) / 1000))
          as [Hlo | Hlo].
        -- destruct (Rle_dec (IZR (cpaTime - Date_now o (clockReads s)) / 1000)
                       (timeHorizon (separationStandards s))) as [Hhi | Hhi].
           ++ left. exists t1, t2, k, p1, p2, cpaTime.
              assert (Hin : inConflict o s t1 t2 k p1 p2 cpaTime)
                by exact (conj Hcs (conj Ht (conj Hsep (conj Hlo Hhi)))).
              split; [reflexivity |]. split; [reflexivity |].
              split; [exact Hin |].
              exact (detectPairwiseConflict_emits aircraft1 aircraft2 Hin).
           ++ right. right. unfold detectPairwiseConflict.
              rewrite Heq.
              cbn [minSeparation conflictTime conflictPosition1 conflictPosition2].
              unfold bind at 1. cbn [getService].
              apply Rltb_true in Hsep. rewrite Hsep.
              unfold bind at 1. cbn [dateNow separationStandards].
              assert (E : Rleb (IZR (cpaTime - Date_now o (clockReads s)) / 1000)
                            (timeHorizon (separationStandards s)) = false).
              { unfold Rleb. destruct (Rle_dec _ _); [contradiction | reflexivity]. }
              rewrite E, andb_false_r. reflexivity.
        -- right. right. unfold detectPairwiseConflict.
           rewrite Heq.
           cbn [minSeparation conflictTime conflictPosition1 conflictPosition2].
           unfold bind at 1. cbn [getService].
           apply Rltb_true in Hsep. rewrite Hsep.
           unfold bind at 1. cbn [dateNow separationStandards].
           assert (E : Rgtb (IZR (cpaTime - Date_now o (clockReads s)) / 1000) 0
                       = false).
           { unfold Rgtb. destruct (Rgt_dec _ _) as [Hgt | _];
               [exfalso; apply Hlo; exact Hgt | reflexivity]. }
           rewrite E. reflexivity.
      * right. left. unfold detectPairwiseConflict.
        rewrite Heq.
        cbn [minSeparation conflictTime conflictPosition1 conflictPosition2].
        unfold bind at 1. cbn [getService].
        apply Rltb_false in Hsep. rewrite Hsep. reflexivity.
    + right. left. unfold detectPairwiseConflict.
      rewrite Heq. reflexivity.
  - right. left. unfold detectPairwiseConflict.
    destruct (closestApproach t1 t2) as [ms ct cp1 cp2]. simpl in Hm.
    subst ms. reflexivity.
Qed.

(** *** What a computation leaves unchanged, and what it ensures *)

(** [m] does not write the table of active conflicts, whatever its
    outcome. *)
Definition keepsActive {A} (m : M A) : Prop :=
  forall s out s', m s = (out, s') -> activeConflicts s' = activeConflicts s.

(** [Q] relates the initial state, the result and the final state of every
    run of [m] that returns. *)
Definition ensures {A} (m : M A) (Q : Service -> A -> Service -> Prop) : Prop :=
  forall s a s', m s = (Returns a, s') -> Q s a s'.

Lemma keepsActive_ret {A} (a : A) : keepsActive (ret a).
Proof. intros s out s' [= _ <-]. reflexivity. Qed.

Lemma keepsActive_throw {A} (e : Error) : keepsActive (@throw A e).
Proof. intros s out s' [= _ <-]. reflexivity. Qed.

Lemma keepsActive_getService : keepsActive getService.
Proof. intros s out s' [= _ <-]. reflexivity. Qed.

Lemma keepsActive_dateNow (o : Oracle) : keepsActive (dateNow o).
Proof. intros s out s' [= _ <-]. reflexivity. Qed.

Lemma keepsActive_randomSuffix (o : Oracle) : keepsActive (randomSuffix o).
Proof. intros s out s' [= _ <-]. reflexivity. Qed.

Lemma keepsActive_setTrajectoryCache (c : JsMap.t string TrajectoryPrediction) :
  keepsActive (setTrajectoryCache c).
Proof. intros s out s' [= _ <-]. reflexivity. Qed.

Lemma keepsActive_bind {A B} (m : M A) (k : A -> M B) :
  keepsActive m -> (forall a, keepsActive (k a)) -> keepsActive (bind m k).
Proof.
  intros Hm Hk s out s' H. unfold bind in H.
  destruct (m s) as [[a | e] s1] eqn:E.
  - rewrite (Hk a _ _ _ H). exact (Hm _ _ _ E).
  - injection H as _ <-. exact (Hm _ _ _ E).
Qed.

Create HintDb frame.

#[local] Hint Resolve keepsActive_ret keepsActive_throw keepsActive_getService
  keepsActive_dateNow keepsActive_randomSuffix keepsActive_setTrajectoryCache
  : frame.

Ltac frame :=
  repeat first
    [ apply keepsActive_bind; [| intros ?]
    | solve [auto with frame]
    | match goal with
      | |- keepsActive (if ?b then _ else _) => destruct b
      | |- keepsActive (match ?x with _ => _ end) => destruct x
      end ].

Lemma keepsActive_isTrajectoryValid (o : Oracle)
  (trajectory : TrajectoryPrediction) (ac : Aircraft) :
  keepsActive (isTrajectoryValid o trajectory ac).
Proof. unfold isTrajectoryValid. frame. Qed.

Lemma keepsActive_predictTrajectory (o : Oracle) (ac : Aircraft) :
  keepsActive (predictTrajectory o ac).
Proof.
  unfold predictTrajectory, calculateTrajectoryConfidence,
    calculateUncertaintyRadius. frame.
Qed.

Lemma keepsActive_generateFor (o : Oracle) (ac : Aircraft)
  (predictions : JsMap.t string TrajectoryPrediction) :
  keepsActive (generateFor o ac predictions).
Proof.
  unfold generateFor.
  apply keepsActive_bind; [auto with frame | intros s0].
  assert (Hfresh : keepsActive
    (bind (predictTrajectory o ac) (fun prediction =>
     bind getService (fun s' =>
     bind (setTrajectoryCache
             (JsMap.set string_dec (callsign ac) prediction (trajectoryCache s')))
          (fun _ => ret (JsMap.set string_dec (callsign ac) prediction
                           predictions)))))).
  { apply keepsActive_bind; [apply keepsActive_predictTrajectory | intros ?].
    frame. }
  destruct (JsMap.get string_dec (callsign ac) (trajectoryCache s0)).
  - apply keepsActive_bind; [apply keepsActive_isTrajectoryValid | intros b].
    destruct b; [auto with frame | exact Hfresh].
  - exact Hfresh.
Qed.

Lemma keepsActive_generateLoop (o : Oracle) (aircraft : list Aircraft) :
  forall predictions, keepsActive (generateLoop o aircraft predictions).
Proof.
  induction aircraft as [| ac rest IH]; intros predictions; simpl.
  - auto with frame.
  - apply keepsActive_bind; [apply keepsActive_generateFor | exact IH].
Qed.

Lemma keepsActive_detectPairwiseConflict (o : Oracle)
  (aircraft1 aircraft2 : Aircraft)
  (trajectory1 trajectory2 : option TrajectoryPrediction) :
  keepsActive (detectPairwiseConflict o aircraft1 aircraft2
                 trajectory1 trajectory2).
Proof.
  intros s out s' H.
  destruct (detectPairwiseConflict_cases o s aircraft1 aircraft2
              trajectory1 trajectory2)
    as [(t1 & t2 & k & p1 & p2 & ct & _ & _ & _ & E) | [E | E]];
    rewrite E in H; injection H as _ <-; reflexivity.
Qed.

Lemma keepsActive_detectAgainst (o : Oracle)
  (trajectories : JsMap.t string TrajectoryPrediction) (aircraft1 : Aircraft)
  (others : list Aircraft) :
  forall detected,
    keepsActive (detectAgainst o trajectories aircraft1 others detected).
Proof.
  induction others as [| aircraft2 others IH]; intros detected; simpl.
  - auto with frame.
  - apply keepsActive_bind;
      [apply keepsActive_detectPairwiseConflict | intros c; apply IH].
Qed.

Lemma keepsActive_detectPairs (o : Oracle)
  (trajectories : JsMap.t string TrajectoryPrediction)
  (activeAircraft : list Aircraft) :
  forall detected,
    keepsActive (detectPairs o trajectories activeAircraft detected).
Proof.
  induction activeAircraft as [| aircraft1 rest IH]; intros detected; simpl.
  - auto with frame.
  - apply keepsActive_bind; [apply keepsActive_detectAgainst | exact IH].
Qed.

(** *** The parties of the detected conflicts *)

Lemma detectPairwiseConflict_parties (o : Oracle)
  (aircraft1 aircraft2 : Aircraft)
  (trajectory1 trajectory2 : option TrajectoryPrediction) :
  ensures (detectPairwiseConflict o aircraft1 aircraft2 trajectory1 trajectory2)
    (fun _ r _ =>
       forall c, r = Some c -> aircraftInvolved c = [aircraft1; aircraft2]).
Proof.
  intros s r s' H c ->.
  destruct (detectPairwiseConflict_cases o s aircraft1 aircraft2
              trajectory1 trajectory2)
    as [(t1 & t2 & k & p1 & p2 & ct & _ & _ & _ & E) | [E | E]];
    rewrite E in H; try discriminate H.
  injection H as <- _. reflexivity.
Qed.

Lemma detectAgainst_parties (o : Oracle)
  (trajectories : JsMap.t string TrajectoryPrediction) (aircraft1 : Aircraft)
  (others : list Aircraft) :
  forall detected,
    ensures (detectAgainst o trajectories aircraft1 others detected)
      (fun _ detected' _ =>
         forall c, In c detected' ->
           In c detected \/
           exists aircraft2,
             In aircraft2 others /\
             aircraftInvolved c = [aircraft1; aircraft2]).
Proof.
  induction others as [| aircraft2 others IH]; intros detected s d s' H; simpl in H.
  - injection H as <- _. intros c Hc. now left.
  - unfold bind in H.
    destruct (detectPairwiseConflict o aircraft1 aircraft2 _ _ s)
      as [[r | e] s1] eqn:E; [| discriminate H].
    intros c Hc.
    destruct (IH _ _ _ _ H c Hc) as [Hin | (a2 & Ha2 & Hinv)].
    + destruct r as [c' |]; [| now left].
      apply in_app_or in Hin. destruct Hin as [Hin | [<- | []]]; [now left |].
      right. exists aircraft2. split; [now left |].
      eapply detectPairwiseConflict_parties; [exact E | reflexivity].
    + right. exists a2. split; [now right | exact Hinv].
Qed.

Lemma detectPairs_parties (o : Oracle)
  (trajectories : JsMap.t string TrajectoryPrediction)
  (activeAircraft : list Aircraft) :
  forall detected,
    ensures (detectPairs o trajectories activeAircraft detected)
      (fun _ detected' _ =>
         forall c, In c detected' ->
           In c detected \/
           forall a, In a (aircraftInvolved c) -> In a activeAircraft).
Proof.
  induction activeAircraft as [| aircraft1 rest IH];
    intros detected s d s' H; simpl in H.
  - injection H as <- _. intros c Hc. now left.
  - unfold bind in H.
    destruct (detectAgainst o trajectories aircraft1 rest detected s)
      as [[d1 | e] s1] eqn:E; [| discriminate H].
    intros c Hc.
    destruct (IH _ _ _ _ H c Hc) as [Hin | Hsub].
    + destruct (@detectAgainst_parties o trajectories aircraft1 rest detected
                  s d1 s1 E c Hin)
        as [Hin0 | (a2 & Ha2 & Hinv)]; [now left |].
      right. intros a Ha. rewrite Hinv in Ha.
      destruct Ha as [<- | [<- | []]]; [now left | now right].
    + right. intros a Ha. right. exact (Hsub a Ha).
Qed.

(** *** Reconciliation of the active conflicts *)

Lemma delete_absent {V} (k : string) (m : JsMap.t string V) :
  JsMap.get string_dec k m = None -> JsMap.delete string_dec k m = m.
Proof.
  induction m as [| [k' v'] m IH]; simpl; [reflexivity |].
  destruct (string_dec k k'); [discriminate |].
  intros H. now rewrite IH.
Qed.

Lemma moveConflictToHistory_active (o : Oracle) (cid : string)
  (s : Service) (out : Outcome unit) (s' : Service) :
  moveConflictToHistory o cid s = (out, s') ->
  activeConflicts s' = JsMap.delete string_dec cid (activeConflicts s).
Proof.
  unfold moveConflictToHistory, bind. cbn [getService].
  destruct (JsMap.get string_dec cid (activeConflicts s)) as [c |] eqn:Hget.
  - cbn. intros [= _ <-]. reflexivity.
  - cbn. intros [= _ <-]. symmetry. now apply delete_absent.
Qed.

Lemma in_ids (k : string) (ids : list string) :
  existsb (String.eqb k) ids = true <-> In k ids.
Proof.
  rewrite existsb_exists. split.
  - intros [k' [Hin Heq]]. apply String.eqb_eq in Heq. now subst.
  - intros Hin. exists k. split; [exact Hin | apply String.eqb_refl].
Qed.

(** After the first loop, every key that is left is the identifier of a
    new conflict. *)
Lemma resolveMissing_keys (o : Oracle) (ids : list string)
  (entries : list (string * Conflict)) :
  forall (s : Service) (out : Outcome unit) (s' : Service),
    resolveMissing o ids entries s = (out, s') ->
    (JsMap.wf (activeConflicts s) -> JsMap.wf (activeConflicts s')) /\
    forall k, In k (JsMap.keys (activeConflicts s')) ->
      In k (JsMap.keys (activeConflicts s)) /\
      (In k (map fst entries) -> In k ids).
Proof.
  induction entries as [| [cid conflict] entries IH]; intros s out s' H.
  - injection H as _ <-. split; [tauto |]. intros k Hk. split; [exact Hk |].
    intros [].
  - simpl in H. unfold bind at 1 in H.
    destruct (existsb (String.eqb cid) ids) eqn:Hcur.
    + cbn [ret] in H.
      destruct (IH _ _ _ H) as [Hwf Hkeys]. split; [exact Hwf |].
      intros k Hk. destruct (Hkeys k Hk) as [Hin Hids].
      split; [exact Hin |].
      intros [<- | Hrest]; [now apply in_ids | now apply Hids].
    + unfold bind at 1 in H. cbn [getService] in H.
      unfold bind at 1 in H. cbn [setActiveConflicts] in H.
      match type of H with
      | context [moveConflictToHistory o cid ?s0] =>
          destruct (moveConflictToHistory o cid s0) as [[[] | e] s1] eqn:Hmove
      end.
      * apply moveConflictToHistory_active in Hmove. cbn in Hmove.
        destruct (IH _ _ _ H) as [Hwf Hkeys].
        split.
        -- intros Hwf0. apply Hwf. rewrite Hmove.
           now apply JsMapFacts.wf_delete, JsMapFacts.wf_set.
        -- intros k Hk. destruct (Hkeys k Hk) as [Hin Hids].
           rewrite Hmove in Hin.
           assert (Hne : k <> cid).
           { intros ->. unfold JsMap.keys in Hin.
             apply in_map_iff in Hin. destruct Hin as [[k' v'] [E Hin]].
             simpl in E. subst k'.
             apply JsMapFacts.In_delete in Hin. tauto. }
           apply JsMapFacts.keys_delete in Hin.
           apply JsMapFacts.keys_set in Hin.
           destruct Hin as [-> | Hin]; [contradiction |].
           split; [exact Hin |].
           intros [E | Hrest]; [simpl in E; congruence | now apply Hids].
      * exfalso. unfold moveConflictToHistory, bind in Hmove.
        cbn [getService activeConflicts] in Hmove.
        rewrite JsMapFacts.get_set_same in Hmove. cbn in Hmove.
        discriminate Hmove.
Qed.

Definition store (m : JsMap.t string Conflict) (c : Conflict)
  : JsMap.t string Conflict :=
  JsMap.set string_dec (id c) c m.

Lemma storeConflicts_active (o : Oracle) (newConflicts : list Conflict) :
  forall (s : Service) (out : Outcome unit) (s' : Service),
    storeConflicts newConflicts s = (out, s') ->
    activeConflicts s' = fold_left store newConflicts (activeConflicts s).
Proof.
  induction newConflicts as [| c rest IH]; intros s out s' H.
  - injection H as _ <-. reflexivity.
  - simpl in H. unfold bind at 1 in H. cbn [getService] in H.
    unfold bind at 1 in H. cbn [setActiveConflicts] in H.
    rewrite (IH _ _ _ H). reflexivity.
Qed.

Lemma stored_values (newConflicts all : list Conflict) :
  forall m : JsMap.t string Conflict,
    JsMap.wf m ->
    (forall c, In c newConflicts -> In c all) ->
    (forall k v, In (k, v) m -> In v all \/ In k (map id newConflicts)) ->
    forall v, In v (JsMap.values (fold_left store newConflicts m)) -> In v all.
Proof.
  induction newConflicts as [| c rest IH]; intros m Hwf Hincl Hm v Hv.
  - simpl in Hv. apply JsMapFacts.In_values in Hv. destruct Hv as [k Hin].
    destruct (Hm k v Hin) as [H | []]. exact H.
  - simpl in Hv. apply (IH (store m c)); try assumption.
    + now apply JsMapFacts.wf_set.
    + intros c' Hc'. apply Hincl. now right.
    + intros k v' Hin. apply JsMapFacts.In_set in Hin; [| exact Hwf].
      destruct Hin as [[-> ->] | [Hne Hin]].
      * left. apply Hincl. now left.
      * destruct (Hm k v' Hin) as [H | [E | H]];
          [now left | congruence | now right].
Qed.

(** After [updateActiveConflicts] the table holds new conflicts only. *)
Lemma updateActiveConflicts_values (o : Oracle) (newConflicts : list Conflict)
  (s : Service) (u : unit) (s' : Service) :
  JsMap.wf (activeConflicts s) ->
  updateActiveConflicts o newConflicts s = (Returns u, s') ->
  forall v, In v (JsMap.values (activeConflicts s')) -> In v newConflicts.
Proof.
  intros Hwf H. unfold updateActiveConflicts in H.
  unfold bind at 1 in H. cbn [getService] in H.
  unfold bind at 1 in H.
  destruct (resolveMissing o (map id newConflicts) (activeConflicts s) s)
    as [[[] | e] s1] eqn:Hres; [| discriminate H].
  destruct (resolveMissing_keys _ _ _ _ Hres) as [Hwf1 Hkeys].
  rewrite (storeConflicts_active o _ _ H).
  apply stored_values; [now apply Hwf1 | tauto |].
  intros k v Hin. right.
  assert (Hk : In k (JsMap.keys (activeConflicts s1)))
    by (apply (in_map fst) in Hin; exact Hin).
  destruct (Hkeys k Hk) as [Hk0 Hids]. apply Hids. exact Hk0.
Qed.

(** *** The detection cycle *)

Lemma isActive_true (now : Z) (ac : Aircraft) :
  isActive now ac = true <->
  (now - lastUpdate ac < 30000)%Z /\ ac_altitude ac > 0.
Proof.
  unfold isActive. rewrite andb_true_iff, Z.ltb_lt, Rgtb_true.
  unfold Rgt. tauto.
Qed.

(** The conflicts that a cycle returns are among those it has detected,
    and their parties are among the aircraft that passed the filter. *)
Lemma detectConflicts_parties (o : Oracle) (aircraft : list Aircraft)
  (s : Service) (conflicts : list Conflict) (s' : Service) :
  JsMap.wf (activeConflicts s) ->
  detectConflicts o aircraft s = (Returns conflicts, s') ->
  forall c a,
    In c conflicts -> In a (aircraftInvolved c) ->
    In a (filter (isActive (Date_now o (S (clockReads s)))) aircraft).
Proof.
  intros Hwf H c a Hc Ha.
  unfold detectConflicts in H.
  unfold bind at 1 in H. cbn [dateNow] in H.
  unfold bind at 1 in H. unfold filterActiveAircraft at 1 in H.
  unfold bind at 1 in H. cbn [dateNow ret clockReads] in H.
  set (active := filter (isActive (Date_now o (S (clockReads s)))) aircraft) in *.
  destruct (List.length active <? 2)%nat.
  - injection H as <- _. destruct Hc.
  - unfold bind at 1 in H.
    match type of H with
    | context [generateTrajectoryPredictions o active ?s0] =>
        destruct (generateTrajectoryPredictions o active s0)
          as [[trajectories | e] s1] eqn:Hgen; [| discriminate H];
        pose proof (keepsActive_generateLoop o active [] _ Hgen) as Hact1
    end.
    cbn [activeConflicts] in Hact1.
    unfold bind at 1 in H.
    destruct (detectPairs o trajectories active [] s1)
      as [[detected | e] s2] eqn:Hdet; [| discriminate H].
    pose proof (keepsActive_detectPairs o trajectories active [] _ Hdet) as Hact2.
    pose proof (@detectPairs_parties o trajectories active [] _ _ _ Hdet)
      as Hparties.
    unfold bind at 1 in H.
    destruct (updateActiveConflicts o detected s2)
      as [[u | e] s3] eqn:Hupd; [| discriminate H].
    assert (Hwf2 : JsMap.wf (activeConflicts s2))
      by (rewrite Hact2, Hact1; exact Hwf).
    pose proof (@updateActiveConflicts_values o detected s2 u s3 Hwf2 Hupd)
      as Hvals.
    unfold bind at 1 in H. cbn [dateNow] in H.
    unfold bind at 1 in H. cbn [getService ret activeConflicts] in H.
    injection H as <- _.
    destruct (Hparties c (Hvals c Hc)) as [[] | Hsub].
    exact (Hsub a Ha).
Qed.

(** C10. No aircraft whose altitude is at most 0, or whose last update is
    30 seconds old or more when the cycle filters its input, is a party
    to a conflict that the cycle returns; the parties of every returned
    conflict are input aircraft that passed the filter. In particular no
    conflict of any type, ground conflicts included, has a party whose
    altitude is 0. The table of active conflicts has distinct keys, as
    every map has. *)
Theorem inactive_aircraft_never_in_conflict (o : Oracle)
  (aircraft : list Aircraft) (s : Service)
  (conflicts : list Conflict) (s' : Service) :
  JsMap.wf (activeConflicts s) ->
  detectConflicts o aircraft s = (Returns conflicts, s') ->
  let now := Date_now o (S (clockReads s)) in
  (forall c a,
     In c conflicts -> In a (aircraftInvolved c) ->
     In a aircraft /\ ac_altitude a > 0 /\ (now - lastUpdate a < 30000)%Z)
  /\
  (forall a,
     ac_altitude a <= 0 \/ (now - lastUpdate a >= 30000)%Z ->
     forall c, In c conflicts -> ~ In a (aircraftInvolved c)).
Proof.
  intros Hwf H now.
  assert (Hpos : forall c a,
            In c conflicts -> In a (aircraftInvolved c) ->
            In a aircraft /\ ac_altitude a > 0 /\
            (now - lastUpdate a < 30000)%Z).
  { intros c a Hc Ha.
    pose proof (@detectConflicts_parties o aircraft s conflicts s' Hwf H
                  c a Hc Ha) as Hin.
    apply filter_In in Hin. destruct Hin as [Hin Hact].
    apply isActive_true in Hact. tauto. }
  split; [exact Hpos |].
  intros a Hbad c Hc Ha.
  destruct (Hpos c a Hc Ha) as (_ & Halt & Hage).
  destruct Hbad as [Hlow | Hold]; [lra | lia].
Qed.

(** C3. A pair of tracks that both have a trajectory yields a conflict
    record exactly when the least combined separation over the aligned
    samples, taken at the first sample where it occurs (the closest point
    of approach), is below the horizontal standard and the time of that
    sample is strictly after the clock reading and at most the time
    horizon after it. The record's time to conflict is the time of the
    closest point of approach minus the clock reading, in seconds. The
    defaults of the standard and of the horizon are 3 NM and 300 s. *)
Theorem conflict_emitted_iff_close_and_soon (o : Oracle) (s : Service)
  (aircraft1 aircraft2 : Aircraft)
  (trajectory1 trajectory2 : TrajectoryPrediction) :
  let run := detectPairwiseConflict o aircraft1 aircraft2
               (Some trajectory1) (Some trajectory2) s in
  let now := Date_now o (clockReads s) in
  ((exists c s', run = (Returns (Some c), s')) <->
   (exists k p1 p2 cpaTime,
      closestSample trajectory1 trajectory2 k p1 p2 /\
      nth_error (timeStamps trajectory1) k = Some cpaTime /\
      totalSeparation p1 p2 < horizontalSeparation (separationStandards s) /\
      0 < IZR (cpaTime - now) / 1000 <= timeHorizon (separationStandards s)))
  /\
  (forall c s',
     run = (Returns (Some c), s') ->
     exists k p1 p2 cpaTime,
       closestSample trajectory1 trajectory2 k p1 p2 /\
       nth_error (timeStamps trajectory1) k = Some cpaTime /\
       timeToConflict c = IZR (cpaTime - now) / 1000 /\
       aircraftInvolved c = [aircraft1; aircraft2])
  /\
  (exists r s', run = (Returns r, s'))
  /\
  horizontalSeparation defaultSeparationStandards = 3 /\
  timeHorizon defaultSeparationStandards = 300.
Proof.
  intros run now.
  pose proof (detectPairwiseConflict_cases o s aircraft1 aircraft2
                (Some trajectory1) (Some trajectory2)) as Hcases.
  fold run in Hcases.
  split; [| split; [| split; [| split; reflexivity]]].
  - split.
    + intros (c & s' & Hrun).
      destruct Hcases
        as [(t1 & t2 & k & p1 & p2 & ct & [= <-] & [= <-] & Hin & E) | [E | E]];
        [| rewrite E in Hrun; discriminate Hrun
         | rewrite E in Hrun; discriminate Hrun].
      exists k, p1, p2, ct. exact Hin.
    + intros (k & p1 & p2 & ct & Hin).
      eexists. eexists.
      exact (detectPairwiseConflict_emits aircraft1 aircraft2 Hin).
  - intros c s' Hrun.
    destruct Hcases
      as [(t1 & t2 & k & p1 & p2 & ct & [= <-] & [= <-] & Hin & E) | [E | E]];
      [| rewrite E in Hrun; discriminate Hrun
       | rewrite E in Hrun; discriminate Hrun].
    rewrite E in Hrun. injection Hrun as <- _.
    destruct Hin as (Hcs & Ht & _).
    exists k, p1, p2, ct. repeat split; try assumption; apply Hcs.
  - destruct Hcases
      as [(t1 & t2 & k & p1 & p2 & ct & _ & _ & _ & E) | [E | E]];
      rewrite E; eauto.
Qed.

(** *** Prediction and its cache *)

(** The prediction that [predictTrajectory] computes in state [s]. *)
Definition predicted (o : Oracle) (s : Service) (ac : Aircraft)
  : TrajectoryPrediction :=
  let maxTime := timeHorizon (separationStandards s) in
  let predictions := predictLoop (predictSteps maxTime) ac maxTime 0 in
  {| aircraft := ac;
     predictedPositions := predictions;
     timeStamps := map timestamp predictions;
     confidence :=
       Rmax (1 / 10)
            (1 - IZR (Date_now o (clockReads s) - lastUpdate ac) / 1000 / 30)
       * match status ac with UNKNOWN => 5 / 10 | _ => 9 / 10 end;
     uncertaintyRadius :=
       5 / 10 +
       IZR (Date_now o (S (clockReads s)) - lastUpdate ac) / 1000 / 60 * (1 / 10) |}.

Definition withCache (c : JsMap.t string TrajectoryPrediction) (s : Service)
  : Service :=
  {| isRunning := isRunning s; activeConflicts := activeConflicts s;
     conflictHistory := conflictHistory s;
     trajectoryCache := c;
     separationStandards := separationStandards s;
     clockReads := clockReads s; randomDraws := randomDraws s |}.

Lemma predictTrajectory_eval (o : Oracle) (ac : Aircraft) (s : Service) :
  predictTrajectory o ac s = (Returns (predicted o s ac), tick (tick s)).
Proof. reflexivity. Qed.

(** The loop stops by itself: more iterations than [predictSteps] allows
    would add no sample. *)
Lemma predictLoop_stops (ac : Aircraft) (maxTime : R) (extra : nat) :
  forall (fuel : nat) (t : Z),
    maxTime < IZR (t + 10 * Z.of_nat fuel) ->
    predictLoop (fuel + extra) ac maxTime t = predictLoop fuel ac maxTime t.
Proof.
  induction fuel as [| fuel IH]; intros t Hend.
  - simpl in Hend. rewrite Z.add_0_r in Hend.
    destruct extra as [| extra]; [reflexivity |].
    simpl. destruct (Rle_dec (IZR t) maxTime); [lra | reflexivity].
  - simpl. destruct (Rle_dec (IZR t) maxTime); [| reflexivity].
    f_equal. apply IH.
    replace (t + 10 + 10 * Z.of_nat fuel)%Z
      with (t + 10 * Z.of_nat (S fuel))%Z by lia.
    exact Hend.
Qed.

Lemma predictSteps_enough (ac : Aircraft) (maxTime : R) (extra : nat) :
  predictLoop (predictSteps maxTime + extra) ac maxTime 0 =
  predictLoop (predictSteps maxTime) ac maxTime 0.
Proof.
  apply predictLoop_stops. unfold predictSteps.
  destruct (archimed (maxTime / 10)) as [Hup _].
  destruct (Z.le_gt_cases 0 (up (maxTime / 10))) as [Hpos | Hneg].
  - rewrite Z2Nat.id by exact Hpos.
    rewrite Z.add_0_l, mult_IZR. lra.
  - assert (E : Z.to_nat (up (maxTime / 10)) = 0%nat).
    { destruct (up (maxTime / 10)); simpl; try reflexivity; lia. }
    rewrite E. simpl.
    assert (IZR (up (maxTime / 10)) < 0) by (apply IZR_lt; lia). lra.
Qed.

Lemma nth_error_predictLoop (ac : Aircraft) (maxTime : R) :
  forall (fuel : nat) (t : Z) (k : nat),
    (k < fuel)%nat ->
    IZR (t + 10 * Z.of_nat k) <= maxTime ->
    nth_error (predictLoop fuel ac maxTime t) k =
    Some (predictedPosition ac (t + 10 * Z.of_nat k)).
Proof.
  induction fuel as [| fuel IH]; intros t k Hk Hle; [lia |].
  assert (Ht : IZR t <= maxTime).
  { assert (IZR t <= IZR (t + 10 * Z.of_nat k)) by (apply IZR_le; lia). lra. }
  cbn [predictLoop].
  destruct (Rle_dec (IZR t) maxTime) as [_ | Hn]; [| contradiction].
  destruct k as [| k]; cbn [nth_error].
  - replace (t + 10 * Z.of_nat 0)%Z with t by lia. reflexivity.
  - replace (t + 10 * Z.of_nat (S k))%Z
      with (t + 10 + 10 * Z.of_nat k)%Z in * by lia.
    apply IH; [lia | exact Hle].
Qed.

Lemma predictSteps_covers (maxTime : R) (k : nat) :
  IZR (10 * Z.of_nat k) <= maxTime -> (k < predictSteps maxTime)%nat.
Proof.
  intros Hle. unfold predictSteps.
  destruct (archimed (maxTime / 10)) as [Hup _].
  rewrite mult_IZR in Hle.
  assert (Hlt : IZR (Z.of_nat k) < IZR (up (maxTime / 10))) by lra.
  apply lt_IZR in Hlt. lia.
Qed.

(** Sample number [k] of a prediction, when the horizon reaches it. *)
Lemma predicted_sample (o : Oracle) (s : Service) (ac : Aircraft) (k : nat) :
  IZR (10 * Z.of_nat k) <= timeHorizon (separationStandards s) ->
  nth_error (predictedPositions (predicted o s ac)) k =
    Some (predictedPosition ac (10 * Z.of_nat k)) /\
  nth_error (timeStamps (predicted o s ac)) k =
    Some (lastUpdate ac + 10 * Z.of_nat k * 1000)%Z.
Proof.
  intros Hle.
  assert (Hnth : nth_error (predictedPositions (predicted o s ac)) k =
                 Some (predictedPosition ac (10 * Z.of_nat k))).
  { unfold predicted; cbn [predictedPositions].
    rewrite nth_error_predictLoop.
    - reflexivity.
    - now apply predictSteps_covers.
    - exact Hle. }
  split; [exact Hnth |].
  unfold predicted in *; cbn [timeStamps predictedPositions] in *.
  rewrite nth_error_map, Hnth. reflexivity.
Qed.

(** The three ways of the loop body of [generateTrajectoryPredictions]. *)
Lemma generateFor_fresh (o : Oracle) (ac : Aircraft)
  (predictions : JsMap.t string TrajectoryPrediction) (s : Service) :
  JsMap.get string_dec (callsign ac) (trajectoryCache s) = None ->
  generateFor o ac predictions s =
  (Returns (JsMap.set string_dec (callsign ac) (predicted o s ac) predictions),
   withCache (JsMap.set string_dec (callsign ac) (predicted o s ac)
                (trajectoryCache s))
             (tick (tick s))).
Proof.
  intros Hget. unfold generateFor.
  unfold bind at 1. cbn [getService]. rewrite Hget.
  reflexivity.
Qed.

Lemma generateFor_reuses (o : Oracle) (ac : Aircraft)
  (predictions : JsMap.t string TrajectoryPrediction) (s : Service)
  (cached : TrajectoryPrediction) (first : Z) (later : list Z) :
  JsMap.get string_dec (callsign ac) (trajectoryCache s) = Some cached ->
  timeStamps cached = first :: later ->
  (Date_now o (clockReads s) - first < 30000)%Z ->
  generateFor o ac predictions s =
  (Returns (JsMap.set string_dec (callsign ac) cached predictions), tick s).
Proof.
  intros Hget Hts Hage. unfold generateFor.
  unfold bind at 1. cbn [getService]. rewrite Hget.
  unfold bind at 1. unfold isTrajectoryValid.
  unfold bind at 1. cbn [dateNow]. rewrite Hts. cbn [ret].
  apply Z.ltb_lt in Hage. rewrite Hage. reflexivity.
Qed.

Lemma generateFor_recomputes (o : Oracle) (ac : Aircraft)
  (predictions : JsMap.t string TrajectoryPrediction) (s : Service)
  (cached : TrajectoryPrediction) (first : Z) (later : list Z) :
  JsMap.get string_dec (callsign ac) (trajectoryCache s) = Some cached ->
  timeStamps cached = first :: later ->
  (Date_now o (clockReads s) - first >= 30000)%Z ->
  generateFor o ac predictions s =
  (Returns (JsMap.set string_dec (callsign ac) (predicted o (tick s) ac)
              predictions),
   withCache (JsMap.set string_dec (callsign ac) (predicted o (tick s) ac)
                (trajectoryCache s))
             (tick (tick (tick s)))).
Proof.
  intros Hget Hts Hage. unfold generateFor.
  unfold bind at 1. cbn [getService]. rewrite Hget.
  unfold bind at 1. unfold isTrajectoryValid.
  unfold bind at 1. cbn [dateNow]. rewrite Hts. cbn [ret].
  assert (E : (Date_now o (clockReads s) - first <? 30000)%Z = false)
    by (apply Z.ltb_ge; lia).
  rewrite E. reflexivity.
Qed.

(** *** Geometry of the samples *)

Lemma totalSeparation_nonneg (p q : Position3D) : 0 <= totalSeparation p q.
Proof. unfold totalSeparation. apply sqrt_pos. Qed.

Lemma atan2_pos (a b : R) : 0 < a -> 0 <= b -> 0 < Math_atan2 a b.
Proof.
  intros Ha Hb. pose proof PI_RGT_0 as Hpi. unfold Math_atan2.
  destruct (Rlt_dec 0 b) as [Hb' | Hb'].
  - rewrite <- atan_0. apply atan_increasing.
    apply Rdiv_lt_0_compat; assumption.
  - destruct (Rlt_dec b 0); [lra |].
    destruct (Rlt_dec 0 a); lra.
Qed.

Lemma horizontal_distance_same (p q : Position3D) :
  latitude p = latitude q -> longitude p = longitude q ->
  calculateHorizontalDistance p q = 0.
Proof.
  intros Hlat Hlon. unfold calculateHorizontalDistance.
  rewrite Hlat, Hlon.
  replace ((latitude q - latitude q) * PI / 180 / 2) with 0
    by (unfold Rdiv; ring).
  replace ((longitude q - longitude q) * PI / 180 / 2) with 0
    by (unfold Rdiv; ring).
  rewrite sin_0.
  replace (0 * 0 + cos (latitude q * PI / 180) * cos (latitude q * PI / 180)
           * 0 * 0) with 0 by ring.
  rewrite Rminus_0_r, sqrt_0, sqrt_1.
  unfold Math_atan2.
  destruct (Rlt_dec 0 1); [| lra].
  replace (0 / 1) with 0 by field. rewrite atan_0. ring.
Qed.

Lemma totalSeparation_same (p q : Position3D) :
  latitude p = latitude q -> longitude p = longitude q ->
  altitude p = altitude q ->
  totalSeparation p q = 0.
Proof.
  intros Hlat Hlon Halt. unfold totalSeparation.
  rewrite (horizontal_distance_same p q Hlat Hlon), Halt.
  replace (altitude q - altitude q) with 0 by ring.
  rewrite Rabs_R0.
  replace (0 ^ 2 + (0 / (607612 / 100)) ^ 2) with 0 by field.
  apply sqrt_0.
Qed.

Lemma horizontal_distance_pos (p q : Position3D) :
  latitude p = latitude q ->
  -90 < latitude p < 90 ->
  0 < longitude q - longitude p < 360 ->
  0 < calculateHorizontalDistance p q.
Proof.
  intros Hlat Hrange [Hlo Hhi]. pose proof PI_RGT_0 as Hpi.
  unfold calculateHorizontalDistance. rewrite <- Hlat.
  replace ((latitude p - latitude p) * PI / 180 / 2) with 0
    by (unfold Rdiv; ring).
  rewrite sin_0.
  pose proof (RadarProps.cos_latitude_pos Hrange) as Hcos.
  assert (Hsin : 0 < sin ((longitude q - longitude p) * PI / 180 / 2)).
  { apply sin_gt_0.
    - apply Rdiv_lt_0_compat; [| lra].
      apply Rdiv_lt_0_compat; [| lra]. nra.
    - replace ((longitude q - longitude p) * PI / 180 / 2)
        with ((longitude q - longitude p) / 360 * PI) by field.
      assert ((longitude q - longitude p) / 360 < 1) by lra. nra. }
  set (a := 0 * 0 + cos (latitude p * PI / 180) * cos (latitude p * PI / 180)
            * sin ((longitude q - longitude p) * PI / 180 / 2)
            * sin ((longitude q - longitude p) * PI / 180 / 2)).
  assert (Ha : 0 < a).
  { unfold a. rewrite Rmult_0_l, Rplus_0_l.
    repeat apply Rmult_lt_0_compat; assumption. }
  assert (0 < Math_atan2 (sqrt a) (sqrt (1 - a))).
  { apply atan2_pos; [now apply sqrt_lt_R0 | apply sqrt_pos]. }
  lra.
Qed.

Lemma totalSeparation_pos (p q : Position3D) :
  0 < calculateHorizontalDistance p q -> 0 < totalSeparation p q.
Proof.
  intros Hh. unfold totalSeparation. apply sqrt_lt_R0.
  assert (0 <= (Rabs (altitude p - altitude q) / (607612 / 100)) ^ 2)
    by (apply pow2_ge_0).
  assert (0 < calculateHorizontalDistance p q ^ 2) by nra.
  lra.
Qed.

(** *** A converging pair, watched for two cycles

    Two aircraft fly towards each other along the equator at 5000 ft, 0.02
    degrees of longitude apart, each at 111.32 m/s; both were last updated
    at [epoch]. They meet ten seconds later. The first detection cycle
    starts one second after the update, the second one five seconds after
    the first; the aircraft data are the same in both. *)

Definition epoch : Z := 1700000000000.

Definition noPlan : FlightPlan :=
  {| origin := "UNKNOWN"; destination := "UNKNOWN"; route := "";
     cruiseAltitude := 5000; estimatedDeparture := epoch;
     estimatedArrival := epoch |}.

Definition eastbound : Aircraft :=
  {| callsign := "AAL1"; flightPlan := noPlan;
     currentPosition := {| latitude := 0; longitude := 0; altitude := 5000;
                           timestamp := epoch |};
     velocity := {| x := 11132 / 100; y := 0; z := 0 |};
     ac_altitude := 5000; heading := 90; squawkCode := "1200";
     status := ARRIVING; clearances := []; lastUpdate := epoch |}.

Definition westbound : Aircraft :=
  {| callsign := "UAL2"; flightPlan := noPlan;
     currentPosition := {| latitude := 0; longitude := 2 / 100;
                           altitude := 5000; timestamp := epoch |};
     velocity := {| x := - (11132 / 100); y := 0; z := 0 |};
     ac_altitude := 5000; heading := 270; squawkCode := "1201";
     status := ARRIVING; clearances := []; lastUpdate := epoch |}.

(** The clock advances by one millisecond at every reading; the ten
    readings of the first cycle start at [epoch] + 1 s, the later ones are
    5 s later. *)
Definition watch : Oracle :=
  {| Date_now := fun n =>
       if (n <? 10)%nat then (epoch + 1000 + Z.of_nat n)%Z
       else (epoch + 6000 + Z.of_nat n)%Z;
     Math_random := fun n =>
       if (n =? 0)%nat then "4fzyo82mv" else "k09x1c3d7" |}.

Definition svc (active : JsMap.t string Conflict) (history : list Conflict)
  (cache : JsMap.t string TrajectoryPrediction) (reads draws : nat) : Service :=
  {| isRunning := true; activeConflicts := active;
     conflictHistory := history; trajectoryCache := cache;
     separationStandards := defaultSeparationStandards;
     clockReads := reads; randomDraws := draws |}.

Definition started : Service := svc [] [] [] 0 0.

Definition eastPrediction : TrajectoryPrediction :=
  predicted watch (svc [] [] [] 2 0) eastbound.

Definition westPrediction : TrajectoryPrediction :=
  predicted watch (svc [] [] [] 4 0) westbound.

Definition bothPredictions : JsMap.t string TrajectoryPrediction :=
  [("AAL1", eastPrediction); ("UAL2", westPrediction)].

Definition eastMeets : Position3D := predictedPosition eastbound 10.
Definition westMeets : Position3D := predictedPosition westbound 10.
Definition meetingTime : Z := (epoch + 10000)%Z.

Lemma cos_equator : cos (0 * PI / 180) = 1.
Proof. replace (0 * PI / 180) with 0 by (unfold Rdiv; ring). apply cos_0. Qed.

Lemma meeting_separation : totalSeparation eastMeets westMeets = 0.
Proof.
  apply totalSeparation_same;
    unfold eastMeets, westMeets, predictedPosition, eastbound, westbound;
    cbn [latitude longitude altitude currentPosition velocity x y z];
    rewrite ?cos_equator; field.
Qed.

Lemma initial_separation :
  0 < totalSeparation (predictedPosition eastbound 0)
                      (predictedPosition westbound 0).
Proof.
  apply totalSeparation_pos, horizontal_distance_pos;
    unfold predictedPosition, eastbound, westbound;
    cbn [latitude longitude altitude currentPosition velocity x y z];
    rewrite ?cos_equator; lra.
Qed.

(** The second samples are the closest point of approach. *)
Lemma meeting_is_closest :
  closestSample eastPrediction westPrediction 1 eastMeets westMeets.
Proof.
  assert (H10 : IZR (10 * Z.of_nat 1) <= 300) by (simpl; lra).
  assert (H0 : IZR (10 * Z.of_nat 0) <= 300) by (simpl; lra).
  destruct (predicted_sample watch (svc [] [] [] 2 0) eastbound 1 H10) as [He1 _].
  destruct (predicted_sample watch (svc [] [] [] 4 0) westbound 1 H10) as [Hw1 _].
  destruct (predicted_sample watch (svc [] [] [] 2 0) eastbound 0 H0) as [He0 _].
  destruct (predicted_sample watch (svc [] [] [] 4 0) westbound 0 H0) as [Hw0 _].
  repeat split.
  - exact He1.
  - exact Hw1.
  - intros j q1 q2 _ _. rewrite meeting_separation.
    apply totalSeparation_nonneg.
  - intros j q1 q2 Hj Hq1 Hq2.
    assert (j = 0%nat) by lia. subst j.
    unfold eastPrediction in Hq1. unfold westPrediction in Hq2.
    rewrite He0 in Hq1. rewrite Hw0 in Hq2.
    injection Hq1 as <-. injection Hq2 as <-.
    rewrite meeting_separation. exact initial_separation.
Qed.

(** The pair is in conflict in every state that has the default
    standards and reads the clock less than ten seconds after the update. *)
Lemma pair_inConflict (s : Service) :
  separationStandards s = defaultSeparationStandards ->
  (epoch <= Date_now watch (clockReads s) < epoch + 10000)%Z ->
  inConflict watch s eastPrediction westPrediction 1 eastMeets westMeets
    meetingTime.
Proof.
  intros Hstd [Hlo Hhi].
  assert (H10 : IZR (10 * Z.of_nat 1) <= 300) by (simpl; lra).
  destruct (predicted_sample watch (svc [] [] [] 2 0) eastbound 1 H10) as [_ Ht].
  split; [exact meeting_is_closest |].
  split; [exact Ht |].
  rewrite Hstd, meeting_separation.
  cbn [horizontalSeparation timeHorizon defaultSeparationStandards].
  split; [lra |].
  unfold meetingTime.
  assert (Hpos : 0 < IZR (epoch + 10000 - Date_now watch (clockReads s)))
    by (apply IZR_lt; lia).
  assert (Hle : IZR (epoch + 10000 - Date_now watch (clockReads s)) <= 10000)
    by (apply IZR_le; lia).
  split; lra.
Qed.

(** A cycle over two aircraft that both pass the filter and are found in
    conflict. *)
Lemma detectConflicts_two (o : Oracle) (a b : Aircraft) (s s1 s2 s3 : Service)
  (trajectories : JsMap.t string TrajectoryPrediction) (c : Conflict) :
  filter (isActive (Date_now o (S (clockReads s)))) [a; b] = [a; b] ->
  generateTrajectoryPredictions o [a; b] (tick (tick s)) =
    (Returns trajectories, s1) ->
  detectPairwiseConflict o a b
    (JsMap.get string_dec (callsign a) trajectories)
    (JsMap.get string_dec (callsign b) trajectories) s1 =
    (Returns (Some c), s2) ->
  updateActiveConflicts o [c] s2 = (Returns tt, s3) ->
  detectConflicts o [a; b] s =
  (Returns (JsMap.values (activeConflicts s3)), tick s3).
Proof.
  intros Hfilter Hgen Hdet Hupd.
  unfold detectConflicts.
  unfold bind at 1. cbn [dateNow].
  unfold bind at 1. unfold filterActiveAircraft. unfold bind at 1.
  cbn [dateNow ret isRunning activeConflicts conflictHistory trajectoryCache
       separationStandards clockReads randomDraws].
  rewrite Hfilter.
  change (List.length [a; b] <? 2)%nat with false. cbv iota.
  unfold bind at 1. unfold tick in Hgen.
  cbn [isRunning activeConflicts conflictHistory trajectoryCache
       separationStandards clockReads randomDraws] in Hgen.
  rewrite Hgen.
  unfold bind at 1. cbn [detectPairs detectAgainst].
  unfold bind at 1. unfold bind at 1. rewrite Hdet.
  cbn [ret app]. unfold bind at 1. cbn [ret].
  unfold bind at 1. rewrite Hupd.
  reflexivity.
Qed.

Definition firstConflict : Conflict :=
  emitted watch (svc [] [] bothPredictions 6 0) eastbound westbound
          eastMeets westMeets meetingTime.

Definition afterFirst : Service :=
  svc [(id firstConflict, firstConflict)] [] bothPredictions 10 1.

Definition secondConflict : Conflict :=
  emitted watch (svc [(id firstConflict, firstConflict)] [] bothPredictions 14 1)
          eastbound westbound eastMeets westMeets meetingTime.

Definition afterSecond : Service :=
  svc [(id secondConflict, secondConflict)]
      [withStatus firstConflict RESOLVED] bothPredictions 19 2.

Lemma both_pass_filter (now : Z) :
  (now - epoch < 30000)%Z ->
  filter (isActive now) [eastbound; westbound] = [eastbound; westbound].
Proof.
  intros Hage.
  assert (He : isActive now eastbound = true)
    by (apply isActive_true; split; [exact Hage | simpl; lra]).
  assert (Hw : isActive now westbound = true)
    by (apply isActive_true; split; [exact Hage | simpl; lra]).
  cbn [filter]. rewrite He, Hw. reflexivity.
Qed.

Lemma timeStamps_predicted (o : Oracle) (s : Service) (ac : Aircraft) :
  0 <= timeHorizon (separationStandards s) ->
  exists later,
    timeStamps (predicted o s ac) = lastUpdate ac :: later.
Proof.
  intros Hh.
  assert (H0 : IZR (10 * Z.of_nat 0) <= timeHorizon (separationStandards s))
    by (simpl; exact Hh).
  destruct (predicted_sample o s ac 0 H0) as [_ Ht].
  destruct (timeStamps (predicted o s ac)) as [| t later]; [discriminate Ht |].
  simpl in Ht. injection Ht as ->. exists later. f_equal. lia.
Qed.

Lemma first_cycle_predictions :
  generateTrajectoryPredictions watch [eastbound; westbound]
    (tick (tick started)) =
  (Returns bothPredictions, svc [] [] bothPredictions 6 0).
Proof.
  unfold generateTrajectoryPredictions. cbn [generateLoop].
  unfold bind at 1. rewrite generateFor_fresh by reflexivity.
  unfold bind at 1. rewrite generateFor_fresh by reflexivity.
  reflexivity.
Qed.

Lemma second_cycle_predictions :
  generateTrajectoryPredictions watch [eastbound; westbound]
    (tick (tick afterFirst)) =
  (Returns bothPredictions,
   svc [(id firstConflict, firstConflict)] [] bothPredictions 14 1).
Proof.
  destruct (timeStamps_predicted watch (svc [] [] [] 2 0) eastbound) as [le Hle];
    [simpl; lra |].
  destruct (timeStamps_predicted watch (svc [] [] [] 4 0) westbound) as [lw Hlw];
    [simpl; lra |].
  unfold generateTrajectoryPredictions. cbn [generateLoop].
  unfold bind at 1.
  rewrite (@generateFor_reuses watch eastbound [] (tick (tick afterFirst))
             eastPrediction (lastUpdate eastbound) le eq_refl Hle)
    by (vm_compute; reflexivity).
  unfold bind at 1.
  rewrite (@generateFor_reuses watch westbound
             (JsMap.set string_dec (callsign eastbound) eastPrediction [])
             (tick (tick (tick afterFirst)))
             westPrediction (lastUpdate westbound) lw eq_refl Hlw)
    by (vm_compute; reflexivity).
  reflexivity.
Qed.

Lemma first_cycle_pair :
  detectPairwiseConflict watch eastbound westbound
    (JsMap.get string_dec (callsign eastbound) bothPredictions)
    (JsMap.get string_dec (callsign westbound) bothPredictions)
    (svc [] [] bothPredictions 6 0) =
  (Returns (Some firstConflict), svc [] [] bothPredictions 9 1).
Proof.
  change (JsMap.get string_dec (callsign eastbound) bothPredictions)
    with (Some eastPrediction).
  change (JsMap.get string_dec (callsign westbound) bothPredictions)
    with (Some westPrediction).
  apply (@detectPairwiseConflict_emits watch (svc [] [] bothPredictions 6 0)
           eastbound westbound eastPrediction westPrediction 1
           eastMeets westMeets meetingTime).
  apply pair_inConflict; [reflexivity |].
  unfold epoch; simpl; lia.
Qed.

Lemma second_cycle_pair :
  detectPairwiseConflict watch eastbound westbound
    (JsMap.get string_dec (callsign eastbound) bothPredictions)
    (JsMap.get string_dec (callsign westbound) bothPredictions)
    (svc [(id firstConflict, firstConflict)] [] bothPredictions 14 1) =
  (Returns (Some secondConflict),
   svc [(id firstConflict, firstConflict)] [] bothPredictions 17 2).
Proof.
  change (JsMap.get string_dec (callsign eastbound) bothPredictions)
    with (Some eastPrediction).
  change (JsMap.get string_dec (callsign westbound) bothPredictions)
    with (Some westPrediction).
  apply (@detectPairwiseConflict_emits watch
           (svc [(id firstConflict, firstConflict)] [] bothPredictions 14 1)
           eastbound westbound eastPrediction westPrediction 1
           eastMeets westMeets meetingTime).
  apply pair_inConflict; [reflexivity |].
  unfold epoch; simpl; lia.
Qed.

Lemma first_id : id firstConflict = "conflict_1700000001007_4fzyo82mv".
Proof. reflexivity. Qed.

Lemma second_id : id secondConflict = "conflict_1700000006015_k09x1c3d7".
Proof. reflexivity. Qed.

Lemma first_cycle_update :
  updateActiveConflicts watch [firstConflict] (svc [] [] bothPredictions 9 1) =
  (Returns tt, svc [(id firstConflict, firstConflict)] [] bothPredictions 9 1).
Proof. reflexivity. Qed.

Lemma second_cycle_update :
  updateActiveConflicts watch [secondConflict]
    (svc [(id firstConflict, firstConflict)] [] bothPredictions 17 2) =
  (Returns tt,
   svc [(id secondConflict, secondConflict)]
       [withStatus firstConflict RESOLVED] bothPredictions 18 2).
Proof.
  unfold updateActiveConflicts.
  unfold bind at 1. cbn [getService activeConflicts svc map].
  rewrite first_id, second_id.
  unfold bind at 1. cbn [resolveMissing].
  unfold bind at 1.
  change (existsb (String.eqb "conflict_1700000001007_4fzyo82mv")
            ["conflict_1700000006015_k09x1c3d7"]) with false.
  cbv iota.
  unfold bind at 1. cbn [getService].
  unfold bind at 1. cbn [setActiveConflicts activeConflicts].
  unfold moveConflictToHistory.
  unfold bind at 1. cbn [getService activeConflicts].
  cbn [JsMap.set JsMap.get].
  destruct (string_dec "conflict_1700000001007_4fzyo82mv"
              "conflict_1700000001007_4fzyo82mv") as [_ | Hne];
    [| contradiction].
  cbn [JsMap.get].
  destruct (string_dec "conflict_1700000001007_4fzyo82mv"
              "conflict_1700000001007_4fzyo82mv") as [_ | Hne];
    [| contradiction].
  reflexivity.
Qed.

(** The two cycles. *)
Lemma first_cycle :
  detectConflicts watch [eastbound; westbound] started =
  (Returns [firstConflict], afterFirst).
Proof.
  rewrite (@detectConflicts_two watch eastbound westbound started
             (svc [] [] bothPredictions 6 0) (svc [] [] bothPredictions 9 1)
             (svc [(id firstConflict, firstConflict)] [] bothPredictions 9 1)
             bothPredictions firstConflict).
  - reflexivity.
  - apply both_pass_filter. vm_compute. reflexivity.
  - exact first_cycle_predictions.
  - exact first_cycle_pair.
  - exact first_cycle_update.
Qed.

Lemma second_cycle :
  detectConflicts watch [eastbound; westbound] afterFirst =
  (Returns [secondConflict], afterSecond).
Proof.
  rewrite (@detectConflicts_two watch eastbound westbound afterFirst
             (svc [(id firstConflict, firstConflict)] [] bothPredictions 14 1)
             (svc [(id firstConflict, firstConflict)] [] bothPredictions 17 2)
             (svc [(id secondConflict, secondConflict)]
                  [withStatus firstConflict RESOLVED] bothPredictions 18 2)
             bothPredictions secondConflict).
  - reflexivity.
  - apply both_pass_filter. vm_compute. reflexivity.
  - exact second_cycle_predictions.
  - exact second_cycle_pair.
  - exact second_cycle_update.
Qed.

(** C1, evaluated on the converging pair. Both cycles find the pair in
    conflict. The record of the second cycle has another identifier than
    the record of the first, and the reconciliation of the second cycle,
    not finding the first identifier among the new ones, marks the first
    record resolved and moves it to the history while the pair is still in
    conflict. *)
Theorem identity_changes_across_cycles :
  detectConflicts watch [eastbound; westbound] started =
    (Returns [firstConflict], afterFirst) /\
  detectConflicts watch [eastbound; westbound] afterFirst =
    (Returns [secondConflict], afterSecond) /\
  aircraftInvolved firstConflict = [eastbound; westbound] /\
  aircraftInvolved secondConflict = [eastbound; westbound] /\
  id firstConflict = "conflict_1700000001007_4fzyo82mv" /\
  id secondConflict = "conflict_1700000006015_k09x1c3d7" /\
  id firstConflict <> id secondConflict /\
  JsMap.get string_dec (id firstConflict) (activeConflicts afterSecond) = None /\
  conflictHistory afterSecond = [withStatus firstConflict RESOLVED].
Proof.
  split; [exact first_cycle |].
  split; [exact second_cycle |].
  repeat split.
  rewrite first_id, second_id. discriminate.
Qed.

(** C3 on the converging pair: the pair is close and the closest point of
    approach is ahead, so a record is emitted. *)
Lemma conflict_emitted_iff_close_and_soon_witness :
  exists c s',
    detectPairwiseConflict watch eastbound westbound
      (Some eastPrediction) (Some westPrediction)
      (svc [] [] bothPredictions 6 0) = (Returns (Some c), s').
Proof.
  destruct (conflict_emitted_iff_close_and_soon watch
              (svc [] [] bothPredictions 6 0) eastbound westbound
              eastPrediction westPrediction) as [[_ Hemit] _].
  apply Hemit.
  exists 1%nat, eastMeets, westMeets, meetingTime.
  apply (@pair_inConflict (svc [] [] bothPredictions 6 0));
    [reflexivity | unfold epoch; simpl; lia].
Defined.

(** C10 on the converging pair: the parties of the conflict of the first
    cycle passed the filter. *)
Lemma inactive_aircraft_never_in_conflict_witness :
  In eastbound [eastbound; westbound] /\
  ac_altitude eastbound > 0 /\
  (Date_now watch 1 - lastUpdate eastbound < 30000)%Z.
Proof.
  destruct (@inactive_aircraft_never_in_conflict watch [eastbound; westbound]
              started [firstConflict] afterFirst (NoDup_nil string) first_cycle)
    as [Hparty _].
  apply (Hparty firstConflict eastbound); simpl; auto.
Defined.

(** C7, as the code has it. Whether a cached prediction is reused depends
    on the clock alone: it is reused when the reading of the clock is less
    than 30 seconds after the first time stamp of the prediction (the last
    update of the track when the prediction was computed), whatever the
    position and the last update that the track has now; otherwise a
    prediction is computed from the track as it is now and replaces the
    cache entry of that call sign, the other entries being kept. *)
Theorem cached_prediction_valid_by_age (o : Oracle) (ac : Aircraft)
  (predictions : JsMap.t string TrajectoryPrediction) (s : Service)
  (cached : TrajectoryPrediction) (first : Z) (later : list Z) :
  JsMap.get string_dec (callsign ac) (trajectoryCache s) = Some cached ->
  timeStamps cached = first :: later ->
  let now := Date_now o (clockReads s) in
  ((now - first < 30000)%Z ->
     generateFor o ac predictions s =
     (Returns (JsMap.set string_dec (callsign ac) cached predictions), tick s))
  /\
  ((now - first >= 30000)%Z ->
     let fresh := predicted o (tick s) ac in
     generateFor o ac predictions s =
     (Returns (JsMap.set string_dec (callsign ac) fresh predictions),
      withCache (JsMap.set string_dec (callsign ac) fresh (trajectoryCache s))
                (tick (tick (tick s)))) /\
     aircraft fresh = ac /\
     forall other,
       other <> callsign ac ->
       JsMap.get string_dec other
         (JsMap.set string_dec (callsign ac) fresh (trajectoryCache s)) =
       JsMap.get string_dec other (trajectoryCache s)).
Proof.
  intros Hget Hts now. split.
  - intros Hage. exact (generateFor_reuses o ac predictions s Hget Hts Hage).
  - intros Hage fresh. split; [| split].
    + exact (generateFor_recomputes o ac predictions s Hget Hts Hage).
    + reflexivity.
    + intros other Hne. now apply JsMapFacts.get_set_other.
Qed.

(** The eastbound track after a new position, received four seconds after
    the first one: the first cycle had computed its prediction before. *)
Definition eastboundMoved : Aircraft :=
  {| callsign := "AAL1"; flightPlan := noPlan;
     currentPosition := {| latitude := 0; longitude := 5 / 1000;
                           altitude := 5200; timestamp := (epoch + 4000)%Z |};
     velocity := {| x := 13915 / 100; y := 0; z := 5 |};
     ac_altitude := 5200; heading := 90; squawkCode := "1200";
     status := ARRIVING; clearances := []; lastUpdate := (epoch + 4000)%Z |}.

Lemma cached_prediction_valid_by_age_witness :
  generateFor watch eastboundMoved [] (tick (tick afterFirst)) =
  (Returns [("AAL1", eastPrediction)], tick (tick (tick afterFirst))).
Proof.
  destruct (timeStamps_predicted watch (svc [] [] [] 2 0) eastbound) as [le Hle];
    [simpl; lra |].
  destruct (@cached_prediction_valid_by_age watch eastboundMoved []
              (tick (tick afterFirst)) eastPrediction (lastUpdate eastbound) le
              eq_refl Hle) as [Hreuse _].
  rewrite Hreuse; [reflexivity |].
  vm_compute. reflexivity.
Defined.

(** C7 fails as stated: the track has a new position, later than the
    computation of the cached prediction, and the next cycle still uses
    the prediction that was computed from the old position. *)
Lemma moved_track_keeps_old_prediction :
  JsMap.get string_dec "AAL1" (trajectoryCache afterFirst)
    = Some eastPrediction /\
  aircraft eastPrediction = eastbound /\
  (Date_now watch 3 < lastUpdate eastboundMoved)%Z /\
  currentPosition eastboundMoved <> currentPosition eastbound /\
  exists s',
    generateTrajectoryPredictions watch [eastboundMoved; westbound]
      (tick (tick afterFirst)) = (Returns bothPredictions, s').
Proof.
  split; [reflexivity |]. split; [reflexivity |].
  split; [vm_compute; reflexivity |].
  split.
  - unfold eastboundMoved, eastbound; cbn [currentPosition].
    intros E. injection E. intros. lra.
  - destruct (timeStamps_predicted watch (svc [] [] [] 2 0) eastbound)
      as [le Hle]; [simpl; lra |].
    destruct (timeStamps_predicted watch (svc [] [] [] 4 0) westbound)
      as [lw Hlw]; [simpl; lra |].
    eexists.
    unfold generateTrajectoryPredictions. cbn [generateLoop].
    unfold bind at 1.
    rewrite (@generateFor_reuses watch eastboundMoved [] (tick (tick afterFirst))
               eastPrediction (lastUpdate eastbound) le eq_refl Hle)
      by (vm_compute; reflexivity).
    unfold bind at 1.
    rewrite (@generateFor_reuses watch westbound
               (JsMap.set string_dec (callsign eastboundMoved) eastPrediction [])
               (tick (tick (tick afterFirst)))
               westPrediction (lastUpdate westbound) lw eq_refl Hlw)
      by (vm_compute; reflexivity).
    reflexivity.
Qed.

End ConflictProps.

(** * Further properties *)

(** ** The field specification and the catalogues of the decoder *)

Module AsterixMore.
Import Asterix.

Local Open Scope string_scope.
Local Open Scope list_scope.
Local Open Scope Z_scope.

(** The continuation bit of an octet. *)
Definition continuation (b : byte) : bool := Z.land (byteZ b) 1 =? 1.

(** The octet with its most significant bit cleared. *)
Definition withoutTopBit (b : byte) : byte :=
  match Byte.of_N (N.land (Byte.to_N b) 127) with
  | Some b' => b'
  | None => b
  end.

Lemma scanBits_length (SP RE fspecByte : Z) (bits : list Z) :
  forall (fieldIndex : Z) (presentFields : list Z),
    (List.length (fst (scanBits SP RE fspecByte bits fieldIndex presentFields))
     <= List.length presentFields + List.length bits)%nat.
Proof.
  induction bits as [| bit bits IH]; intros fieldIndex presentFields; simpl.
  - lia.
  - match goal with
    | |- context [scanBits SP RE fspecByte bits (fieldIndex + 1) ?p] =>
        specialize (IH (fieldIndex + 1) p);
        assert (Hp : (List.length p <= S (List.length presentFields))%nat)
    end.
    { destruct (_ =? 0); [lia |].
      destruct (mapFieldIndexToId SP RE fieldIndex);
        [rewrite length_app; simpl; lia | lia]. }
    lia.
Qed.

Lemma scanBits_ids (SP RE fspecByte : Z) (bits : list Z) :
  forall (fieldIndex : Z) (presentFields : list Z) (fieldId : Z),
    In fieldId (fst (scanBits SP RE fspecByte bits fieldIndex presentFields)) ->
    In fieldId presentFields \/
    exists index, mapFieldIndexToId SP RE index = Some fieldId.
Proof.
  induction bits as [| bit bits IH]; intros fieldIndex presentFields fieldId Hin;
    simpl in Hin.
  - now left.
  - apply IH in Hin. destruct Hin as [Hin | Hex]; [| now right].
    destruct (_ =? 0); [now left |].
    destruct (mapFieldIndexToId SP RE fieldIndex) as [fid |] eqn:Hmap;
      [| now left].
    apply in_app_or in Hin. destruct Hin as [Hin | [<- | []]]; [now left |].
    right. now exists fieldIndex.
Qed.

(** What the loop of [readFSPEC] returns on the octets [rest]. *)
Lemma readFSPEC_loop_spec (SP RE : Z) (rest : list byte) :
  forall (fieldIndex : Z) (presentFields : list Z) (fspecLength : Z),
    match readFSPEC_loop SP RE rest fieldIndex presentFields fspecLength with
    | Throw e => e = IncompleteFSPEC /\ forallb continuation rest = true
    | Ok (present, len) =>
        exists pre b post,
          rest = pre ++ b :: post /\
          forallb continuation pre = true /\
          continuation b = false /\
          len = fspecLength + Z.of_nat (List.length pre) + 1 /\
          (List.length present <=
           List.length presentFields + 7 * S (List.length pre))%nat /\
          forall fieldId, In fieldId present ->
            In fieldId presentFields \/
            exists index, mapFieldIndexToId SP RE index = Some fieldId
    end.
Proof.
  induction rest as [| b rest IH]; intros fieldIndex presentFields fspecLength.
  - simpl. split; reflexivity.
  - cbn [readFSPEC_loop].
    pose proof (scanBits_length SP RE (byteZ b) [7; 6; 5; 4; 3; 2; 1]
                  fieldIndex presentFields) as Hlen.
    pose proof (scanBits_ids SP RE (byteZ b) [7; 6; 5; 4; 3; 2; 1]
                  fieldIndex presentFields) as Hids.
    destruct (scanBits SP RE (byteZ b) [7; 6; 5; 4; 3; 2; 1] fieldIndex
                presentFields) as [present1 index1].
    cbn [fst List.length] in Hlen, Hids.
    destruct (Z.land (byteZ b) 1 =? 1) eqn:Hcont.
    + specialize (IH index1 present1 (fspecLength + 1)).
      destruct (readFSPEC_loop SP RE rest index1 present1 (fspecLength + 1))
        as [[present len] | e].
      * destruct IH as (pre & b' & post & -> & Hpre & Hb' & -> & Hcount & Hsrc).
        exists (b :: pre), b', post.
        split; [reflexivity |].
        split; [cbn [forallb]; unfold continuation at 1; now rewrite Hcont |].
        split; [exact Hb' |].
        split; [cbn [List.length]; lia |].
        split; [cbn [List.length]; lia |].
        intros fieldId Hin. destruct (Hsrc fieldId Hin) as [H1 | Hex];
          [now apply Hids | now right].
      * destruct IH as [-> Hall]. split; [reflexivity |].
        cbn [forallb]. unfold continuation at 1. now rewrite Hcont.
    + exists [], b, rest.
      split; [reflexivity |]. split; [reflexivity |].
      split; [exact Hcont |].
      split; [cbn [List.length]; lia |].
      split; [cbn [List.length]; lia |].
      exact Hids.
Qed.

Lemma readFSPEC_at_zero (SP RE : Z) (data : Buffer) :
  readFSPEC SP RE data 0 = readFSPEC_loop SP RE data 1 [] 0.
Proof.
  unfold readFSPEC, buf_length.
  destruct data as [| b data]; [reflexivity |].
  destruct (0 >=? Z.of_nat (List.length (b :: data))) eqn:E;
    [| reflexivity].
  apply Z.geb_le in E. cbn [List.length] in E. lia.
Qed.

(** X1. [readFSPEC] fails exactly when the buffer has no octet whose
    continuation bit is clear (the empty buffer included), and the failure
    is "incomplete FSPEC". When it succeeds, the length it returns is the
    number of octets up to and including the first one whose continuation
    bit is clear; it is at least 1 and at most the length of the buffer,
    and at most 7 fields are reported per octet. *)
Theorem fspec_ends_at_first_clear_bit (SP RE : Z) (data : Buffer) :
  (forall e, readFSPEC SP RE data 0 = Throw e ->
             e = IncompleteFSPEC /\ forallb continuation data = true) /\
  (forallb continuation data = true ->
   readFSPEC SP RE data 0 = Throw IncompleteFSPEC) /\
  (forall presentFields fspecLength,
     readFSPEC SP RE data 0 = Ok (presentFields, fspecLength) ->
     exists pre b post,
       data = pre ++ b :: post /\
       forallb continuation pre = true /\
       continuation b = false /\
       fspecLength = Z.of_nat (List.length pre) + 1 /\
       1 <= fspecLength <= buf_length data /\
       Z.of_nat (List.length presentFields) <= 7 * fspecLength).
Proof.
  rewrite readFSPEC_at_zero.
  pose proof (readFSPEC_loop_spec SP RE data 1 [] 0) as Hspec.
  destruct (readFSPEC_loop SP RE data 1 [] 0) as [[present len] | e0].
  - destruct Hspec as (pre & b & post & Hdata & Hpre & Hb & Hlen & Hcount & _).
    split; [intros e [=] |]. split.
    + intros Hall. exfalso. rewrite Hdata, forallb_app in Hall.
      cbn [forallb] in Hall. rewrite Hb in Hall.
      rewrite andb_false_r in Hall. discriminate Hall.
    + intros presentFields fspecLength [= <- <-].
      exists pre, b, post.
      split; [exact Hdata |]. split; [exact Hpre |]. split; [exact Hb |].
      split; [lia |].
      split.
      * unfold buf_length. rewrite Hdata, length_app. cbn [List.length]. lia.
      * cbn [List.length] in Hcount. lia.
  - destruct Hspec as [-> Hall].
    split; [intros e [= <-]; split; [reflexivity | exact Hall] |].
    split; [reflexivity | intros ? ? [=]].
Qed.

Lemma fspec_ends_at_first_clear_bit_witness :
  readFSPEC 0 0 [x41; xff; x02; x07] 0 = Ok ([0x010; 0x220; 0x240; 0x250;
    0x161; 0x042; 0x200; 0x170; 0x210; 0x230], 3) /\
  readFSPEC 0 0 [x01; x03] 0 = Throw IncompleteFSPEC.
Proof.
  split; [reflexivity |].
  destruct (fspec_ends_at_first_clear_bit 0 0 [x01; x03]) as [_ [Hfail _]].
  apply Hfail. reflexivity.
Defined.

Lemma scanBits_withoutTopBit (SP RE : Z) (b : byte) (fieldIndex : Z)
  (presentFields : list Z) :
  scanBits SP RE (byteZ (withoutTopBit b)) [7; 6; 5; 4; 3; 2; 1]
           fieldIndex presentFields =
  scanBits SP RE (byteZ b) [7; 6; 5; 4; 3; 2; 1] fieldIndex presentFields.
Proof. destruct b; reflexivity. Qed.

Lemma continuation_withoutTopBit (b : byte) :
  Z.land (byteZ (withoutTopBit b)) 1 = Z.land (byteZ b) 1.
Proof. destruct b; reflexivity. Qed.

Lemma readFSPEC_loop_withoutTopBit (SP RE : Z) (data : Buffer) :
  forall (fieldIndex : Z) (presentFields : list Z) (fspecLength : Z),
    readFSPEC_loop SP RE (map withoutTopBit data) fieldIndex presentFields
                   fspecLength =
    readFSPEC_loop SP RE data fieldIndex presentFields fspecLength.
Proof.
  induction data as [| b data IH]; intros index present len; [reflexivity |].
  cbn [map readFSPEC_loop].
  rewrite scanBits_withoutTopBit, continuation_withoutTopBit.
  destruct (scanBits SP RE (byteZ b) [7; 6; 5; 4; 3; 2; 1] index present)
    as [present1 index1].
  destruct (Z.land (byteZ b) 1 =? 1); [apply IH | reflexivity].
Qed.

(** X2. [readFSPEC] never looks at the most significant bit of an octet
    of the field specification: clearing that bit in every octet of the
    buffer changes neither the present fields nor the length. *)
Theorem fspec_ignores_top_bit (SP RE : Z) (data : Buffer) :
  readFSPEC SP RE (map withoutTopBit data) 0 = readFSPEC SP RE data 0.
Proof.
  rewrite !readFSPEC_at_zero. apply readFSPEC_loop_withoutTopBit.
Qed.

(** *** Field decoders *)

Ltac bytes_of data Hn :=
  destruct data as [| ? data]; cbn [List.length] in Hn;
  [ try (exfalso; lia) | first [ exfalso; lia | bytes_of data Hn ] ].

Lemma registered_categories (category : Z) (categoryDef : AsterixCategory) :
  JsMap.get Z.eq_dec category categories = Some categoryDef ->
  (category = 48 /\ categoryDef = cat048) \/
  (category = 62 /\ categoryDef = cat062).
Proof.
  intros H. apply JsMapFacts.get_In in H.
  destruct H as [[= <- <-] | [[= <- <-] | []]]; tauto.
Qed.

(** X3. The decoder of every fixed-length field of the two registered
    catalogues returns a value, and does not throw, on every slice that
    has the declared length of the field; the declared lengths are
    positive. *)
Theorem fixed_decoders_never_throw (category : Z)
  (categoryDef : AsterixCategory) (fieldId : Z)
  (fieldDef : AsterixFieldDefinition) :
  JsMap.get Z.eq_dec category categories = Some categoryDef ->
  JsMap.get Z.eq_dec fieldId (cat_fields categoryDef) = Some fieldDef ->
  fd_type fieldDef = FIXED ->
  exists len,
    fd_length fieldDef = Some len /\ 0 < len /\
    forall data : Buffer,
      buf_length data = len -> exists v, fd_decoder fieldDef data = Ok v.
Proof.
  intros Hcat Hfield Hfixed.
  apply JsMapFacts.get_In in Hfield.
  destruct (@registered_categories _ _ Hcat) as [[_ ->] | [_ ->]];
    cbn [cat_fields cat048 cat062 In] in Hfield;
    repeat (destruct Hfield as [Hfield | Hfield];
            [injection Hfield as <- <- |]);
    try contradiction; try discriminate Hfixed;
    (eexists; split; [reflexivity |]; split; [lia |];
     intros data Hlen;
     assert (Hn : List.length data = Z.to_nat (buf_length data))
       by (unfold buf_length; lia);
     rewrite Hlen in Hn; cbn [Z.to_nat Pos.to_nat Pos.iter_op Nat.add] in Hn;
     clear Hlen; bytes_of data Hn;
     eexists; reflexivity).
Qed.

Lemma fixed_decoders_never_throw_witness :
  exists v, decode_240 [x04; x11; x4c; xf1; xcb; x20] = Ok v.
Proof.
  destruct (@fixed_decoders_never_throw 48 cat048 0x240
              (snd (fixedField 0x240 "Aircraft Identification" 6 decode_240))
              eq_refl eq_refl eq_refl)
    as (len & Hlen & _ & Hdec).
  injection Hlen as <-.
  exact (Hdec [x04; x11; x4c; xf1; xcb; x20] eq_refl).
Defined.

Lemma subarray_length (data : Buffer) (s e : Z) :
  0 <= s -> s <= e -> e <= buf_length data ->
  buf_length (subarray data s e) = e - s.
Proof.
  intros Hs Hse He. unfold subarray, buf_length in *.
  rewrite !Z.max_r, !Z.min_l by lia.
  rewrite length_firstn, length_skipn. lia.
Qed.

(** X4. In a registered catalogue, a fixed-length field that lies inside
    the buffer is always decoded: the value is stored under the name of the
    field, the offset advances by the declared length, nothing is
    logged. *)
Theorem fitting_fixed_field_is_decoded (category : Z)
  (categoryDef : AsterixCategory) (data : Buffer) (st : DecodeState)
  (fieldId : Z) (fieldDef : AsterixFieldDefinition) (len : Z) :
  JsMap.get Z.eq_dec category categories = Some categoryDef ->
  JsMap.get Z.eq_dec fieldId (cat_fields categoryDef) = Some fieldDef ->
  fd_type fieldDef = FIXED ->
  fd_length fieldDef = Some len ->
  0 <= offset st ->
  offset st + len <= buf_length data ->
  exists v,
    fd_decoder fieldDef (subarray data (offset st) (offset st + len)) = Ok v /\
    decodeField categoryDef data st fieldId =
    {| offset := offset st + len;
       fields := JsMap.set string_dec (fd_name fieldDef) v (fields st);
       logger := logger st |} /\
    JsMap.get string_dec (fd_name fieldDef)
      (fields (decodeField categoryDef data st fieldId)) = Some v.
Proof.
  intros Hcat Hfield Hfixed Hlen Hoff Hfit.
  destruct (@fixed_decoders_never_throw _ _ _ _ Hcat Hfield Hfixed)
    as (len' & Hlen' & Hpos & Hdec).
  rewrite Hlen in Hlen'. injection Hlen' as <-.
  destruct (Hdec (subarray data (offset st) (offset st + len))) as [v Hv].
  { rewrite subarray_length by lia. lia. }
  assert (Hstep : decodeField categoryDef data st fieldId =
    {| offset := offset st + len;
       fields := JsMap.set string_dec (fd_name fieldDef) v (fields st);
       logger := logger st |}).
  { unfold decodeField, tryDecodeField, getFieldLength.
    rewrite Hfield, Hfixed, Hlen. cbn [bindR].
    destruct (Z.gtb_spec (offset st + len) (buf_length data)); [lia |].
    rewrite Hv. reflexivity. }
  exists v. split; [exact Hv |]. split; [exact Hstep |].
  rewrite Hstep. cbn [fields]. apply JsMapFacts.get_set_same.
Qed.

Lemma fitting_fixed_field_is_decoded_witness :
  exists v,
    JsMap.get string_dec "Aircraft Address"
      (fields (decodeField cat048 [x01; x00; xab; xcd; xef]
                 {| offset := 2; fields := []; logger := [] |} 0x220))
    = Some v.
Proof.
  destruct (@fitting_fixed_field_is_decoded 48 cat048
              [x01; x00; xab; xcd; xef]
              {| offset := 2; fields := []; logger := [] |} 0x220
              (snd (fixedField 0x220 "Aircraft Address" 3 decode_220)) 3
              eq_refl eq_refl eq_refl eq_refl)
    as (v & _ & _ & Hget).
  - cbn. lia.
  - cbn. lia.
  - exists v. exact Hget.
Defined.

(** *** Outcomes of [decodeMessage] *)

(** X5. [decodeMessage] returns a record exactly for the categories 48
    and 62 on a buffer that has an octet whose continuation bit is clear;
    the record bears the category. For another category it throws
    "unsupported category" and logs nothing; for a registered category and
    a buffer without such an octet it throws "incomplete FSPEC" and logs
    the failure once. *)
Theorem decodeMessage_outcomes (SP RE category : Z) (data : Buffer)
  (log : list LogEntry) :
  match decodeMessage SP RE category data log with
  | (Ok r, log') =>
      (category = 48 \/ category = 62) /\
      forallb continuation data = false /\
      rec_category r = category
  | (Throw e, log') =>
      (e = UnsupportedCategory category /\
       category <> 48 /\ category <> 62 /\ log' = log)
      \/
      (e = IncompleteFSPEC /\
       (category = 48 \/ category = 62) /\
       forallb continuation data = true /\
       log' = log ++ [errorDecodingFailed IncompleteFSPEC category])
  end.
Proof.
  unfold decodeMessage.
  destruct (JsMap.get Z.eq_dec category categories) as [categoryDef |] eqn:Hcat.
  - assert (Hreg : category = 48 \/ category = 62)
      by (destruct (@registered_categories _ _ Hcat) as [[-> _] | [-> _]]; tauto).
    assert (Hnum : cat_number categoryDef = category)
      by (destruct (@registered_categories _ _ Hcat) as [[-> ->] | [-> ->]];
          reflexivity).
    unfold decodeDataRecord.
    destruct (fspec_ends_at_first_clear_bit SP RE data) as (Hthrow & _ & Hok).
    destruct (readFSPEC SP RE data 0) as [[present len] | e].
    + split; [exact Hreg |]. split; [| exact Hnum].
      destruct (Hok present len eq_refl)
        as (pre & b & post & -> & _ & Hb & _).
      rewrite forallb_app. cbn [forallb]. rewrite Hb.
      now rewrite andb_false_r.
    + right. destruct (Hthrow e eq_refl) as [-> Hall]. tauto.
  - left. split; [reflexivity |].
    cbn [categories JsMap.get] in Hcat.
    destruct (Z.eq_dec category 48); [discriminate |].
    destruct (Z.eq_dec category 62); [discriminate |].
    tauto.
Qed.

Lemma decodeMessage_outcomes_witness :
  fst (decodeMessage 0 0 21 [x40; x01; x02] []) = Throw (UnsupportedCategory 21)
  /\ fst (decodeMessage 0 0 62 [xff; x01] []) = Throw IncompleteFSPEC.
Proof.
  pose proof (decodeMessage_outcomes 0 0 21 [x40; x01; x02] []) as H21.
  pose proof (decodeMessage_outcomes 0 0 62 [xff; x01] []) as H62.
  destruct (decodeMessage 0 0 21 [x40; x01; x02] []) as [[r | e] log'];
    destruct (decodeMessage 0 0 62 [xff; x01] []) as [[r' | e'] log''];
    cbn [fst].
  - destruct H21 as [[H | H] _]; discriminate H.
  - destruct H21 as [[H | H] _]; discriminate H.
  - destruct H62 as (_ & H & _). discriminate H.
  - destruct H21 as [(-> & _) | (_ & [H | H] & _)]; try discriminate H.
    destruct H62 as [(_ & _ & H & _) | (-> & _)]; [now contradiction H |].
    split; reflexivity.
Defined.

(** *** Provenance of the decoded fields *)

Lemma In_set_any {V} (k k' : string) (v v' : V) (m : JsMap.t string V) :
  In (k, v) (JsMap.set string_dec k' v' m) ->
  (k = k' /\ v = v') \/ In (k, v) m.
Proof.
  induction m as [| [k0 v0] m IH]; simpl.
  - intros [[= -> ->] | []]. now left.
  - destruct (string_dec k' k0) as [-> | Hne]; simpl.
    + intros [[= -> ->] | Hin]; [now left | right; now right].
    + intros [Heq | Hin]; [right; now left |].
      destruct (IH Hin) as [H | H]; [now left | right; now right].
Qed.

(** Every field of the record was decoded by the catalogue entry of a
    present field identifier. *)
Lemma decodeFields_provenance (categoryDef : AsterixCategory) (data : Buffer)
  (presentFields : list Z) :
  forall (st : DecodeState) (name : string) (v : FieldValue),
    In (name, v) (fields (decodeFields categoryDef data st presentFields)) ->
    In (name, v) (fields st) \/
    exists fieldId fieldDef,
      In fieldId presentFields /\
      JsMap.get Z.eq_dec fieldId (cat_fields categoryDef) = Some fieldDef /\
      fd_name fieldDef = name.
Proof.
  induction presentFields as [| fieldId rest IH]; intros st name v Hin.
  - now left.
  - rewrite AsterixProps.decodeFields_cons in Hin.
    destruct (IH _ _ _ Hin) as [Hst | (fid & fd & Hfid & Hget & Hname)].
    + unfold decodeField in Hst.
      destruct (JsMap.get Z.eq_dec fieldId (cat_fields categoryDef))
        as [fieldDef |] eqn:Hget; [| now left].
      destruct (tryDecodeField fieldDef data (offset st) fieldId)
        as [[decoded len] | e]; [| now left].
      cbn [fields] in Hst. apply In_set_any in Hst.
      destruct Hst as [[-> _] | Hst]; [| now left].
      right. exists fieldId, fieldDef. split; [now left | tauto].
    + right. exists fid, fd. split; [now right | tauto].
Qed.

Lemma mapFieldIndexToId_image (SP RE index fieldId : Z) :
  mapFieldIndexToId SP RE index = Some fieldId ->
  In fieldId
     [0x010; 0x020; 0x040; 0x070; 0x090; 0x130; 0x220; 0x240; 0x250; 0x161;
      0x042; 0x200; 0x170; 0x210; 0x030; 0x080; 0x100; 0x110; 0x120; 0x230;
      0x260; 0x055; 0x050; 0x065; 0x060; SP; RE].
Proof.
  unfold mapFieldIndexToId.
  match goal with
  | |- context [JsMap.get Z.eq_dec index ?m] =>
      destruct (JsMap.get Z.eq_dec index m) as [fid |] eqn:Hget;
      [| discriminate]
  end.
  destruct (fid =? 0); [discriminate |].
  intros [= <-].
  apply JsMapFacts.get_In in Hget.
  change (In fid (map snd
    [(1, 0x010); (2, 0x020); (3, 0x040); (4, 0x070); (5, 0x090);
     (6, 0x130); (7, 0x220); (8, 0x240); (9, 0x250); (10, 0x161);
     (11, 0x042); (12, 0x200); (13, 0x170); (14, 0x210); (15, 0x030);
     (16, 0x080); (17, 0x100); (18, 0x110); (19, 0x120); (20, 0x230);
     (21, 0x260); (22, 0x055); (23, 0x050); (24, 0x065); (25, 0x060);
     (26, SP); (27, RE)])).
  exact (in_map snd _ _ Hget).
Qed.

(** X6. The index table of [readFSPEC] is the one of category 048 for
    every category. Unless the identifiers of the two special fields are
    105, 136 or 380 (hexadecimal), a record of category 62 therefore never
    has another field than the data source identifier and the track
    number: the WGS-84 position, the measured flight level and the
    aircraft derived data of its catalogue are never decoded. *)
Theorem category_62_decodes_two_fields_only (SP RE : Z) (data : Buffer)
  (log log' : list LogEntry) (r : DataRecord) :
  ~ In SP [0x105; 0x136; 0x380] ->
  ~ In RE [0x105; 0x136; 0x380] ->
  decodeMessage SP RE 62 data log = (Ok r, log') ->
  forall name v,
    In (name, v) (rec_fields r) ->
    name = "Data Source Identifier" \/ name = "Track Number".
Proof.
  intros HSP HRE Hdec name v Hin.
  unfold decodeMessage in Hdec. cbn [categories JsMap.get] in Hdec.
  destruct (Z.eq_dec 62 48) as [E | _]; [discriminate E |].
  destruct (Z.eq_dec 62 62) as [_ | E]; [| contradiction].
  unfold decodeDataRecord in Hdec.
  pose proof (readFSPEC_loop_spec SP RE data 1 [] 0) as Hspec.
  rewrite <- readFSPEC_at_zero in Hspec.
  destruct (readFSPEC SP RE data 0) as [[present len] | e];
    [| discriminate Hdec].
  destruct Hspec as (pre & b & post & _ & _ & _ & _ & _ & Hsrc).
  injection Hdec as Hr _. rewrite <- Hr in Hin. cbn [rec_fields] in Hin.
  apply decodeFields_provenance in Hin.
  destruct Hin as [[] | (fid & fd & Hfid & Hget & <-)].
  destruct (Hsrc fid Hfid) as [[] | [index Hmap]].
  apply mapFieldIndexToId_image in Hmap.
  apply JsMapFacts.get_In in Hget.
  cbn [cat_fields cat062 In] in Hget.
  destruct Hget as [Hget | [Hget | [Hget | [Hget | [Hget | []]]]]];
    injection Hget as <- <-; cbn [fd_name fixedField snd].
  - now left.
  - now right.
  - exfalso. cbn [In] in Hmap, HSP, HRE.
    repeat (destruct Hmap as [Hmap | Hmap]; [try discriminate Hmap |]);
      intuition congruence.
  - exfalso. cbn [In] in Hmap, HSP, HRE.
    repeat (destruct Hmap as [Hmap | Hmap]; [try discriminate Hmap |]);
      intuition congruence.
  - exfalso. cbn [In] in Hmap, HSP, HRE.
    repeat (destruct Hmap as [Hmap | Hmap]; [try discriminate Hmap |]);
      intuition congruence.
Qed.

Lemma category_62_decodes_two_fields_only_witness :
  Forall (fun field => fst field = "Data Source Identifier" \/
                       fst field = "Track Number")
         (match fst (decodeMessage 0 0 62 [x60; x01; x02; x00; x2a] []) with
          | Ok r => rec_fields r
          | Throw _ => []
          end).
Proof.
  apply Forall_forall. intros [name v].
  destruct (decodeMessage 0 0 62 [x60; x01; x02; x00; x2a] [])
    as [[r | e] log'] eqn:Hdec; cbn [fst]; [| intros []].
  apply (@category_62_decodes_two_fields_only 0 0
           [x60; x01; x02; x00; x2a] [] log' r); [| | exact Hdec];
    cbn [In]; intros [H | [H | [H | []]]]; discriminate H.
Defined.

End AsterixMore.

(** ** The resolutions as run-time values ([OpenAIService.ts])

    [generateConflictResolutions] is declared to return a list of
    resolution options, but nothing checks at run time what [JSON.parse]
    found under [resolutions]. This module follows the same code with the
    parsed arguments as the JavaScript values they are. *)

Module OpenAIValues.
Import Types OpenAI.

Local Open Scope string_scope.
Local Open Scope list_scope.

(** A value that [JSON.parse] returns. The properties of an object are its
    own properties, one per key, in insertion order. *)
#[warnings="-register-all"]
Inductive JsValue : Type :=
| JNull
| JBool (b : bool)
| JNumber (n : R)
| JString (s : string)
| JArray (items : list JsValue)
| JObject (properties : list (string * JsValue)).

(** [const { resolutions } = value]: [None] is [undefined]. Destructuring
    [null] throws; an array, a string, a number and a boolean have no
    property of that name. *)
Definition destructureResolutions (value : JsValue)
  : Result (option JsValue) :=
  match value with
  | JNull => Throw TypeError
  | JObject properties =>
      Ok (JsMap.get string_dec "resolutions" properties)
  | JBool _ | JNumber _ | JString _ | JArray _ => Ok None
  end.

(** The evaluation of [resolutions.length]: it throws for [undefined] and
    for [null] and for nothing else; its value only goes to the log. *)
Definition readLength (resolutions : option JsValue) : Result JsValue :=
  match resolutions with
  | None => Throw TypeError
  | Some JNull => Throw TypeError
  | Some value => Ok value
  end.

(** The array literal of the [catch] clause. *)
Definition fallbackResolutions : JsValue :=
  JArray
    [ JObject
        [ ("id", JString "fallback-001");
          ("description", JString "Manual resolution required");
          ("instructions",
           JArray [JString "Contact supervisor for manual conflict resolution"]);
          ("estimatedResolutionTime", JNumber 300%R);
          ("confidence", JNumber (1 / 10)%R) ] ].

(** A resolution option, and a list of them, as values. *)
Definition ofResolution (r : ResolutionOption) : JsValue :=
  JObject
    [ ("id", JString (ro_id r));
      ("description", JString (description r));
      ("instructions", JArray (map JString (instructions r)));
      ("estimatedResolutionTime", JNumber (estimatedResolutionTime r));
      ("confidence", JNumber (ro_confidence r)) ].

Definition ofResolutions (l : list ResolutionOption) : JsValue :=
  JArray (map ofResolution l).

Section Service.

(** [JSON.parse]; [None] stands for a thrown [SyntaxError]. *)
Variable JSON_parse : string -> option JsValue.

(** The retry limit of the client (3 unless reconfigured). *)
Variable maxRetries : nat.

(** The body of the [try] block of [generateConflictResolutions]. *)
Definition requestResolutions (operation : nat -> Attempt)
  (log : list LogEntry) : Result JsValue * list LogEntry :=
  match executeWithRetry maxRetries operation log with
  | (Throw e, log1) => (Throw e, log1)
  | (Ok result, log1) =>
      let functionCall :=
        match choices result with
        | [] => None
        | c :: _ =>
            match message c with
            | None => None
            | Some m => function_call m
            end
        end in
      match functionCall with
      | None => (Throw InvalidResponseFormat, log1)
      | Some fc =>
          match arguments fc with
          | None => (Throw InvalidResponseFormat, log1)
          | Some args =>
              if string_dec args "" then (Throw InvalidResponseFormat, log1)
              else
                match JSON_parse args with
                | None => (Throw SyntaxError, log1)
                | Some parsed =>
                    match destructureResolutions parsed with
                    | Throw e => (Throw e, log1)
                    | Ok resolutions =>
                        match readLength resolutions with
                        | Throw e => (Throw e, log1)
                        | Ok value =>
                            (Ok value,
                             log1 ++
                             [LogInfo "Conflict resolution suggestions generated"])
                        end
                    end
                end
          end
      end
  end.

(** [generateConflictResolutions]: the [catch] clause logs the error and
    returns the fallback. *)
Definition generateConflictResolutions (operation : nat -> Attempt)
  (log : list LogEntry) : Result JsValue * list LogEntry :=
  match requestResolutions operation log with
  | (Ok resolutions, log1) => (Ok resolutions, log1)
  | (Throw e, log1) =>
      (Ok fallbackResolutions,
       log1 ++ [LogError "Conflict resolution generation failed" e])
  end.

End Service.

(** What [OpenAI.ParsedArguments] keeps of a parsed value, when the value
    under [resolutions] is a list of resolution options, is [null] or is
    missing. *)
Definition typedView (typed : option ParsedArguments)
  (parsed : option JsValue) : Prop :=
  match typed, parsed with
  | None, None => True
  | Some (WithResolutions l), Some value =>
      destructureResolutions value = Ok (Some (ofResolutions l))
  | Some WithoutResolutions, Some value =>
      destructureResolutions value = Throw TypeError \/
      destructureResolutions value = Ok None \/
      destructureResolutions value = Ok (Some JNull)
  | _, _ => False
  end.

End OpenAIValues.

(** ** Retries and answers of the collaborator *)

Module OpenAIMore.
Import Types OpenAI.

Local Open Scope string_scope.
Local Open Scope list_scope.

Definition retryWarning : LogEntry :=
  LogWarn "OpenAI request failed, retrying".

Definition permanentFailure (e : ApiError) : LogEntry :=
  LogError "OpenAI request failed permanently" (RequestFailed e).

(** The attempts from number [first] on, [k] of them, are rejected with
    retryable errors. *)
Definition retryableFrom (operation : nat -> Attempt) (first k : nat) : Prop :=
  forall j, (j < k)%nat ->
    exists e, operation (first + j)%nat = Rejected e /\
              isRetryableError e = true.

Lemma executeWithRetry_from_skip (operation : nat -> Attempt) (k : nat) :
  forall (first remaining : nat) (log : list LogEntry),
    retryableFrom operation first k ->
    executeWithRetry_from operation first (k + remaining) log =
    executeWithRetry_from operation (first + k) remaining
      (log ++ repeat retryWarning k).
Proof.
  induction k as [| k IH]; intros first remaining log Hretry.
  - rewrite Nat.add_0_r, app_nil_r. reflexivity.
  - cbn [Nat.add executeWithRetry_from].
    destruct (Hretry 0%nat) as (e & He & Hre); [lia |].
    rewrite Nat.add_0_r in He. rewrite He, Hre. cbn [negb].
    rewrite IH.
    + replace (S first + k)%nat with (first + S k)%nat by lia.
      cbn [repeat]. rewrite <- app_assoc. reflexivity.
    + intros j Hj. destruct (Hretry (S j)) as (e' & He' & Hre'); [lia |].
      exists e'. split; [| exact Hre'].
      replace (S first + j)%nat with (first + S j)%nat by lia. exact He'.
Qed.

(** X7. [executeWithRetry] stops at the first attempt that is fulfilled or
    is rejected with an error that is not retryable, and after
    [maxRetries] + 1 attempts at the latest. When the attempts before
    number [k] are rejected with retryable errors: a fulfilled attempt [k]
    gives its response; an attempt [k] rejected with an error that is not
    retryable, or the last attempt rejected with any error, gives that
    error. One warning is logged per retry. *)
Theorem retry_stops_at_first_decisive_attempt (maxRetries : nat)
  (operation : nat -> Attempt) (log : list LogEntry) (k : nat) :
  (k <= maxRetries)%nat ->
  retryableFrom operation 0 k ->
  (forall r,
     operation k = Fulfilled r ->
     executeWithRetry maxRetries operation log =
     (Ok r,
      if (0 <? k)%nat
      then log ++ repeat retryWarning k ++
           [LogInfo "OpenAI request succeeded after retries"]
      else log))
  /\
  (forall e,
     operation k = Rejected e ->
     isRetryableError e = false \/ k = maxRetries ->
     executeWithRetry maxRetries operation log =
     (Throw (RequestFailed e),
      log ++ repeat retryWarning k ++ [permanentFailure e])).
Proof.
  intros Hk Hretry.
  assert (Hskip : forall lg,
            executeWithRetry maxRetries operation lg =
            executeWithRetry_from operation k (maxRetries - k)
              (lg ++ repeat retryWarning k)).
  { intros lg. unfold executeWithRetry.
    replace maxRetries with (k + (maxRetries - k))%nat at 1 by lia.
    rewrite executeWithRetry_from_skip by exact Hretry. reflexivity. }
  split.
  - intros r Hr. rewrite Hskip.
    destruct (maxRetries - k)%nat; cbn [executeWithRetry_from]; rewrite Hr;
      (destruct k as [| k']; cbn [Nat.ltb Nat.leb];
       [cbn [repeat]; now rewrite app_nil_r | now rewrite <- app_assoc]).
  - intros e He Hwhy. rewrite Hskip.
    destruct (maxRetries - k)%nat as [| left] eqn:Hleft;
      cbn [executeWithRetry_from]; rewrite He.
    + unfold permanentFailure. now rewrite <- app_assoc.
    + destruct Hwhy as [Hno | ->]; [| lia].
      rewrite Hno. cbn [negb]. unfold permanentFailure.
      now rewrite <- app_assoc.
Qed.

(** Two time-outs, then an answer. *)
Definition answersThirdTime (r : ChatCompletion) (attempt : nat) : Attempt :=
  if (attempt <? 2)%nat
  then Rejected {| err_message := "connect ETIMEDOUT";
                   err_type := None; err_status := None |}
  else Fulfilled r.

Lemma retry_stops_at_first_decisive_attempt_witness :
  fst (executeWithRetry 3
         (answersThirdTime {| choices := []; total_tokens := None |}) []) =
  Ok {| choices := []; total_tokens := None |}.
Proof.
  destruct (@retry_stops_at_first_decisive_attempt 3
              (answersThirdTime {| choices := []; total_tokens := None |})
              [] 2) as [Hok _].
  - lia.
  - intros j Hj. destruct j as [| [| j]]; [| | lia];
      (eexists; split; reflexivity).
  - rewrite (Hok _ eq_refl). reflexivity.
Defined.

(** The function call of the first choice of a response, with arguments
    that are present and not empty. *)
Definition usableArguments (r : ChatCompletion) : option string :=
  match choices r with
  | [] => None
  | c :: _ =>
      match message c with
      | None => None
      | Some m =>
          match function_call m with
          | None => None
          | Some fc =>
              match arguments fc with
              | None => None
              | Some args => if string_dec args "" then None else Some args
              end
          end
      end
  end.

(** On parsed arguments that [OpenAI.ParsedArguments] can render, the code
    followed with values and the code followed with typed lists give the
    same result and the same log. *)
Lemma values_agree_with_typed_lists
  (JSON_parse : string -> option ParsedArguments)
  (JSON_parse_value : string -> option OpenAIValues.JsValue)
  (maxRetries : nat) (operation : nat -> Attempt) (log : list LogEntry) :
  (forall args,
     OpenAIValues.typedView (JSON_parse args) (JSON_parse_value args)) ->
  forall resolutions log',
    generateConflictResolutions JSON_parse maxRetries operation log =
      (Ok resolutions, log') ->
    OpenAIValues.generateConflictResolutions JSON_parse_value maxRetries
      operation log =
      (Ok (OpenAIValues.ofResolutions resolutions), log').
Proof.
  intros Hview resolutions log'.
  unfold generateConflictResolutions, requestResolutions,
    OpenAIValues.generateConflictResolutions,
    OpenAIValues.requestResolutions.
  destruct (executeWithRetry maxRetries operation log) as [[r | e] log1];
    [| now intros [= <- <-]].
  destruct (choices r) as [| c cs]; [now intros [= <- <-] |].
  destruct (message c) as [m |]; [| now intros [= <- <-]].
  destruct (function_call m) as [fc |]; [| now intros [= <- <-]].
  destruct (arguments fc) as [args |]; [| now intros [= <- <-]].
  destruct (string_dec args ""); [now intros [= <- <-] |].
  specialize (Hview args). unfold OpenAIValues.typedView in Hview.
  destruct (JSON_parse args) as [[l |] |],
           (JSON_parse_value args) as [value |];
    try contradiction.
  - rewrite Hview. cbn. now intros [= <- <-].
  - destruct Hview as [-> | [-> | ->]]; cbn; now intros [= <- <-].
  - now intros [= <- <-].
Qed.

(** X8. [generateConflictResolutions] always returns. What it returns is
    either the value that [JSON.parse] found under [resolutions] in the
    arguments of the function call of the first choice of the response,
    as it is, or the fallback alone. The value is returned whatever it is,
    [null] apart: an empty list is returned as the empty list, not as the
    fallback, and a number or a string is returned as that number or
    string. The fallback is returned when the request fails, when the
    response has no usable arguments, when they do not parse, and when
    nothing or [null] is found under [resolutions]. *)
Theorem resolutions_are_parsed_or_fallback
  (JSON_parse : string -> option OpenAIValues.JsValue) (maxRetries : nat)
  (operation : nat -> Attempt) (log : list LogEntry) :
  (exists returned log',
     OpenAIValues.generateConflictResolutions JSON_parse maxRetries
       operation log = (Ok returned, log') /\
     (returned = OpenAIValues.fallbackResolutions \/
      exists r log1 args parsed,
        executeWithRetry maxRetries operation log = (Ok r, log1) /\
        usableArguments r = Some args /\
        JSON_parse args = Some parsed /\
        OpenAIValues.destructureResolutions parsed = Ok (Some returned) /\
        returned <> OpenAIValues.JNull))
  /\
  (forall r log1 args parsed resolutions,
     executeWithRetry maxRetries operation log = (Ok r, log1) ->
     usableArguments r = Some args ->
     JSON_parse args = Some parsed ->
     OpenAIValues.destructureResolutions parsed = Ok (Some resolutions) ->
     resolutions <> OpenAIValues.JNull ->
     OpenAIValues.generateConflictResolutions JSON_parse maxRetries
       operation log =
     (Ok resolutions,
      log1 ++ [LogInfo "Conflict resolution suggestions generated"]))
  /\
  (forall e log1,
     executeWithRetry maxRetries operation log = (Throw e, log1) ->
     fst (OpenAIValues.generateConflictResolutions JSON_parse maxRetries
            operation log) = Ok OpenAIValues.fallbackResolutions)
  /\
  (forall r log1,
     executeWithRetry maxRetries operation log = (Ok r, log1) ->
     (forall args parsed resolutions,
        usableArguments r = Some args ->
        JSON_parse args = Some parsed ->
        OpenAIValues.destructureResolutions parsed = Ok (Some resolutions) ->
        resolutions = OpenAIValues.JNull) ->
     fst (OpenAIValues.generateConflictResolutions JSON_parse maxRetries
            operation log) = Ok OpenAIValues.fallbackResolutions).
Proof.
  assert (Hrun : forall r log1,
            executeWithRetry maxRetries operation log = (Ok r, log1) ->
            OpenAIValues.generateConflictResolutions JSON_parse maxRetries
              operation log =
            match usableArguments r with
            | None =>
                (Ok OpenAIValues.fallbackResolutions,
                 log1 ++ [LogError "Conflict resolution generation failed"
                            InvalidResponseFormat])
            | Some args =>
                match JSON_parse args with
                | None =>
                    (Ok OpenAIValues.fallbackResolutions,
                     log1 ++ [LogError "Conflict resolution generation failed"
                                SyntaxError])
                | Some parsed =>
                    match OpenAIValues.destructureResolutions parsed with
                    | Ok (Some OpenAIValues.JNull) | Ok None | Throw _ =>
                        (Ok OpenAIValues.fallbackResolutions,
                         log1 ++
                         [LogError "Conflict resolution generation failed"
                            TypeError])
                    | Ok (Some value) =>
                        (Ok value,
                         log1 ++
                         [LogInfo "Conflict resolution suggestions generated"])
                    end
                end
            end).
  { intros r log1 Hexec.
    unfold OpenAIValues.generateConflictResolutions,
      OpenAIValues.requestResolutions, usableArguments.
    rewrite Hexec.
    destruct (choices r) as [| c cs]; [reflexivity |].
    destruct (message c) as [m |]; [| reflexivity].
    destruct (function_call m) as [fc |]; [| reflexivity].
    destruct (arguments fc) as [args |]; [| reflexivity].
    destruct (string_dec args ""); [reflexivity |].
    destruct (JSON_parse args) as [parsed |]; [| reflexivity].
    destruct parsed as [| b | n0 | s | items | properties];
      try reflexivity.
    cbn [OpenAIValues.destructureResolutions].
    destruct (JsMap.get string_dec "resolutions" properties) as [value |];
      [| reflexivity].
    destruct value; reflexivity. }
  split; [| split; [| split]].
  - destruct (executeWithRetry maxRetries operation log) as [[r | e] log1]
      eqn:Hexec.
    + rewrite (Hrun r log1 eq_refl).
      destruct (usableArguments r) as [args |] eqn:Hargs;
        [| eexists; eexists; split; [reflexivity | now left]].
      destruct (JSON_parse args) as [parsed |] eqn:Hparse;
        [| eexists; eexists; split; [reflexivity | now left]].
      destruct (OpenAIValues.destructureResolutions parsed)
        as [[value |] | e] eqn:Hfound;
        try (eexists; eexists; split; [reflexivity | now left]).
      destruct value;
        try (eexists; eexists; split; [reflexivity | now left]);
        (eexists; eexists; split; [reflexivity |]; right;
         exists r, log1, args, parsed;
         repeat split; try assumption; discriminate).
    + unfold OpenAIValues.generateConflictResolutions,
        OpenAIValues.requestResolutions.
      rewrite Hexec. eexists; eexists; split; [reflexivity | now left].
  - intros r log1 args parsed resolutions Hexec Hargs Hparse Hfound Hnot.
    rewrite (Hrun r log1 Hexec), Hargs, Hparse, Hfound.
    destruct resolutions; [contradiction | reflexivity ..].
  - intros e log1 Hexec.
    unfold OpenAIValues.generateConflictResolutions,
      OpenAIValues.requestResolutions.
    rewrite Hexec. reflexivity.
  - intros r log1 Hexec Hnothing.
    rewrite (Hrun r log1 Hexec).
    destruct (usableArguments r) as [args |]; [| reflexivity].
    destruct (JSON_parse args) as [parsed |] eqn:Hparse; [| reflexivity].
    destruct (OpenAIValues.destructureResolutions parsed)
      as [[value |] | e] eqn:Hfound; try reflexivity.
    rewrite (Hnothing args parsed value eq_refl Hparse Hfound).
    reflexivity.
Qed.

(** The arguments [{"resolutions":5}], and a response that carries them. *)
Definition quote : string := String (ascii_of_nat 34) EmptyString.

Definition numberArguments : string :=
  "{" ++ quote ++ "resolutions" ++ quote ++ ":5}".

Definition numberAnswer : ChatCompletion :=
  {| choices :=
       [ {| message :=
              Some {| function_call :=
                        Some {| fc_name := "generate_resolutions";
                                arguments := Some numberArguments |} |} |} ];
     total_tokens := Some 42%Z |}.

(** [JSON.parse] on [numberArguments]; the other texts are not needed. *)
Definition parseNumberArguments (text : string)
  : option OpenAIValues.JsValue :=
  if string_dec text numberArguments
  then Some (OpenAIValues.JObject [("resolutions", OpenAIValues.JNumber 5)])
  else None.

(** The number found under [resolutions] is what the caller receives. *)
Lemma resolutions_are_parsed_or_fallback_witness :
  fst (OpenAIValues.generateConflictResolutions parseNumberArguments 3
         (fun _ => Fulfilled numberAnswer) []) =
  Ok (OpenAIValues.JNumber 5).
Proof.
  destruct (resolutions_are_parsed_or_fallback parseNumberArguments 3
              (fun _ => Fulfilled numberAnswer) []) as [_ [Hparsed _]].
  rewrite (Hparsed numberAnswer [] numberArguments
             (OpenAIValues.JObject
                [("resolutions", OpenAIValues.JNumber 5)])
             (OpenAIValues.JNumber 5)
             eq_refl eq_refl eq_refl eq_refl
             ltac:(discriminate)).
  reflexivity.
Defined.

End OpenAIMore.

(** ** Severity, separation and prediction *)

Module ConflictMore.
Import Types Conflict MathFacts ConflictProps.

Local Open Scope string_scope.
Local Open Scope list_scope.
Local Open Scope R_scope.

(** The rank of a severity level, from LOW to CRITICAL. *)
Definition rank (l : SeverityLevel) : nat :=
  match l with LOW => 0 | MEDIUM => 1 | HIGH => 2 | CRITICAL => 3 end.

Lemma severity_cases (separation timeToConflict : R) :
  (separation < 1 /\ timeToConflict < 60 /\
   calculateSeverity separation timeToConflict = CRITICAL) \/
  (~ (separation < 1 /\ timeToConflict < 60) /\
   separation < 2 /\ timeToConflict < 120 /\
   calculateSeverity separation timeToConflict = HIGH) \/
  (~ (separation < 2 /\ timeToConflict < 120) /\
   separation < 3 /\ timeToConflict < 180 /\
   calculateSeverity separation timeToConflict = MEDIUM) \/
  (~ (separation < 3 /\ timeToConflict < 180) /\
   calculateSeverity separation timeToConflict = LOW).
Proof.
  unfold calculateSeverity, Rltb.
  destruct (Rlt_dec separation 1); destruct (Rlt_dec timeToConflict 60);
    destruct (Rlt_dec separation 2); destruct (Rlt_dec timeToConflict 120);
    destruct (Rlt_dec separation 3); destruct (Rlt_dec timeToConflict 180);
    cbn [andb]; try lra; intuition lra.
Qed.

(** X9. The severity never decreases when the separation and the time to
    conflict both shrink. It is CRITICAL exactly below 1 NM and 60 s, and
    LOW exactly when the separation is not below 3 NM or the time is not
    below 180 s; so a conflict closer than 3 NM is LOW exactly when it is
    at least 180 s away. *)
Theorem severity_grows_as_conflict_nears (separation timeToConflict : R) :
  (forall separation' timeToConflict',
     separation' <= separation -> timeToConflict' <= timeToConflict ->
     (rank (calculateSeverity separation timeToConflict) <=
      rank (calculateSeverity separation' timeToConflict'))%nat)
  /\
  (calculateSeverity separation timeToConflict = CRITICAL <->
   separation < 1 /\ timeToConflict < 60)
  /\
  (calculateSeverity separation timeToConflict = LOW <->
   ~ (separation < 3 /\ timeToConflict < 180))
  /\
  (separation < 3 ->
   (calculateSeverity separation timeToConflict = LOW <->
    180 <= timeToConflict)).
Proof.
  pose proof (severity_cases separation timeToConflict) as H.
  split; [| split; [| split]].
  - intros separation' timeToConflict' Hs Ht.
    pose proof (severity_cases separation' timeToConflict') as H'.
    destruct H as [(? & ? & ->) | [(? & ? & ? & ->) | [(? & ? & ? & ->) | (? & ->)]]];
      destruct H' as [(? & ? & ->) | [(? & ? & ? & ->) | [(? & ? & ? & ->) | (? & ->)]]];
      cbn [rank]; try lia; exfalso; intuition lra.
  - destruct H as [(? & ? & ->) | [(? & ? & ? & ->) | [(? & ? & ? & ->) | (? & ->)]]];
      split; intros; try discriminate; try tauto; exfalso; intuition lra.
  - destruct H as [(? & ? & ->) | [(? & ? & ? & ->) | [(? & ? & ? & ->) | (? & ->)]]];
      split; intros; try discriminate; try tauto; exfalso; intuition lra.
  - intros Hsep.
    destruct H as [(? & ? & ->) | [(? & ? & ? & ->) | [(? & ? & ? & ->) | (? & ->)]]];
      split; intros; try discriminate; try reflexivity; try lra;
      exfalso; intuition lra.
Qed.

Lemma severity_grows_as_conflict_nears_witness :
  (rank (calculateSeverity (25 / 10) 150) <=
   rank (calculateSeverity (5 / 10) 30))%nat.
Proof.
  destruct (severity_grows_as_conflict_nears (25 / 10) 150) as [Hmono _].
  apply Hmono; lra.
Defined.

(** *** The separation of two positions *)

Lemma atan2_quadrant (a b : R) :
  0 <= a -> 0 <= b -> 0 <= Math_atan2 a b <= PI / 2.
Proof.
  intros Ha Hb. pose proof PI_RGT_0 as Hpi. unfold Math_atan2.
  destruct (Rlt_dec 0 b) as [Hb' | Hb'].
  - pose proof (atan_bound (a / b)) as Hbound.
    split; [| lra].
    destruct (Req_dec a 0) as [-> | Hne].
    + replace (0 / b) with 0 by (field; lra). rewrite atan_0. lra.
    + assert (0 < a / b) by (apply Rdiv_lt_0_compat; lra).
      assert (atan 0 < atan (a / b)) by (now apply atan_increasing).
      rewrite atan_0 in *. lra.
  - destruct (Rlt_dec b 0); [lra |].
    destruct (Rlt_dec 0 a); [lra |].
    destruct (Rlt_dec a 0); lra.
Qed.

Lemma horizontal_distance_sym (p q : Position3D) :
  calculateHorizontalDistance p q = calculateHorizontalDistance q p.
Proof.
  unfold calculateHorizontalDistance.
  replace ((latitude p - latitude q) * PI / 180 / 2)
    with (- ((latitude q - latitude p) * PI / 180 / 2)) by field.
  replace ((longitude p - longitude q) * PI / 180 / 2)
    with (- ((longitude q - longitude p) * PI / 180 / 2)) by field.
  rewrite !sin_neg.
  set (u := sin ((latitude q - latitude p) * PI / 180 / 2)).
  set (w := sin ((longitude q - longitude p) * PI / 180 / 2)).
  set (c1 := cos (latitude p * PI / 180)).
  set (c2 := cos (latitude q * PI / 180)).
  replace (- u * - u + c2 * c1 * - w * - w) with (u * u + c1 * c2 * w * w)
    by ring.
  reflexivity.
Qed.

(** X10. The combined separation is symmetric in the two positions, is
    never negative, is zero between a position and itself, and is at least
    the horizontal distance and at least the vertical separation in
    nautical miles. The horizontal distance lies between 0 and half the
    circumference of the sphere of radius 3440.065 NM. The type of a
    conflict does not depend on the order of the two aircraft either. *)
Theorem separation_is_a_symmetric_distance (p q : Position3D)
  (aircraft1 aircraft2 : Aircraft) :
  totalSeparation p q = totalSeparation q p /\
  0 <= totalSeparation p q /\
  totalSeparation p p = 0 /\
  calculateHorizontalDistance p q <= totalSeparation p q /\
  Rabs (altitude p - altitude q) / (607612 / 100) <= totalSeparation p q /\
  0 <= calculateHorizontalDistance p q <= 3440065 / 1000 * PI /\
  determineConflictType aircraft1 aircraft2 p q =
  determineConflictType aircraft2 aircraft1 q p.
Proof.
  assert (Hh : 0 <= calculateHorizontalDistance p q <= 3440065 / 1000 * PI).
  { unfold calculateHorizontalDistance.
    match goal with
    | |- context [Math_atan2 (sqrt ?a) (sqrt ?b)] =>
        pose proof (atan2_quadrant (sqrt_pos a) (sqrt_pos b)) as Hq
    end.
    pose proof PI_RGT_0. split; nra. }
  assert (Hv : 0 <= Rabs (altitude p - altitude q) / (607612 / 100)).
  { pose proof (Rabs_pos (altitude p - altitude q)).
    apply Rmult_le_pos; [assumption |].
    apply Rlt_le, Rinv_0_lt_compat. lra. }
  split; [| split; [| split; [| split; [| split; [| split]]]]].
  - unfold totalSeparation.
    rewrite (horizontal_distance_sym p q).
    rewrite (Rabs_minus_sym (altitude p) (altitude q)). reflexivity.
  - apply totalSeparation_nonneg.
  - now apply totalSeparation_same.
  - unfold totalSeparation.
    rewrite <- (sqrt_pow2 (calculateHorizontalDistance p q)) at 1 by tauto.
    apply sqrt_le_1_alt.
    pose proof (pow2_ge_0 (Rabs (altitude p - altitude q) / (607612 / 100))).
    lra.
  - unfold totalSeparation.
    rewrite <- (sqrt_pow2 (Rabs (altitude p - altitude q) / (607612 / 100)))
      at 1 by exact Hv.
    apply sqrt_le_1_alt.
    pose proof (pow2_ge_0 (calculateHorizontalDistance p q)). lra.
  - exact Hh.
  - unfold determineConflictType.
    rewrite (Rabs_minus_sym (altitude p) (altitude q)).
    destruct (Rltb (Rabs (altitude q - altitude p)) 500); [reflexivity |].
    now rewrite orb_comm.
Qed.

(** *** The samples of a prediction *)

Lemma predictLoop_length (ac : Aircraft) (maxTime : R) :
  forall (fuel : nat) (t : Z),
    (List.length (predictLoop fuel ac maxTime t) <= fuel)%nat.
Proof.
  induction fuel as [| fuel IH]; intros t; cbn [predictLoop].
  - apply Nat.le_refl.
  - destruct (Rle_dec (IZR t) maxTime); cbn [List.length].
    + specialize (IH (t + 10)%Z). lia.
    + lia.
Qed.

Lemma predictLoop_sample (ac : Aircraft) (maxTime : R) :
  forall (fuel : nat) (t : Z) (k : nat) (p : Position3D),
    nth_error (predictLoop fuel ac maxTime t) k = Some p ->
    IZR (t + 10 * Z.of_nat k) <= maxTime /\
    p = predictedPosition ac (t + 10 * Z.of_nat k).
Proof.
  induction fuel as [| fuel IH]; intros t k p H; cbn [predictLoop] in H.
  - destruct k; discriminate H.
  - destruct (Rle_dec (IZR t) maxTime) as [Ht | Ht].
    + destruct k as [| k]; cbn [nth_error] in H.
      * injection H as <-.
        replace (t + 10 * Z.of_nat 0)%Z with t by lia. tauto.
      * apply IH in H.
        replace (t + 10 * Z.of_nat (S k))%Z
          with (t + 10 + 10 * Z.of_nat k)%Z by lia.
        exact H.
    + destruct k; discriminate H.
Qed.

Lemma predicted_reaches (o : Oracle) (s : Service) (ac : Aircraft) (k : nat) :
  (k < List.length (predictedPositions (predicted o s ac)))%nat <->
  IZR (10 * Z.of_nat k) <= timeHorizon (separationStandards s).
Proof.
  split.
  - intros Hk. apply nth_error_Some in Hk.
    destruct (nth_error (predictedPositions (predicted o s ac)) k)
      as [p |] eqn:Hp; [| congruence].
    unfold predicted in Hp; cbn [predictedPositions] in Hp.
    apply predictLoop_sample in Hp. now rewrite Z.add_0_l in Hp.
  - intros Hle. apply nth_error_Some.
    destruct (predicted_sample o s ac k Hle) as [-> _]. discriminate.
Qed.

Lemma predicted_negative_horizon (o : Oracle) (s : Service) (ac : Aircraft) :
  timeHorizon (separationStandards s) < 0 ->
  predictedPositions (predicted o s ac) = [] /\
  timeStamps (predicted o s ac) = [].
Proof.
  intros Hneg.
  assert (E : predictedPositions (predicted o s ac) = []).
  { pose proof (proj1 (predicted_reaches o s ac 0)) as H0.
    destruct (predictedPositions (predicted o s ac)) as [| p ps];
      [reflexivity |].
    cbn [List.length Z.of_nat Z.mul] in H0.
    specialize (H0 (Nat.lt_0_succ _)). lra. }
  split; [exact E |].
  unfold predicted in *; cbn [timeStamps predictedPositions] in *.
  now rewrite E.
Qed.

(** X11. A prediction is always produced, after two readings of the
    clock. It has one time stamp per position; sample number k exists
    exactly when 10 k seconds do not exceed the time horizon, is the
    linear extrapolation over 10 k seconds, and is stamped with the
    aircraft's last update plus 10 k seconds. The first sample, when
    there is one, is the current position stamped with the aircraft's
    last update (not with the position's own time stamp); a negative
    horizon gives a prediction without samples. *)
Theorem prediction_is_sampled_every_ten_seconds (o : Oracle) (s : Service)
  (ac : Aircraft) :
  exists prediction,
    predictTrajectory o ac s = (Returns prediction, tick (tick s)) /\
    aircraft prediction = ac /\
    List.length (timeStamps prediction) =
    List.length (predictedPositions prediction) /\
    (forall k,
       (k < List.length (predictedPositions prediction))%nat <->
       IZR (10 * Z.of_nat k) <= timeHorizon (separationStandards s)) /\
    (forall k,
       (k < List.length (predictedPositions prediction))%nat ->
       nth_error (predictedPositions prediction) k =
         Some (predictedPosition ac (10 * Z.of_nat k)) /\
       nth_error (timeStamps prediction) k =
         Some (lastUpdate ac + 10 * Z.of_nat k * 1000)%Z) /\
    (forall first,
       nth_error (predictedPositions prediction) 0 = Some first ->
       latitude first = latitude (currentPosition ac) /\
       altitude first = altitude (currentPosition ac) /\
       (cos (latitude (currentPosition ac) * PI / 180) <> 0 ->
        longitude first = longitude (currentPosition ac)) /\
       timestamp first = lastUpdate ac) /\
    (timeHorizon (separationStandards s) < 0 ->
     predictedPositions prediction = [] /\ timeStamps prediction = []).
Proof.
  exists (predicted o s ac).
  split; [apply predictTrajectory_eval |].
  split; [reflexivity |].
  split; [unfold predicted; cbn [timeStamps predictedPositions];
          apply length_map |].
  split; [intros k; apply predicted_reaches |].
  split; [intros k Hk; apply predicted_sample;
          exact (proj1 (predicted_reaches o s ac k) Hk) |].
  split; [| apply predicted_negative_horizon].
  intros first Hfirst.
  assert (H0 : (0 < List.length (predictedPositions (predicted o s ac)))%nat).
  { apply nth_error_Some. congruence. }
  apply (proj1 (predicted_reaches o s ac 0)) in H0.
  destruct (predicted_sample o s ac 0 H0) as [Hp _].
  rewrite Hp in Hfirst. injection Hfirst as <-.
  unfold predictedPosition.
  cbn [latitude longitude altitude timestamp Z.of_nat Z.mul].
  repeat split.
  - unfold Rdiv. rewrite Rmult_0_r, Rmult_0_l. apply Rplus_0_r.
  - rewrite Rmult_0_r, Rmult_0_l. apply Rplus_0_r.
  - intros _. unfold Rdiv. rewrite Rmult_0_r, Rmult_0_l. apply Rplus_0_r.
  - lia.
Qed.

(** *** The predictions of a cycle *)

(** A run of the loop body that returns has put one prediction for the
    aircraft both in the result and in the cache, and has left the other
    entries of the cache alone. *)
Lemma generateFor_sets (o : Oracle) (ac : Aircraft)
  (predictions predictions' : JsMap.t string TrajectoryPrediction)
  (s s' : Service) :
  generateFor o ac predictions s = (Returns predictions', s') ->
  exists p,
    predictions' = JsMap.set string_dec (callsign ac) p predictions /\
    JsMap.get string_dec (callsign ac) (trajectoryCache s') = Some p /\
    forall k, k <> callsign ac ->
      JsMap.get string_dec k (trajectoryCache s') =
      JsMap.get string_dec k (trajectoryCache s).
Proof.
  intros H.
  destruct (JsMap.get string_dec (callsign ac) (trajectoryCache s))
    as [cached |] eqn:Hget.
  - destruct (timeStamps cached) as [| first later] eqn:Hts.
    + exfalso. unfold generateFor in H.
      unfold bind at 1 in H. cbn [getService] in H. rewrite Hget in H.
      unfold bind at 1 in H. unfold isTrajectoryValid in H.
      unfold bind at 1 in H. cbn [dateNow] in H. rewrite Hts in H.
      discriminate H.
    + destruct (Z_lt_ge_dec (Date_now o (clockReads s) - first) 30000)
        as [Hage | Hage].
      * rewrite (generateFor_reuses o ac predictions s Hget Hts Hage) in H.
        injection H as <- <-. exists cached.
        split; [reflexivity |]. split; [exact Hget |]. reflexivity.
      * rewrite (generateFor_recomputes o ac predictions s Hget Hts Hage) in H.
        injection H as <- <-. exists (predicted o (tick s) ac).
        split; [reflexivity |]. cbn [withCache trajectoryCache].
        split; [apply JsMapFacts.get_set_same |].
        intros k Hk. now apply JsMapFacts.get_set_other.
  - rewrite (generateFor_fresh o ac predictions s Hget) in H.
    injection H as <- <-. exists (predicted o s ac).
    split; [reflexivity |]. cbn [withCache trajectoryCache].
    split; [apply JsMapFacts.get_set_same |].
    intros k Hk. now apply JsMapFacts.get_set_other.
Qed.

Lemma generateLoop_covers (o : Oracle) (aircraft : list Aircraft) :
  forall (predictions predictions' : JsMap.t string TrajectoryPrediction)
         (s s' : Service),
    generateLoop o aircraft predictions s = (Returns predictions', s') ->
    (forall k p, JsMap.get string_dec k predictions = Some p ->
                 JsMap.get string_dec k (trajectoryCache s) = Some p) ->
    (forall k p, JsMap.get string_dec k predictions' = Some p ->
                 JsMap.get string_dec k (trajectoryCache s') = Some p) /\
    (forall k, JsMap.get string_dec k predictions <> None ->
               JsMap.get string_dec k predictions' <> None) /\
    (forall ac, In ac aircraft ->
                JsMap.get string_dec (callsign ac) predictions' <> None) /\
    (forall k, JsMap.get string_dec k predictions' <> None ->
               JsMap.get string_dec k predictions <> None \/
               exists ac, In ac aircraft /\ callsign ac = k).
Proof.
  induction aircraft as [| ac rest IH]; intros predictions predictions' s s' H Hsync.
  - injection H as <- <-.
    split; [exact Hsync |]. split; [tauto |].
    split; [intros ac [] | tauto].
  - cbn [generateLoop] in H. unfold bind at 1 in H.
    destruct (generateFor o ac predictions s) as [[p1 | e] s1] eqn:Hfor;
      [| discriminate H].
    destruct (generateFor_sets _ _ _ _ Hfor) as (p & -> & Hcache & Hother).
    assert (Hsync1 : forall k q,
      JsMap.get string_dec k (JsMap.set string_dec (callsign ac) p predictions)
        = Some q ->
      JsMap.get string_dec k (trajectoryCache s1) = Some q).
    { intros k q Hq. destruct (string_dec k (callsign ac)) as [-> | Hne].
      - rewrite JsMapFacts.get_set_same in Hq. congruence.
      - rewrite JsMapFacts.get_set_other in Hq by exact Hne.
        rewrite Hother by exact Hne. now apply Hsync. }
    destruct (IH _ _ _ _ H Hsync1) as (Hs & Hkeep & Hcov & Honly).
    split; [exact Hs |]. split; [| split].
    + intros k Hk. apply Hkeep.
      destruct (string_dec k (callsign ac)) as [-> | Hne].
      * rewrite JsMapFacts.get_set_same. discriminate.
      * now rewrite JsMapFacts.get_set_other.
    + intros a [<- | Ha]; [| now apply Hcov].
      apply Hkeep. rewrite JsMapFacts.get_set_same. discriminate.
    + intros k Hk. destruct (Honly k Hk) as [Hin | (a & Ha & <-)].
      * destruct (string_dec k (callsign ac)) as [-> | Hne].
        -- right. exists ac. split; [now left | reflexivity].
        -- left. now rewrite JsMapFacts.get_set_other in Hin.
      * right. exists a. split; [now right | reflexivity].
Qed.

(** X12. When the predictions of a cycle are returned, every aircraft of
    the list has one under its callsign, so that the pairwise detection
    of the same cycle never finds a trajectory missing; the result has no
    other key, and every prediction it holds is the entry of the cache
    under the same callsign. *)
Theorem every_active_aircraft_gets_a_prediction (o : Oracle)
  (aircraft : list Aircraft) (s s' : Service)
  (predictions : JsMap.t string TrajectoryPrediction) :
  generateTrajectoryPredictions o aircraft s = (Returns predictions, s') ->
  (forall ac, In ac aircraft ->
     exists p,
       JsMap.get string_dec (callsign ac) predictions = Some p /\
       JsMap.get string_dec (callsign ac) (trajectoryCache s') = Some p) /\
  (forall k p, JsMap.get string_dec k predictions = Some p ->
     JsMap.get string_dec k (trajectoryCache s') = Some p /\
     exists ac, In ac aircraft /\ callsign ac = k).
Proof.
  intros H. unfold generateTrajectoryPredictions in H.
  destruct (@generateLoop_covers o aircraft [] predictions s s' H)
    as (Hsync & _ & Hcov & Honly); [intros k p Hk; discriminate Hk |].
  split.
  - intros ac Hac. specialize (Hcov ac Hac).
    destruct (JsMap.get string_dec (callsign ac) predictions) as [p |] eqn:Hp;
      [| congruence].
    exists p. split; [reflexivity |]. now apply Hsync.
  - intros k p Hk. split; [now apply Hsync |].
    destruct (Honly k) as [Hnil | Hex]; [congruence | | exact Hex].
    exfalso. apply Hnil. reflexivity.
Qed.

Lemma every_active_aircraft_gets_a_prediction_witness :
  (forall ac, In ac [eastbound; westbound] ->
     exists p,
       JsMap.get string_dec (callsign ac) bothPredictions = Some p /\
       JsMap.get string_dec (callsign ac)
         (trajectoryCache (svc [] [] bothPredictions 6 0)) = Some p) /\
  (forall k p, JsMap.get string_dec k bothPredictions = Some p ->
     JsMap.get string_dec k
       (trajectoryCache (svc [] [] bothPredictions 6 0)) = Some p /\
     exists ac, In ac [eastbound; westbound] /\ callsign ac = k).
Proof.
  exact (@every_active_aircraft_gets_a_prediction watch [eastbound; westbound]
           (tick (tick started)) (svc [] [] bothPredictions 6 0)
           bothPredictions first_cycle_predictions).
Defined.

(** *** A cached prediction without samples *)

Lemma generateFor_throws (o : Oracle) (ac : Aircraft)
  (predictions : JsMap.t string TrajectoryPrediction) (s : Service)
  (cached : TrajectoryPrediction) :
  JsMap.get string_dec (callsign ac) (trajectoryCache s) = Some cached ->
  timeStamps cached = [] ->
  generateFor o ac predictions s = (Throws TypeError, tick s).
Proof.
  intros Hget Hts. unfold generateFor.
  unfold bind at 1. cbn [getService]. rewrite Hget.
  unfold bind at 1. unfold isTrajectoryValid.
  unfold bind at 1. cbn [dateNow]. rewrite Hts. reflexivity.
Qed.

Lemma generateLoop_throws (o : Oracle) (aircraft : list Aircraft) :
  forall (predictions : JsMap.t string TrajectoryPrediction) (s : Service)
         (ac : Aircraft) (cached : TrajectoryPrediction),
    In ac aircraft ->
    JsMap.get string_dec (callsign ac) (trajectoryCache s) = Some cached ->
    timeStamps cached = [] ->
    exists s', generateLoop o aircraft predictions s = (Throws TypeError, s').
Proof.
  induction aircraft as [| a rest IH];
    intros predictions s ac cached Hin Hget Hts; [destruct Hin |].
  cbn [generateLoop]. unfold bind at 1.
  destruct (string_dec (callsign a) (callsign ac)) as [E | Hne].
  - assert (Hget' : JsMap.get string_dec (callsign a) (trajectoryCache s)
                    = Some cached) by (rewrite E; exact Hget).
    rewrite (@generateFor_throws o a predictions s cached Hget' Hts).
    eexists. reflexivity.
  - destruct (generateFor o a predictions s) as [[p1 | e] s1] eqn:Hfor.
    + destruct Hin as [<- | Hin]; [congruence |].
      destruct (generateFor_sets _ _ _ _ Hfor) as (p & -> & _ & Hother).
      apply (IH _ s1 ac cached Hin); [| exact Hts].
      rewrite Hother by congruence. exact Hget.
    + exists s1. destruct e. reflexivity.
Qed.

(** X13. Under a negative time horizon the first prediction of an
    aircraft has no samples and is cached all the same. From then on,
    whatever the horizon, every cycle in which that aircraft is one of
    two or more active aircraft fails with a TypeError while the cache
    still holds that entry (the age check reads the first time stamp of
    the cached prediction), and leaves the active conflicts as they
    were. *)
Theorem negative_horizon_breaks_later_cycles (o : Oracle) (s : Service)
  (ac : Aircraft) (predictions : JsMap.t string TrajectoryPrediction) :
  timeHorizon (separationStandards s) < 0 ->
  JsMap.get string_dec (callsign ac) (trajectoryCache s) = None ->
  exists predictions' s1 cached,
    generateFor o ac predictions s = (Returns predictions', s1) /\
    JsMap.get string_dec (callsign ac) predictions' = Some cached /\
    JsMap.get string_dec (callsign ac) (trajectoryCache s1) = Some cached /\
    predictedPositions cached = [] /\
    forall (s2 : Service) (aircraft : list Aircraft),
      let active :=
        filter (isActive (Date_now o (S (clockReads s2)))) aircraft in
      JsMap.get string_dec (callsign ac) (trajectoryCache s2) = Some cached ->
      In ac active ->
      (2 <= List.length active)%nat ->
      exists s3,
        detectConflicts o aircraft s2 = (Throws TypeError, s3) /\
        activeConflicts s3 = activeConflicts s2.
Proof.
  intros Hneg Hnone.
  destruct (predicted_negative_horizon o s ac Hneg) as [Hpos Hts].
  exists (JsMap.set string_dec (callsign ac) (predicted o s ac) predictions),
         (withCache (JsMap.set string_dec (callsign ac) (predicted o s ac)
                       (trajectoryCache s)) (tick (tick s))),
         (predicted o s ac).
  split; [now apply generateFor_fresh |].
  split; [apply JsMapFacts.get_set_same |].
  split; [cbn [withCache trajectoryCache]; apply JsMapFacts.get_set_same |].
  split; [exact Hpos |].
  intros s2 aircraft active Hc Hin Hlen.
  unfold detectConflicts.
  unfold bind at 1. cbn [dateNow].
  unfold bind at 1. unfold filterActiveAircraft at 1.
  unfold bind at 1. cbn [dateNow ret clockReads].
  fold active.
  destruct (List.length active <? 2)%nat eqn:Hlt;
    [apply Nat.ltb_lt in Hlt; lia |].
  unfold bind at 1. unfold generateTrajectoryPredictions.
  match goal with
  | |- context [generateLoop o active [] ?s0] =>
      destruct (@generateLoop_throws o active [] s0 ac (predicted o s ac)
                  Hin Hc Hts) as [s3 Hthrow];
      pose proof (@keepsActive_generateLoop o active [] s0 _ _ Hthrow) as Hact
  end.
  rewrite Hthrow. exists s3. split; [reflexivity | exact Hact].
Qed.

(** A service whose configured time horizon is negative. *)
Definition backwards : Service :=
  {| isRunning := true; activeConflicts := []; conflictHistory := [];
     trajectoryCache := [];
     separationStandards :=
       {| horizontalSeparation := 3; verticalSeparation := 1000;
          timeHorizon := -1;
          alertThresholds := alertThresholds defaultSeparationStandards |};
     clockReads := 0; randomDraws := 0 |}.

Lemma negative_horizon_breaks_later_cycles_witness :
  exists predictions' s1 cached,
    generateFor watch eastbound [] backwards = (Returns predictions', s1) /\
    JsMap.get string_dec (callsign eastbound) predictions' = Some cached /\
    JsMap.get string_dec (callsign eastbound) (trajectoryCache s1)
      = Some cached /\
    predictedPositions cached = [] /\
    forall (s2 : Service) (aircraft : list Aircraft),
      let active :=
        filter (isActive (Date_now watch (S (clockReads s2)))) aircraft in
      JsMap.get string_dec (callsign eastbound) (trajectoryCache s2)
        = Some cached ->
      In eastbound active ->
      (2 <= List.length active)%nat ->
      exists s3,
        detectConflicts watch aircraft s2 = (Throws TypeError, s3) /\
        activeConflicts s3 = activeConflicts s2.
Proof.
  apply (@negative_horizon_breaks_later_cycles watch backwards eastbound []).
  - cbn [backwards separationStandards timeHorizon]. lra.
  - reflexivity.
Defined.

(** *** Cycles with fewer than two active aircraft *)

(** X14. When fewer than two aircraft pass the filter, the cycle returns
    the empty list after two readings of the clock and changes nothing
    else: no prediction is made, and the conflicts that are active stay
    in the table as they are, none of them being resolved, although they
    are not returned. *)
Theorem fewer_than_two_active_aircraft_changes_nothing (o : Oracle)
  (aircraft : list Aircraft) (s : Service) :
  (List.length (filter (isActive (Date_now o (S (clockReads s)))) aircraft)
   < 2)%nat ->
  detectConflicts o aircraft s = (Returns [], tick (tick s)).
Proof.
  intros Hlt. apply Nat.ltb_lt in Hlt.
  unfold detectConflicts.
  unfold bind at 1. cbn [dateNow].
  unfold bind at 1. unfold filterActiveAircraft at 1.
  unfold bind at 1. cbn [dateNow ret clockReads].
  rewrite Hlt. reflexivity.
Qed.

Lemma fewer_than_two_active_aircraft_changes_nothing_witness :
  detectConflicts watch [eastbound] afterFirst =
    (Returns [], tick (tick afterFirst)) /\
  JsMap.values (activeConflicts (tick (tick afterFirst))) = [firstConflict].
Proof.
  split; [| reflexivity].
  apply (@fewer_than_two_active_aircraft_changes_nothing watch [eastbound]
           afterFirst).
  apply Nat.le_lt_trans with (List.length [eastbound]).
  - apply filter_length_le.
  - cbn [List.length]. lia.
Defined.

(** *** The table after reconciliation *)

Lemma moveConflictToHistory_returns (o : Oracle) (cid : string) (s : Service) :
  exists s', moveConflictToHistory o cid s = (Returns tt, s').
Proof.
  unfold moveConflictToHistory, bind. cbn [getService].
  destruct (JsMap.get string_dec cid (activeConflicts s));
    eexists; reflexivity.
Qed.

Lemma resolveMissing_returns (o : Oracle) (ids : list string)
  (entries : list (string * Conflict)) :
  forall s, exists s', resolveMissing o ids entries s = (Returns tt, s').
Proof.
  induction entries as [| [cid c] entries IH]; intros s; cbn [resolveMissing].
  - eexists. reflexivity.
  - unfold bind at 1. destruct (existsb (String.eqb cid) ids).
    + cbn [ret]. apply IH.
    + unfold bind at 1. cbn [getService].
      unfold bind at 1. cbn [setActiveConflicts].
      match goal with
      | |- context [moveConflictToHistory o cid ?s0] =>
          destruct (moveConflictToHistory_returns o cid s0) as [s1 ->]
      end.
      apply IH.
Qed.

Lemma storeConflicts_returns (newConflicts : list Conflict) :
  forall s, exists s', storeConflicts newConflicts s = (Returns tt, s').
Proof.
  induction newConflicts as [| c rest IH]; intros s; cbn [storeConflicts].
  - eexists. reflexivity.
  - unfold bind at 1. cbn [getService].
    unfold bind at 1. cbn [setActiveConflicts]. apply IH.
Qed.

Lemma stored_keys (newConflicts : list Conflict) :
  forall (m : JsMap.t string Conflict) (k : string),
    In k (JsMap.keys (fold_left store newConflicts m)) <->
    In k (JsMap.keys m) \/ In k (map id newConflicts).
Proof.
  induction newConflicts as [| c rest IH]; intros m k; cbn [fold_left map].
  - simpl. tauto.
  - rewrite IH. unfold store. rewrite JsMapFacts.keys_set.
    simpl. intuition congruence.
Qed.

Lemma stored_wf (newConflicts : list Conflict) :
  forall m : JsMap.t string Conflict,
    JsMap.wf m -> JsMap.wf (fold_left store newConflicts m).
Proof.
  induction newConflicts as [| c rest IH]; intros m Hwf; cbn [fold_left].
  - exact Hwf.
  - apply IH. now apply JsMapFacts.wf_set.
Qed.

Lemma stored_entries (newConflicts all : list Conflict) :
  forall m : JsMap.t string Conflict,
    JsMap.wf m ->
    (forall c, In c newConflicts -> In c all) ->
    (forall k v, In (k, v) m ->
       (In v all /\ id v = k) \/ In k (map id newConflicts)) ->
    forall k v, In (k, v) (fold_left store newConflicts m) ->
      In v all /\ id v = k.
Proof.
  induction newConflicts as [| c rest IH]; intros m Hwf Hincl Hm k v Hin.
  - simpl in Hin. destruct (Hm k v Hin) as [H | []]. exact H.
  - simpl in Hin. apply (IH (store m c)); try assumption.
    + now apply JsMapFacts.wf_set.
    + intros c' Hc'. apply Hincl. now right.
    + intros k' v' Hin'. apply JsMapFacts.In_set in Hin'; [| exact Hwf].
      destruct Hin' as [[-> ->] | [Hne Hin']].
      * left. split; [apply Hincl; now left | reflexivity].
      * destruct (Hm k' v' Hin') as [H | [E | H]];
          [now left | congruence | now right].
Qed.

(** X15. Reconciliation always completes. Afterwards the keys of the
    table of active conflicts are exactly the identifiers of the new
    conflicts, every entry is one of the new conflicts stored under its
    own identifier, and every conflict that was active under another
    identifier is gone from the table, whatever its status was. *)
Theorem active_table_is_replaced_by_new_conflicts (o : Oracle)
  (newConflicts : list Conflict) (s : Service) :
  JsMap.wf (activeConflicts s) ->
  exists s',
    updateActiveConflicts o newConflicts s = (Returns tt, s') /\
    JsMap.wf (activeConflicts s') /\
    (forall k, In k (JsMap.keys (activeConflicts s')) <->
               In k (map id newConflicts)) /\
    (forall k c, JsMap.get string_dec k (activeConflicts s') = Some c ->
                 In c newConflicts /\ id c = k) /\
    (forall k, ~ In k (map id newConflicts) ->
               JsMap.get string_dec k (activeConflicts s') = None).
Proof.
  intros Hwf. unfold updateActiveConflicts.
  unfold bind at 1. cbn [getService]. unfold bind at 1.
  destruct (resolveMissing_returns o (map id newConflicts)
              (activeConflicts s) s) as [s1 Hres].
  rewrite Hres.
  destruct (resolveMissing_keys _ _ _ _ Hres) as [Hwf1 Hkeys].
  destruct (storeConflicts_returns newConflicts s1) as [s' Hst].
  exists s'. split; [exact Hst |].
  pose proof (storeConflicts_active o _ _ Hst) as Hact.
  assert (Hkeys' : forall k, In k (JsMap.keys (activeConflicts s')) <->
                             In k (map id newConflicts)).
  { intros k. rewrite Hact, stored_keys. split; [| tauto].
    intros [Hk | Hk]; [| exact Hk].
    destruct (Hkeys k Hk) as [Hk0 Hids]. now apply Hids. }
  assert (Hentries : forall k c,
            JsMap.get string_dec k (activeConflicts s') = Some c ->
            In c newConflicts /\ id c = k).
  { intros k c Hget. apply JsMapFacts.get_In in Hget. rewrite Hact in Hget.
    revert Hget. apply stored_entries; [now apply Hwf1 | tauto |].
    intros k' v Hin. right.
    assert (Hk : In k' (JsMap.keys (activeConflicts s1)))
      by (apply (in_map fst) in Hin; exact Hin).
    destruct (Hkeys k' Hk) as [Hk0 Hids]. now apply Hids. }
  split; [rewrite Hact; apply stored_wf; now apply Hwf1 |].
  split; [exact Hkeys' |].
  split; [exact Hentries |].
  intros k Hk.
  destruct (JsMap.get string_dec k (activeConflicts s')) as [c |] eqn:Hget;
    [| reflexivity].
  exfalso. apply Hk. apply Hkeys'.
  apply JsMapFacts.get_In in Hget. apply (in_map fst) in Hget. exact Hget.
Qed.

Lemma active_table_is_replaced_by_new_conflicts_witness :
  exists s',
    updateActiveConflicts watch [secondConflict]
      (svc [(id firstConflict, firstConflict)] [] bothPredictions 17 2)
      = (Returns tt, s') /\
    JsMap.wf (activeConflicts s') /\
    (forall k, In k (JsMap.keys (activeConflicts s')) <->
               In k (map id [secondConflict])) /\
    (forall k c, JsMap.get string_dec k (activeConflicts s') = Some c ->
                 In c [secondConflict] /\ id c = k) /\
    (forall k, ~ In k (map id [secondConflict]) ->
               JsMap.get string_dec k (activeConflicts s') = None).
Proof.
  apply (@active_table_is_replaced_by_new_conflicts watch [secondConflict]
           (svc [(id firstConflict, firstConflict)] [] bothPredictions 17 2)).
  unfold JsMap.wf. cbn [svc activeConflicts JsMap.keys map fst].
  constructor; [intros [] | constructor].
Defined.

(** *** What prediction and detection leave alone *)

Section Frame.

Variable X : Type.
Variable field : Service -> X.
Hypothesis field_tick : forall s, field (tick s) = field s.
Hypothesis field_draw : forall s, field (draw s) = field s.
Hypothesis field_cache : forall c s, field (withCache c s) = field s.

(** [m] does not change [field], whatever its outcome. *)
Definition keeps {A} (m : M A) : Prop :=
  forall s out s', m s = (out, s') -> field s' = field s.

Lemma keeps_ret {A} (a : A) : keeps (ret a).
Proof. intros s out s' [= _ <-]. reflexivity. Qed.

Lemma keeps_bind {A B} (m : M A) (k : A -> M B) :
  keeps m -> (forall a, keeps (k a)) -> keeps (bind m k).
Proof.
  intros Hm Hk s out s' H. unfold bind in H.
  destruct (m s) as [[a | e] s1] eqn:E.
  - rewrite (Hk a _ _ _ H). exact (Hm _ _ _ E).
  - injection H as _ <-. exact (Hm _ _ _ E).
Qed.

Lemma keeps_generateFor (o : Oracle) (ac : Aircraft)
  (predictions : JsMap.t string TrajectoryPrediction) :
  keeps (generateFor o ac predictions).
Proof.
  intros s out s' H.
  destruct (JsMap.get string_dec (callsign ac) (trajectoryCache s))
    as [cached |] eqn:Hget.
  - destruct (timeStamps cached) as [| first later] eqn:Hts.
    + rewrite (@generateFor_throws o ac predictions s cached Hget Hts) in H.
      injection H as _ <-. apply field_tick.
    + destruct (Z_lt_ge_dec (Date_now o (clockReads s) - first) 30000)
        as [Hage | Hage].
      * rewrite (generateFor_reuses o ac predictions s Hget Hts Hage) in H.
        injection H as _ <-. apply field_tick.
      * rewrite (generateFor_recomputes o ac predictions s Hget Hts Hage) in H.
        injection H as _ <-.
        now rewrite field_cache, !field_tick.
  - rewrite (generateFor_fresh o ac predictions s Hget) in H.
    injection H as _ <-. now rewrite field_cache, !field_tick.
Qed.

Lemma keeps_generateLoop (o : Oracle) (aircraft : list Aircraft) :
  forall predictions, keeps (generateLoop o aircraft predictions).
Proof.
  induction aircraft as [| ac rest IH]; intros predictions; cbn [generateLoop].
  - apply keeps_ret.
  - apply keeps_bind; [apply keeps_generateFor | exact IH].
Qed.

Lemma keeps_detectPairwiseConflict (o : Oracle)
  (aircraft1 aircraft2 : Aircraft)
  (trajectory1 trajectory2 : option TrajectoryPrediction) :
  keeps (detectPairwiseConflict o aircraft1 aircraft2 trajectory1 trajectory2).
Proof.
  intros s out s' H.
  destruct (detectPairwiseConflict_cases o s aircraft1 aircraft2
              trajectory1 trajectory2)
    as [(t1 & t2 & k & p1 & p2 & ct & _ & _ & _ & E) | [E | E]];
    rewrite E in H; injection H as _ <-.
  - now rewrite field_draw, !field_tick.
  - reflexivity.
  - apply field_tick.
Qed.

Lemma keeps_detectAgainst (o : Oracle)
  (trajectories : JsMap.t string TrajectoryPrediction) (aircraft1 : Aircraft)
  (others : list Aircraft) :
  forall detected,
    keeps (detectAgainst o trajectories aircraft1 others detected).
Proof.
  induction others as [| aircraft2 others IH]; intros detected;
    cbn [detectAgainst].
  - apply keeps_ret.
  - apply keeps_bind;
      [apply keeps_detectPairwiseConflict | intros c; apply IH].
Qed.

Lemma keeps_detectPairs (o : Oracle)
  (trajectories : JsMap.t string TrajectoryPrediction)
  (activeAircraft : list Aircraft) :
  forall detected, keeps (detectPairs o trajectories activeAircraft detected).
Proof.
  induction activeAircraft as [| aircraft1 rest IH]; intros detected;
    cbn [detectPairs].
  - apply keeps_ret.
  - apply keeps_bind; [apply keeps_detectAgainst | exact IH].
Qed.

End Frame.

(** *** The history *)

(** The conflicts that a computation may add to the history: the entries
    of the table, marked as resolved. *)
Definition archived (table : JsMap.t string Conflict) (c : Conflict) : Prop :=
  exists k c0, In (k, c0) table /\ c = withStatus c0 RESOLVED.

Lemma moveConflictToHistory_history (o : Oracle) (cid : string)
  (s : Service) (out : Outcome unit) (s' : Service) :
  moveConflictToHistory o cid s = (out, s') ->
  forall c, In c (conflictHistory s') ->
    In c (conflictHistory s) \/
    JsMap.get string_dec cid (activeConflicts s) = Some c.
Proof.
  unfold moveConflictToHistory, bind. cbn [getService].
  destruct (JsMap.get string_dec cid (activeConflicts s)) as [c0 |] eqn:Hget.
  - cbn. intros [= _ <-] c Hc. cbn [conflictHistory] in Hc.
    apply filter_In in Hc. destruct Hc as [Hc _].
    apply in_app_or in Hc. destruct Hc as [Hc | [<- | []]]; tauto.
  - cbn. intros [= _ <-] c Hc. now left.
Qed.

Lemma resolveMissing_history (o : Oracle) (ids : list string)
  (entries : list (string * Conflict)) :
  forall (s : Service) (out : Outcome unit) (s' : Service),
    resolveMissing o ids entries s = (out, s') ->
    forall c, In c (conflictHistory s') ->
      In c (conflictHistory s) \/ archived entries c.
Proof.
  induction entries as [| [cid conflict] entries IH]; intros s out s' H c Hc.
  - injection H as _ <-. now left.
  - assert (Hweak : archived entries c ->
                    archived ((cid, conflict) :: entries) c).
    { intros (k & c0 & Hin & ->). exists k, c0. split; [now right | reflexivity]. }
    simpl in H. unfold bind at 1 in H.
    destruct (existsb (String.eqb cid) ids).
    + cbn [ret] in H. destruct (IH _ _ _ H c Hc); [now left | right; tauto].
    + unfold bind at 1 in H. cbn [getService] in H.
      unfold bind at 1 in H. cbn [setActiveConflicts] in H.
      match type of H with
      | context [moveConflictToHistory o cid ?s0] =>
          destruct (moveConflictToHistory o cid s0) as [[[] | e] s1] eqn:Hmove;
          pose proof (moveConflictToHistory_history _ _ _ Hmove) as Hh
      end;
        cbn [conflictHistory activeConflicts] in Hh;
        rewrite JsMapFacts.get_set_same in Hh.
      * destruct (IH _ _ _ H c Hc) as [Hin1 | Harch]; [| right; tauto].
        destruct (Hh c Hin1) as [Hold | [= <-]]; [now left |].
        right. exists cid, conflict. split; [now left | reflexivity].
      * injection H as _ <-.
        destruct (Hh c Hc) as [Hold | [= <-]]; [now left |].
        right. exists cid, conflict. split; [now left | reflexivity].
Qed.

Lemma storeConflicts_history (newConflicts : list Conflict) :
  forall (s : Service) (out : Outcome unit) (s' : Service),
    storeConflicts newConflicts s = (out, s') ->
    conflictHistory s' = conflictHistory s.
Proof.
  induction newConflicts as [| c rest IH]; intros s out s' H.
  - injection H as _ <-. reflexivity.
  - simpl in H. unfold bind at 1 in H. cbn [getService] in H.
    unfold bind at 1 in H. cbn [setActiveConflicts] in H.
    rewrite (IH _ _ _ H). reflexivity.
Qed.

Lemma updateActiveConflicts_history (o : Oracle) (newConflicts : list Conflict)
  (s : Service) (out : Outcome unit) (s' : Service) :
  updateActiveConflicts o newConflicts s = (out, s') ->
  forall c, In c (conflictHistory s') ->
    In c (conflictHistory s) \/ archived (activeConflicts s) c.
Proof.
  intros H c Hc. unfold updateActiveConflicts in H.
  unfold bind at 1 in H. cbn [getService] in H.
  unfold bind at 1 in H.
  destruct (resolveMissing o (map id newConflicts) (activeConflicts s) s)
    as [[[] | e] s1] eqn:Hres.
  - rewrite (storeConflicts_history _ _ H) in Hc.
    exact (resolveMissing_history _ _ _ _ Hres c Hc).
  - injection H as _ <-. exact (resolveMissing_history _ _ _ _ Hres c Hc).
Qed.

(** X16. Whatever the outcome of a cycle, the conflicts it has added to
    the history are conflicts that were in the table of active conflicts
    when the cycle began, with their status replaced by RESOLVED; so if
    the history held resolved conflicts only, it still does. *)
Theorem history_gains_resolved_conflicts_only (o : Oracle)
  (aircraft : list Aircraft) (s : Service)
  (out : Outcome (list Conflict)) (s' : Service) :
  detectConflicts o aircraft s = (out, s') ->
  (forall c, In c (conflictHistory s') ->
     In c (conflictHistory s) \/ archived (activeConflicts s) c) /\
  (Forall (fun c => conflict_status c = RESOLVED) (conflictHistory s) ->
   Forall (fun c => conflict_status c = RESOLVED) (conflictHistory s')).
Proof.
  intros H.
  assert (Hsrc : forall c, In c (conflictHistory s') ->
            In c (conflictHistory s) \/ archived (activeConflicts s) c).
  { unfold detectConflicts in H.
    unfold bind at 1 in H. cbn [dateNow] in H.
    unfold bind at 1 in H. unfold filterActiveAircraft at 1 in H.
    unfold bind at 1 in H. cbn [dateNow ret clockReads] in H.
    set (active := filter (isActive (Date_now o (S (clockReads s)))) aircraft)
      in *.
    destruct (List.length active <? 2)%nat.
    { injection H as _ <-. intros c Hc. now left. }
    unfold bind at 1 in H.
    match type of H with
    | context [generateTrajectoryPredictions o active ?s0] =>
        destruct (generateTrajectoryPredictions o active s0)
          as [[trajectories | e] s1] eqn:Hgen;
        pose proof (keepsActive_generateLoop o active [] _ Hgen) as Hact1;
        pose proof (@keeps_generateLoop _ conflictHistory
                      (fun _ => eq_refl) (fun _ _ => eq_refl)
                      o active [] _ _ _ Hgen) as Hhist1
    end;
      cbn [activeConflicts conflictHistory] in Hact1, Hhist1.
    2: { injection H as _ <-. intros c Hc. left. now rewrite <- Hhist1. }
    unfold bind at 1 in H.
    destruct (detectPairs o trajectories active [] s1)
      as [[detected | e] s2] eqn:Hdet;
      pose proof (keepsActive_detectPairs o trajectories active [] _ Hdet)
        as Hact2;
      pose proof (@keeps_detectPairs _ conflictHistory
                    (fun _ => eq_refl) (fun _ => eq_refl)
                    o trajectories active [] _ _ _ Hdet) as Hhist2.
    2: { injection H as _ <-. intros c Hc. left.
         now rewrite <- Hhist1, <- Hhist2. }
    unfold bind at 1 in H.
    destruct (updateActiveConflicts o detected s2)
      as [[u | e] s3] eqn:Hupd;
      pose proof (updateActiveConflicts_history _ _ _ Hupd) as Hh;
      rewrite Hhist2, Hhist1, Hact2, Hact1 in Hh.
    2: { injection H as _ <-. exact Hh. }
    unfold bind at 1 in H. cbn [dateNow] in H.
    unfold bind at 1 in H. cbn [getService ret activeConflicts] in H.
    injection H as _ <-. exact Hh. }
  split; [exact Hsrc |].
  intros Hinv. apply Forall_forall. intros c Hc.
  destruct (Hsrc c Hc) as [Hold | (k & c0 & _ & ->)].
  - rewrite Forall_forall in Hinv. now apply Hinv.
  - reflexivity.
Qed.

Lemma history_gains_resolved_conflicts_only_witness :
  (forall c, In c (conflictHistory afterSecond) ->
     In c (conflictHistory afterFirst) \/
     archived (activeConflicts afterFirst) c) /\
  (Forall (fun c => conflict_status c = RESOLVED) (conflictHistory afterFirst) ->
   Forall (fun c => conflict_status c = RESOLVED) (conflictHistory afterSecond)).
Proof.
  exact (@history_gains_resolved_conflicts_only watch [eastbound; westbound]
           afterFirst (Returns [secondConflict]) afterSecond second_cycle).
Defined.

(** *** Status updates by the controller *)

(** The outcome of [updateConflictStatus]: the error for an unknown
    identifier, or the outcome of the update. *)
Inductive StatusResult : Type :=
| NotFound (message : string)
| Updated (out : Outcome unit).

(** [status] ranges over the values of the enumeration; the log entry
    and the event are left out. *)
Definition updateConflictStatus (o : Oracle) (conflictId : string)
  (status : ConflictStatus) (s : Service) : StatusResult * Service :=
  match JsMap.get string_dec conflictId (activeConflicts s) with
  | None => (NotFound ("Conflict " ++ conflictId ++ " not found"), s)
  | Some conflict =>
      let updatedConflict := withStatus conflict status in
      let run :=
        setActiveConflicts
          (JsMap.set string_dec conflictId updatedConflict (activeConflicts s)) ;;;
        match status with
        | RESOLVED => moveConflictToHistory o conflictId
        | _ => ret tt
        end in
      let (out, s') := run s in (Updated out, s')
  end.

Lemma keys_set_present {V} (k : string) (v v' : V) (m : JsMap.t string V) :
  JsMap.get string_dec k m = Some v' ->
  JsMap.keys (JsMap.set string_dec k v m) = JsMap.keys m.
Proof.
  induction m as [| [k0 v0] m IH]; simpl; [discriminate |].
  destruct (string_dec k k0) as [-> | Hne]; [reflexivity |].
  intros H. simpl. f_equal. now apply IH.
Qed.

(** X17. A status update for an identifier that is not active fails
    and changes nothing. For an active conflict it always completes and
    touches no other entry of the table. A status other than RESOLVED
    replaces the status in place: the order of the table, the history and
    the clock are as before. RESOLVED removes the conflict from the
    table; the history then holds its former entries and the conflict,
    marked as resolved, except those detected more than 24 hours before
    the clock reading, which are dropped. *)
Theorem status_update_outcomes (o : Oracle) (conflictId : string)
  (status : ConflictStatus) (s : Service) :
  match JsMap.get string_dec conflictId (activeConflicts s) with
  | None =>
      updateConflictStatus o conflictId status s =
      (NotFound ("Conflict " ++ conflictId ++ " not found"), s)
  | Some conflict =>
      exists s',
        updateConflictStatus o conflictId status s =
          (Updated (Returns tt), s') /\
        (forall k, k <> conflictId ->
           JsMap.get string_dec k (activeConflicts s') =
           JsMap.get string_dec k (activeConflicts s)) /\
        (status <> RESOLVED ->
           JsMap.get string_dec conflictId (activeConflicts s') =
             Some (withStatus conflict status) /\
           JsMap.keys (activeConflicts s') = JsMap.keys (activeConflicts s) /\
           conflictHistory s' = conflictHistory s /\
           clockReads s' = clockReads s) /\
        (status = RESOLVED ->
           JsMap.get string_dec conflictId (activeConflicts s') = None /\
           clockReads s' = S (clockReads s) /\
           forall c,
             In c (conflictHistory s') <->
             (In c (conflictHistory s) \/ c = withStatus conflict RESOLVED) /\
             (Date_now o (clockReads s) - 24 * 60 * 60 * 1000
              <= detectedAt c)%Z)
  end.
Proof.
  destruct (JsMap.get string_dec conflictId (activeConflicts s))
    as [conflict |] eqn:Hget.
  - destruct status.
    1-3: (eexists; unfold updateConflictStatus; rewrite Hget;
          split; [reflexivity |];
          cbn [activeConflicts conflictHistory clockReads];
          split; [intros k Hk; now apply JsMapFacts.get_set_other |];
          split; [| intros E; discriminate E];
          intros _;
          split; [apply JsMapFacts.get_set_same |];
          split; [exact (keys_set_present _ _ _ Hget) |];
          split; reflexivity).
    eexists. unfold updateConflictStatus. rewrite Hget.
    unfold bind, moveConflictToHistory, bind.
    cbn [setActiveConflicts getService activeConflicts].
    rewrite JsMapFacts.get_set_same.
    cbn [setConflictHistory setActiveConflicts dateNow getService
         activeConflicts conflictHistory clockReads].
    split; [reflexivity |].
    cbn [activeConflicts conflictHistory clockReads].
    split.
    { intros k Hk. rewrite JsMapFacts.get_delete_other by exact Hk.
      now apply JsMapFacts.get_set_other. }
    split; [intros Hne; now contradiction Hne |].
    intros _.
    split; [apply JsMapFacts.get_delete_same |].
    split; [reflexivity |].
    intros c. rewrite filter_In, in_app_iff. cbn [In].
    rewrite Z.geb_le. intuition congruence.
  - unfold updateConflictStatus. now rewrite Hget.
Qed.

Lemma status_update_outcomes_witness :
  exists s',
    updateConflictStatus watch (id firstConflict) ACKNOWLEDGED afterFirst =
      (Updated (Returns tt), s') /\
    JsMap.get string_dec (id firstConflict) (activeConflicts s') =
      Some (withStatus firstConflict ACKNOWLEDGED).
Proof.
  pose proof (status_update_outcomes watch (id firstConflict) ACKNOWLEDGED
                afterFirst) as H.
  change (JsMap.get string_dec (id firstConflict) (activeConflicts afterFirst))
    with (Some firstConflict) in H.
  destruct H as (s' & Hrun & _ & Hother & _).
  exists s'. split; [exact Hrun |].
  apply Hother. discriminate.
Defined.

(** *** The risk of a conflict *)

Record RiskAssessment : Type := {
  collisionProbability : R;
  severityScore : R;
  urgencyLevel : R;
  weatherImpact : R;
  trafficDensityImpact : R;
  controllerWorkloadImpact : R
}.

Definition baseProbability (severity : SeverityLevel) : R :=
  match severity with
  | CRITICAL => 1 / 10
  | HIGH => 5 / 100
  | MEDIUM => 2 / 100
  | LOW => 1 / 100
  end.

Definition calculateCollisionProbability (conflict : Conflict) : R :=
  let timeToConflict := timeToConflict conflict in
  let baseProbability := baseProbability (severity conflict) in
  let timeFactor := Rmax (1 / 10) (1 - timeToConflict / 300) in
  Rmin (5 / 10) (baseProbability * (1 + timeFactor)).

Definition mapSeverityToScore (severity : SeverityLevel) : R :=
  match severity with
  | CRITICAL => 1
  | HIGH => 75 / 100
  | MEDIUM => 5 / 10
  | LOW => 25 / 100
  end.

Definition assessConflictRisk (conflict : Conflict) : RiskAssessment :=
  let timeToConflict := timeToConflict conflict in
  {| collisionProbability := calculateCollisionProbability conflict;
     severityScore := mapSeverityToScore (severity conflict);
     urgencyLevel := Rmax 0 (1 - timeToConflict / 300);
     weatherImpact := 1 / 10;
     trafficDensityImpact := 2 / 10;
     controllerWorkloadImpact := 15 / 100 |}.

Lemma Rmax_cases (a b : R) :
  a <= Rmax a b /\ b <= Rmax a b /\ (Rmax a b = a \/ Rmax a b = b).
Proof. unfold Rmax. destruct (Rle_dec a b); lra. Qed.

Lemma Rmin_cases (a b : R) :
  Rmin a b <= a /\ Rmin a b <= b /\ (Rmin a b = a \/ Rmin a b = b).
Proof. unfold Rmin. destruct (Rle_dec a b); lra. Qed.

Ltac minmax :=
  repeat match goal with
         | |- context [Rmax ?a ?b] =>
             let E := fresh "E" in
             destruct (Rmax_cases a b) as (? & ? & [E | E]);
             rewrite E in *; clear E
         | |- context [Rmin ?a ?b] =>
             let E := fresh "E" in
             destruct (Rmin_cases a b) as (? & ? & [E | E]);
             rewrite E in *; clear E
         end.

(** X18. In the risk assessment of any conflict the collision
    probability is above 0 and at most 0.5, the severity score is between
    0.25 and 1 and the urgency is not negative. When the time to conflict
    is not negative the cap of 0.5 is never reached: the probability is
    the base value of the severity times one plus the time factor, at
    most 0.2, and the urgency is at most 1. Between two conflicts of the
    same severity, the one that is nearer in time has the probability and
    the urgency at least as high; between two conflicts equally near, a
    higher severity gives a probability and a score at least as high. *)
Theorem risk_assessment_bounds (conflict : Conflict) :
  let risk := assessConflictRisk conflict in
  0 < collisionProbability risk <= 5 / 10 /\
  25 / 100 <= severityScore risk <= 1 /\
  0 <= urgencyLevel risk /\
  (0 <= timeToConflict conflict ->
   collisionProbability risk =
     baseProbability (severity conflict) *
     (1 + Rmax (1 / 10) (1 - timeToConflict conflict / 300)) /\
   collisionProbability risk <= 2 / 10 /\
   urgencyLevel risk <= 1) /\
  (forall other,
     severity other = severity conflict ->
     timeToConflict conflict <= timeToConflict other ->
     collisionProbability (assessConflictRisk other)
       <= collisionProbability risk /\
     urgencyLevel (assessConflictRisk other) <= urgencyLevel risk) /\
  (forall other,
     timeToConflict other = timeToConflict conflict ->
     (rank (severity other) <= rank (severity conflict))%nat ->
     collisionProbability (assessConflictRisk other)
       <= collisionProbability risk /\
     severityScore (assessConflictRisk other) <= severityScore risk).
Proof.
  cbn zeta. unfold assessConflictRisk, calculateCollisionProbability.
  cbn [collisionProbability severityScore urgencyLevel].
  split; [| split; [| split; [| split; [| split]]]].
  - unfold baseProbability.
    destruct (severity conflict); minmax; lra.
  - unfold mapSeverityToScore. destruct (severity conflict); lra.
  - apply Rmax_l.
  - intros Hpos. unfold baseProbability.
    destruct (severity conflict); minmax; lra.
  - intros other Hsev Htime. rewrite Hsev.
    unfold baseProbability.
    destruct (severity conflict); minmax; lra.
  - intros other Htime Hrank. rewrite Htime.
    unfold baseProbability, mapSeverityToScore.
    destruct (severity conflict); destruct (severity other);
      cbn [rank] in Hrank; try lia; minmax; lra.
Qed.

End ConflictMore.

(** ** The track store *)

Module RadarMore.
Import Types Radar RadarProps.

Local Open Scope string_scope.
Local Open Scope list_scope.
Local Open Scope R_scope.

(** *** One update *)

Lemma update_ignored (clock : nat -> Z) (trackData : PartialRadarTrack)
  (st : State) :
  td_trackNumber trackData = None \/ td_trackNumber trackData = Some 0%Z ->
  updateRadarTrack clock trackData st = st.
Proof.
  unfold updateRadarTrack. intros [-> | ->]; reflexivity.
Qed.

Lemma update_existing (clock : nat -> Z) (trackData : PartialRadarTrack)
  (st : State) (tn : Z) (existing : RadarTrack) :
  td_trackNumber trackData = Some tn ->
  tn <> 0%Z ->
  JsMap.get Z.eq_dec tn (radarTracks st) = Some existing ->
  exists updated,
    updateRadarTrack clock trackData st =
      {| isProcessing := isProcessing st;
         radarTracks := JsMap.set Z.eq_dec tn updated (radarTracks st);
         aircraftMap := aircraftMap st |} /\
    trackNumber updated = tn /\
    rt_lastUpdate updated = clock 0%nat /\
    trackQuality updated =
      calculateTrackQuality (clock 1%nat) existing trackData /\
    rt_callsign updated =
      spreadOpt (rt_callsign existing) (td_callsign trackData) /\
    rt_squawkCode updated =
      spreadOpt (rt_squawkCode existing) (td_squawkCode trackData) /\
    mode3A updated = spreadOpt (mode3A existing) (td_mode3A trackData) /\
    flightLevel updated =
      spreadOpt (flightLevel existing) (td_flightLevel trackData) /\
    position updated = spread (position existing) (td_position trackData) /\
    match td_position trackData with
    | Some newPosition =>
        rt_velocity updated =
          calculateVelocity (position existing) newPosition
            (rt_lastUpdate existing) (clock 2%nat) /\
        rt_heading updated = calculateHeading (rt_velocity updated) /\
        groundSpeed updated = Some (calculateGroundSpeed (rt_velocity updated))
    | None =>
        rt_velocity updated =
          spread (rt_velocity existing) (td_velocity trackData) /\
        rt_heading updated =
          spread (rt_heading existing) (td_heading trackData) /\
        groundSpeed updated =
          spreadOpt (groundSpeed existing) (td_groundSpeed trackData)
    end.
Proof.
  intros Htn Hnz Hget. unfold updateRadarTrack. rewrite Htn.
  destruct (Z.eqb_spec tn 0) as [E | _]; [contradiction |].
  rewrite Hget.
  destruct (td_position trackData) as [newPosition |];
    (eexists; split; [reflexivity |]);
    cbn [trackNumber rt_lastUpdate trackQuality rt_callsign rt_squawkCode
         mode3A flightLevel position rt_velocity rt_heading groundSpeed];
    repeat split; reflexivity.
Qed.

Lemma update_new (clock : nat -> Z) (trackData : PartialRadarTrack)
  (st : State) (tn : Z) :
  td_trackNumber trackData = Some tn ->
  tn <> 0%Z ->
  JsMap.get Z.eq_dec tn (radarTracks st) = None ->
  exists created,
    updateRadarTrack clock trackData st =
      {| isProcessing := isProcessing st;
         radarTracks := JsMap.set Z.eq_dec tn created (radarTracks st);
         aircraftMap := aircraftMap st |} /\
    trackNumber created = tn /\
    (rt_lastUpdate created = clock 0%nat \/
     rt_lastUpdate created = clock 1%nat) /\
    trackQuality created = quality0 /\
    rt_callsign created = td_callsign trackData /\
    rt_squawkCode created = td_squawkCode trackData /\
    flightLevel created = td_flightLevel trackData /\
    rt_velocity created = zeroVector /\
    rt_heading created = 0 /\
    groundSpeed created = None /\
    mode3A created = None.
Proof.
  intros Htn Hnz Hget. unfold updateRadarTrack. rewrite Htn.
  destruct (Z.eqb_spec tn 0) as [E | _]; [contradiction |].
  rewrite Hget.
  eexists. split; [reflexivity |].
  cbn [trackNumber rt_lastUpdate trackQuality rt_callsign rt_squawkCode
       mode3A flightLevel position rt_velocity rt_heading groundSpeed].
  split; [reflexivity |].
  split; [destruct (td_position trackData); tauto |].
  repeat split; reflexivity.
Qed.

(** Every track of the store has a confidence between 0.1 and 0.8. *)
Definition confident (st : State) : Prop :=
  forall tn track, In (tn, track) (radarTracks st) ->
    1 / 10 <= confidence (trackQuality track) <= 8 / 10.

Lemma decayed_confidence (now : Z) (existing : RadarTrack)
  (update : PartialRadarTrack) :
  (rt_lastUpdate existing <= now)%Z ->
  1 / 10 <= confidence (calculateTrackQuality now existing update) /\
  (1 / 10 <= confidence (trackQuality existing) ->
   confidence (calculateTrackQuality now existing update)
     <= confidence (trackQuality existing)).
Proof.
  intros Hage. unfold calculateTrackQuality. cbn [confidence].
  assert (0 <= IZR (now - rt_lastUpdate existing)) by (apply IZR_le; lia).
  split; [apply Rmax_l |].
  intros Hlow. apply Rmax_lub; lra.
Qed.

(** X19. An update never raises the confidence of a track. Provided no
    track of the store was last updated after the clock reading of the
    update, the confidence of every track that was in the store is at
    most what it was (for the updated track it is the former confidence
    less 0.01 per second of age, and at least 0.1), and if all the
    confidences were between 0.1 and 0.8, they still are: a new track
    starts at 0.8. *)
Theorem track_confidence_only_decays (clock : nat -> Z)
  (trackData : PartialRadarTrack) (st : State) :
  JsMap.wf (radarTracks st) ->
  (forall tn track, In (tn, track) (radarTracks st) ->
                    (rt_lastUpdate track <= clock 1%nat)%Z) ->
  let st' := updateRadarTrack clock trackData st in
  (forall tn existing updated,
     JsMap.get Z.eq_dec tn (radarTracks st) = Some existing ->
     JsMap.get Z.eq_dec tn (radarTracks st') = Some updated ->
     1 / 10 <= confidence (trackQuality existing) ->
     confidence (trackQuality updated) <= confidence (trackQuality existing)) /\
  (forall tn existing,
     td_trackNumber trackData = Some tn -> tn <> 0%Z ->
     JsMap.get Z.eq_dec tn (radarTracks st) = Some existing ->
     exists updated,
       JsMap.get Z.eq_dec tn (radarTracks st') = Some updated /\
       confidence (trackQuality updated) =
       Rmax (1 / 10)
            (confidence (trackQuality existing) -
             IZR (clock 1%nat - rt_lastUpdate existing) / 1000 * (1 / 100))) /\
  (confident st -> confident st').
Proof.
  intros Hwf Hclock st'. subst st'.
  destruct (td_trackNumber trackData) as [tn0 |] eqn:Htn.
  2: { rewrite update_ignored by (now left). split; [| split].
       - intros tn existing updated H1 H2 _. rewrite H1 in H2.
         injection H2 as <-. apply Rle_refl.
       - intros tn existing E. discriminate E.
       - tauto. }
  destruct (Z.eq_dec tn0 0) as [-> | Hnz].
  { rewrite update_ignored by (now right). split; [| split].
    - intros tn existing updated H1 H2 _. rewrite H1 in H2.
      injection H2 as <-. apply Rle_refl.
    - intros tn existing [= <-] Hne. contradiction.
    - tauto. }
  destruct (JsMap.get Z.eq_dec tn0 (radarTracks st)) as [existing0 |] eqn:Hget.
  - destruct (update_existing clock trackData st Htn Hnz Hget)
      as (updated0 & -> & _ & _ & Hq & _).
    cbn [radarTracks].
    pose proof (Hclock tn0 existing0 (@JsMapFacts.get_In _ _ Z.eq_dec _ _ _ Hget)) as Hage.
    destruct (@decayed_confidence (clock 1%nat) existing0 trackData Hage)
      as [Hlow Hdecay].
    split; [| split].
    + intros tn existing updated H1 H2 Hconf.
      destruct (Z.eq_dec tn tn0) as [-> | Hne].
      * rewrite JsMapFacts.get_set_same in H2. injection H2 as <-.
        rewrite Hget in H1. injection H1 as <-.
        rewrite Hq. now apply Hdecay.
      * rewrite JsMapFacts.get_set_other in H2 by exact Hne.
        rewrite H1 in H2. injection H2 as <-. apply Rle_refl.
    + intros tn existing [= <-] _ H1. rewrite Hget in H1. injection H1 as <-.
      exists updated0. split; [apply JsMapFacts.get_set_same |].
      rewrite Hq. reflexivity.
    + intros Hconf tn track Hin. cbn [radarTracks] in Hin.
      apply JsMapFacts.In_set in Hin; [| exact Hwf].
      destruct Hin as [[-> ->] | [_ Hin]]; [| exact (Hconf tn track Hin)].
      rewrite Hq. split; [exact Hlow |].
      pose proof (Hconf tn0 existing0 (@JsMapFacts.get_In _ _ Z.eq_dec _ _ _ Hget)).
      apply Rle_trans with (confidence (trackQuality existing0)); [| lra].
      apply Hdecay. lra.
  - destruct (update_new clock trackData st Htn Hnz Hget)
      as (created & -> & _ & _ & Hq & _).
    cbn [radarTracks].
    split; [| split].
    + intros tn existing updated H1 H2 _.
      assert (Hne : tn <> tn0) by (intros ->; congruence).
      rewrite JsMapFacts.get_set_other in H2 by exact Hne.
      rewrite H1 in H2. injection H2 as <-. apply Rle_refl.
    + intros tn existing [= <-] _ H1. congruence.
    + intros Hconf tn track Hin. cbn [radarTracks] in Hin.
      apply JsMapFacts.In_set in Hin; [| exact Hwf].
      destruct Hin as [[-> ->] | [_ Hin]]; [| exact (Hconf tn track Hin)].
      rewrite Hq. unfold quality0. cbn [confidence]. lra.
Qed.

Lemma track_confidence_only_decays_witness :
  exists updated,
    JsMap.get Z.eq_dec 7%Z
      (radarTracks (updateRadarTrack (fun _ => 3000%Z) duplicateUpdate oneTrack))
      = Some updated /\
    confidence (trackQuality updated) =
    Rmax (1 / 10)
         (confidence (trackQuality eastboundTrack) -
          IZR (3000 - rt_lastUpdate eastboundTrack) / 1000 * (1 / 100)).
Proof.
  assert (Hwf : JsMap.wf (radarTracks oneTrack)).
  { unfold JsMap.wf. cbn [oneTrack radarTracks JsMap.keys map fst].
    constructor; [intros [] | constructor]. }
  assert (Hclock : forall tn track, In (tn, track) (radarTracks oneTrack) ->
                     (rt_lastUpdate track <= 3000)%Z).
  { intros tn track [[= <- <-] | []]. cbn [eastboundTrack rt_lastUpdate]. lia. }
  destruct (@track_confidence_only_decays (fun _ => 3000%Z) duplicateUpdate
              oneTrack Hwf Hclock) as (_ & Hupdated & _).
  apply (Hupdated 7%Z eastboundTrack); [reflexivity | discriminate | reflexivity].
Defined.

(** X20. An update writes at most one entry of the track table, the one
    under the track number it carries, and nothing else: the table of
    aircraft and the processing flag are as before, no track is removed,
    the keys stay distinct, and an update without a track number, or
    with track number 0, changes nothing at all. The entry written has
    the track number as its own. For a known track the attributes that
    the update does not carry are kept, and a position in the update
    replaces the velocity, the heading and the ground speed by the
    derived ones even when the update carries its own; for an unknown
    track the velocity, heading, ground speed and mode 3/A that the
    update may carry are dropped and the quality is the initial one. *)
Theorem update_writes_one_track (clock : nat -> Z)
  (trackData : PartialRadarTrack) (st : State) :
  let st' := updateRadarTrack clock trackData st in
  aircraftMap st' = aircraftMap st /\
  isProcessing st' = isProcessing st /\
  (JsMap.wf (radarTracks st) -> JsMap.wf (radarTracks st')) /\
  (forall tn, td_trackNumber trackData <> Some tn ->
     JsMap.get Z.eq_dec tn (radarTracks st') =
     JsMap.get Z.eq_dec tn (radarTracks st)) /\
  (forall tn, JsMap.get Z.eq_dec tn (radarTracks st) <> None ->
              JsMap.get Z.eq_dec tn (radarTracks st') <> None) /\
  (td_trackNumber trackData = None \/ td_trackNumber trackData = Some 0%Z ->
   st' = st) /\
  (forall tn,
     td_trackNumber trackData = Some tn -> tn <> 0%Z ->
     exists track,
       JsMap.get Z.eq_dec tn (radarTracks st') = Some track /\
       trackNumber track = tn /\
       match JsMap.get Z.eq_dec tn (radarTracks st) with
       | Some existing =>
           rt_lastUpdate track = clock 0%nat /\
           rt_callsign track =
             spreadOpt (rt_callsign existing) (td_callsign trackData) /\
           rt_squawkCode track =
             spreadOpt (rt_squawkCode existing) (td_squawkCode trackData) /\
           flightLevel track =
             spreadOpt (flightLevel existing) (td_flightLevel trackData) /\
           position track =
             spread (position existing) (td_position trackData) /\
           match td_position trackData with
           | Some newPosition =>
               rt_velocity track =
                 calculateVelocity (position existing) newPosition
                   (rt_lastUpdate existing) (clock 2%nat) /\
               rt_heading track = calculateHeading (rt_velocity track) /\
               groundSpeed track =
                 Some (calculateGroundSpeed (rt_velocity track))
           | None =>
               rt_velocity track =
                 spread (rt_velocity existing) (td_velocity trackData) /\
               rt_heading track =
                 spread (rt_heading existing) (td_heading trackData) /\
               groundSpeed track =
                 spreadOpt (groundSpeed existing) (td_groundSpeed trackData)
           end
       | None =>
           trackQuality track = quality0 /\
           rt_velocity track = zeroVector /\
           rt_heading track = 0 /\
           groundSpeed track = None /\
           mode3A track = None
       end).
Proof.
  intros st'. subst st'.
  destruct (td_trackNumber trackData) as [tn0 |] eqn:Htn.
  2: { rewrite update_ignored by (now left).
       do 6 (split; [tauto |]). intros tn E. discriminate E. }
  destruct (Z.eq_dec tn0 0) as [-> | Hnz].
  { rewrite update_ignored by (now right).
    do 6 (split; [tauto |]). intros tn [= <-] Hne. contradiction. }
  assert (Hshape : exists track,
    updateRadarTrack clock trackData st =
      {| isProcessing := isProcessing st;
         radarTracks := JsMap.set Z.eq_dec tn0 track (radarTracks st);
         aircraftMap := aircraftMap st |}).
  { destruct (JsMap.get Z.eq_dec tn0 (radarTracks st)) as [e |] eqn:Hget.
    - destruct (update_existing clock trackData st Htn Hnz Hget)
        as (u & Hu & _). now exists u.
    - destruct (update_new clock trackData st Htn Hnz Hget)
        as (c & Hc & _). now exists c. }
  split; [destruct Hshape as [t ->]; reflexivity |].
  split; [destruct Hshape as [t ->]; reflexivity |].
  split; [destruct Hshape as [t ->]; cbn [radarTracks];
          apply JsMapFacts.wf_set |].
  split.
  { destruct Hshape as [t ->]. cbn [radarTracks]. intros tn Hne.
    apply JsMapFacts.get_set_other. congruence. }
  split.
  { destruct Hshape as [t ->]. cbn [radarTracks]. intros tn Hin.
    destruct (Z.eq_dec tn tn0) as [-> | Hne].
    - rewrite JsMapFacts.get_set_same. discriminate.
    - now rewrite JsMapFacts.get_set_other. }
  split; [intros [E | [= E]]; [discriminate E | contradiction] |].
  intros tn [= <-] _.
  destruct (JsMap.get Z.eq_dec tn0 (radarTracks st)) as [e |] eqn:Hget.
  - destruct (update_existing clock trackData st Htn Hnz Hget)
      as (u & -> & Hn & Hl & _ & Hc & Hs & _ & Hf & Hp & Hv).
    exists u. cbn [radarTracks].
    split; [apply JsMapFacts.get_set_same |]. tauto.
  - destruct (update_new clock trackData st Htn Hnz Hget)
      as (c & -> & Hn & _ & Hq & _ & _ & _ & Hv & Hh & Hg & Hm).
    exists c. cbn [radarTracks].
    split; [apply JsMapFacts.get_set_same |]. tauto.
Qed.

(** *** Conversion to aircraft *)

(** The test of [convertTracksToAircraft]: the track is not older than 30
    seconds at the reading [now]. *)
Definition freshb (now : Z) (track : RadarTrack) : bool :=
  if Rgt_dec (IZR (now - rt_lastUpdate track) / 1000) 30 then false else true.

Lemma freshb_true (now : Z) (track : RadarTrack) :
  freshb now track = true <-> (now - rt_lastUpdate track <= 30000)%Z.
Proof.
  unfold freshb.
  destruct (Rgt_dec (IZR (now - rt_lastUpdate track) / 1000) 30) as [Hgt | Hle].
  - split; [discriminate |]. intros H. exfalso.
    apply IZR_le in H. lra.
  - split; [| reflexivity]. intros _.
    apply le_IZR. lra.
Qed.

(** The aircraft that the conversion builds from a track, but for the
    dates of its flight plan. *)
Definition published (track : RadarTrack) (ac : Aircraft) : Prop :=
  callsign ac = aircraftKey (rt_callsign track) (trackNumber track) /\
  currentPosition ac = position track /\
  velocity ac = rt_velocity track /\
  heading ac = rt_heading track /\
  lastUpdate ac = rt_lastUpdate track /\
  status ac = determineAircraftStatus track /\
  ac_altitude ac = orNumber (flightLevel track) (altitude (position track)) /\
  clearances ac = [].

Lemma keyed_set (ac : Aircraft) (m : JsMap.t string Aircraft) :
  JsMap.wf m -> keyed m -> keyed (JsMap.set string_dec (callsign ac) ac m).
Proof.
  intros Hwf Hkeyed k v Hin.
  apply JsMapFacts.In_set in Hin; [| exact Hwf].
  destruct Hin as [[-> ->] | [_ Hin]]; [reflexivity | exact (Hkeyed k v Hin)].
Qed.

Lemma convert_fold (clock : nat -> Z) (now : Z) (tracks : list RadarTrack) :
  forall (aircraft : list Aircraft) (acMap : JsMap.t string Aircraft) (n : nat),
    exists added acMap' n',
      fold_left (convertTrack clock now) tracks (aircraft, acMap, n) =
        (aircraft ++ added, acMap', n') /\
      Forall2 published (filter (freshb now) tracks) added /\
      (forall k, JsMap.get string_dec k acMap <> None ->
                 JsMap.get string_dec k acMap' <> None) /\
      (forall ac, In ac added ->
                  JsMap.get string_dec (callsign ac) acMap' <> None) /\
      (forall k, JsMap.get string_dec k acMap' <> None ->
                 JsMap.get string_dec k acMap <> None \/
                 exists ac, In ac added /\ callsign ac = k) /\
      (JsMap.wf acMap -> keyed acMap -> JsMap.wf acMap' /\ keyed acMap').
Proof.
  induction tracks as [| track tracks IH]; intros aircraft acMap n.
  - exists [], acMap, n. cbn [fold_left filter].
    rewrite app_nil_r.
    split; [reflexivity |]. split; [constructor |].
    split; [tauto |]. split; [intros ac [] |]. split; tauto.
  - cbn [fold_left filter]. unfold convertTrack at 2. unfold freshb at 1.
    destruct (Rgt_dec (IZR (now - rt_lastUpdate track) / 1000) 30).
    + apply IH.
    + match goal with
      | |- context [fold_left _ tracks (aircraft ++ [?obj], ?m, ?c)] =>
          destruct (IH (aircraft ++ [obj]) m c)
            as (added & acMap' & n' & Hfold & Hpub & Hkeep & Hin & Honly & Hinv);
          exists (obj :: added), acMap', n';
          set (aircraftObj := obj) in *
      end.
      rewrite Hfold, <- app_assoc. split; [reflexivity |].
      split; [constructor; [| exact Hpub]; repeat split |].
      split.
      { intros k Hk. apply Hkeep.
        destruct (string_dec k (callsign aircraftObj)) as [-> | Hne].
        - rewrite JsMapFacts.get_set_same. discriminate.
        - now rewrite JsMapFacts.get_set_other. }
      split.
      { intros ac [<- | Hac]; [| now apply Hin].
        apply Hkeep. rewrite JsMapFacts.get_set_same. discriminate. }
      split.
      { intros k Hk. destruct (Honly k Hk) as [Hset | (ac & Hac & <-)].
        - destruct (string_dec k (callsign aircraftObj)) as [-> | Hne].
          + right. exists aircraftObj. split; [now left | reflexivity].
          + left. now rewrite JsMapFacts.get_set_other in Hset.
        - right. exists ac. split; [now right | reflexivity]. }
      intros Hwf Hkeyed. apply Hinv.
      * now apply JsMapFacts.wf_set.
      * now apply keyed_set.
Qed.

(** X21. The conversion returns one aircraft for every track of the
    table that is at most 30 seconds old at the first reading of the
    clock, in the order of the table, with the key, position, velocity,
    heading, status and last update of the track; each of them is in the
    table of aircraft afterwards. The table of tracks is not changed and
    no key of the table of aircraft is removed, so an aircraft whose
    track has become older stays in the table of aircraft; every new key
    is the callsign of a returned aircraft. Distinct keys, and the
    agreement of each key with the callsign of its aircraft, are
    preserved. *)
Theorem conversion_publishes_fresh_tracks (clock : nat -> Z) (st : State) :
  let now := clock 0%nat in
  let aircraft := fst (convertTracksToAircraft clock st) in
  let st' := snd (convertTracksToAircraft clock st) in
  radarTracks st' = radarTracks st /\
  isProcessing st' = isProcessing st /\
  Forall2 published
    (filter (freshb now) (JsMap.values (radarTracks st))) aircraft /\
  (forall ac, In ac aircraft ->
     (now - lastUpdate ac <= 30000)%Z /\
     JsMap.get string_dec (callsign ac) (aircraftMap st') <> None) /\
  (forall k, JsMap.get string_dec k (aircraftMap st) <> None ->
             JsMap.get string_dec k (aircraftMap st') <> None) /\
  (forall k, JsMap.get string_dec k (aircraftMap st') <> None ->
             JsMap.get string_dec k (aircraftMap st) <> None \/
             exists ac, In ac aircraft /\ callsign ac = k) /\
  (JsMap.wf (aircraftMap st) -> keyed (aircraftMap st) ->
   JsMap.wf (aircraftMap st') /\ keyed (aircraftMap st')).
Proof.
  intros now aircraft st'. subst aircraft st'.
  unfold convertTracksToAircraft. fold now.
  destruct (convert_fold clock now (JsMap.values (radarTracks st))
              [] (aircraftMap st) 1%nat)
    as (added & acMap' & n' & -> & Hpub & Hkeep & Hin & Honly & Hinv).
  cbn [app fst snd radarTracks isProcessing aircraftMap].
  split; [reflexivity |]. split; [reflexivity |].
  split; [exact Hpub |].
  split.
  { intros ac Hac. split; [| now apply Hin].
    assert (Hex : exists track,
              In track (filter (freshb now) (JsMap.values (radarTracks st)))
              /\ published track ac).
    { clear - Hpub Hac. induction Hpub as [| t a ts l Hta _ IH];
        [destruct Hac |].
      destruct Hac as [<- | Hac].
      - exists t. split; [now left | exact Hta].
      - destruct (IH Hac) as (t' & Ht' & Hp). exists t'.
        split; [now right | exact Hp]. }
    destruct Hex as (track & Htrack & Hp).
    apply filter_In in Htrack. destruct Htrack as [_ Hfresh].
    apply freshb_true in Hfresh.
    destruct Hp as (_ & _ & _ & _ & -> & _). exact Hfresh. }
  split; [exact Hkeep |]. split; [exact Honly | exact Hinv].
Qed.

End RadarMore.

(** ** From observed positions to predicted ones *)

Module TrackToPrediction.
Import Types.

Local Open Scope R_scope.

(** X22. Let a track be updated with a new position [t] whole seconds
    (more than none) after its last update, and let an aircraft carry the
    position and the velocity of the updated track, as the conversion
    builds it. The prediction for that aircraft [t] seconds ahead repeats
    the observed change of latitude, and the observed change of longitude
    when the latitude has not changed (away from the poles), but 3.28084
    times the observed change of altitude: the vertical rate, derived
    from altitudes as they are, is converted as if it were in metres per
    second. *)
Theorem prediction_repeats_observed_step (clock : nat -> Z)
  (trackData : Radar.PartialRadarTrack) (st : Radar.State) (tn : Z)
  (existingTrack : Radar.RadarTrack) (newPosition : Position3D) (t : Z) :
  Radar.td_trackNumber trackData = Some tn ->
  tn <> 0%Z ->
  JsMap.get Z.eq_dec tn (Radar.radarTracks st) = Some existingTrack ->
  Radar.td_position trackData = Some newPosition ->
  (0 < t)%Z ->
  (clock 2%nat - Radar.rt_lastUpdate existingTrack = t * 1000)%Z ->
  exists updated,
    JsMap.get Z.eq_dec tn
      (Radar.radarTracks (Radar.updateRadarTrack clock trackData st))
      = Some updated /\
    Radar.position updated = newPosition /\
    forall ac : Aircraft,
      currentPosition ac = Radar.position updated ->
      velocity ac = Radar.rt_velocity updated ->
      let before := Radar.position existingTrack in
      let ahead := Conflict.predictedPosition ac t in
      latitude ahead =
        latitude newPosition + (latitude newPosition - latitude before) /\
      altitude ahead =
        altitude newPosition +
        (altitude newPosition - altitude before) * (328084 / 100000) /\
      (latitude newPosition = latitude before ->
       cos (latitude before * PI / 180) <> 0 ->
       longitude ahead =
         longitude newPosition + (longitude newPosition - longitude before)).
Proof.
  intros Htn Hnz Hget Hpos Ht Hdt.
  destruct (RadarMore.update_existing clock trackData st Htn Hnz Hget)
    as (updated & -> & _ & _ & _ & _ & _ & _ & _ & Hp & Hv).
  rewrite Hpos in Hp, Hv. cbn [Radar.spread] in Hp. destruct Hv as (Hv & _).
  exists updated. cbn [Radar.radarTracks].
  split; [apply JsMapFacts.get_set_same |].
  split; [exact Hp |].
  intros ac Hcur Hvel. cbn zeta.
  unfold Conflict.predictedPosition. rewrite Hcur, Hvel, Hp, Hv.
  unfold Radar.calculateVelocity. rewrite Hdt.
  assert (HtR : 0 < IZR t) by (apply IZR_lt; exact Ht).
  rewrite mult_IZR.
  destruct (Rle_dec (IZR t * 1000 / 1000) 0) as [Hle | _]; [lra |].
  cbn [latitude longitude altitude x y z].
  split; [field; lra |]. split; [field; lra |].
  intros Hlat Hcos. rewrite Hlat. field. split; [lra | exact Hcos].
Qed.

Lemma prediction_repeats_observed_step_witness :
  exists updated,
    JsMap.get Z.eq_dec 7%Z
      (Radar.radarTracks
         (Radar.updateRadarTrack (fun _ => 3000%Z) RadarProps.duplicateUpdate
            RadarProps.oneTrack))
      = Some updated /\
    Radar.position updated =
      {| latitude := 40; longitude := -73; altitude := 5000;
         timestamp := 1000 |}.
Proof.
  destruct (@prediction_repeats_observed_step (fun _ => 3000%Z)
              RadarProps.duplicateUpdate RadarProps.oneTrack 7%Z
              RadarProps.eastboundTrack
              {| latitude := 40; longitude := -73; altitude := 5000;
                 timestamp := 1000 |} 2%Z
              eq_refl ltac:(discriminate) eq_refl eq_refl eq_refl eq_refl)
    as (updated & Hget & Hp & _).
  exists updated. split; [exact Hget | exact Hp].
Defined.

End TrackToPrediction.

(** ** Ingestion of raw radar data *)

Module RadarIngest.
Import Asterix.

Local Open Scope string_scope.
Local Open Scope list_scope.
Local Open Scope Z_scope.

(** The values of [decodeAsterixField]. *)
Inductive Decoded : Type :=
| SacSic (sac sic : Z)
| RangeAzimuth (range azimuth : Q)
| Code (code : string)
| FlightLevel (flightLevel : Q)
| Callsign (callsign : string)
| Raw (raw : Buffer).

Record AsterixDataBlock : Type := {
  blk_itemId : Z;
  blk_data : Buffer;
  blk_decoded : Decoded
}.

Record AsterixMessage : Type := {
  msg_category : Z;
  msg_length : Z;
  msg_dataSourceId : Z;
  msg_timestamp : Z;
  msg_data : list AsterixDataBlock
}.

Record FieldDef : Type := {
  def_name : string;
  def_length : Z
}.

Definition asterixFields : JsMap.t Z FieldDef :=
  [ (0x010, {| def_name := "Data Source Identifier"; def_length := 2 |});
    (0x020, {| def_name := "Target Report Descriptor"; def_length := 1 |});
    (0x040, {| def_name := "Measured Position in Polar Coordinates";
               def_length := 4 |});
    (0x070, {| def_name := "Mode-3/A Code in Octal Representation";
               def_length := 2 |});
    (0x090, {| def_name := "Flight Level in Binary Representation";
               def_length := 2 |});
    (0x130, {| def_name := "Radar Plot Characteristics"; def_length := 1 |});
    (0x220, {| def_name := "Aircraft Address"; def_length := 3 |});
    (0x240, {| def_name := "Aircraft Identification"; def_length := 6 |});
    (0x250, {| def_name := "Mode S MB Data"; def_length := 8 |}) ].

(** [fieldMap[bitPosition] || null] *)
Definition mapBitToFieldId (bitPosition : Z) : option Z :=
  let fieldMap : JsMap.t Z Z :=
    [ (1, 0x010); (2, 0x020); (3, 0x040); (4, 0x070); (5, 0x090);
      (6, 0x130); (7, 0x220); (8, 0x240); (9, 0x250) ] in
  match JsMap.get Z.eq_dec bitPosition fieldMap with
  | Some id => if id =? 0 then None else Some id
  | None => None
  end.

(** The inner loop of [readFieldSpecification]: [bit] runs from 7 down to
    1 and tests [fspecByte & (1 << (bit - 1))]. *)
Fixpoint scanFieldBits (fspecByte byteIndex : Z) (bits : list Z)
  (fields : list Z) : list Z :=
  match bits with
  | [] => fields
  | bit :: bits' =>
      scanFieldBits fspecByte byteIndex bits'
        (if Z.land fspecByte (Z.shiftl 1 (bit - 1)) =? 0 then fields
         else match mapBitToFieldId (byteIndex * 7 + (8 - bit)) with
              | Some asterixFieldId => fields ++ [asterixFieldId]
              | None => fields
              end)
  end.

(** The [do ... while] loop of [readFieldSpecification] over the bytes
    from [offset + byteIndex] on: it leaves at the end of the buffer, and
    after the first byte whose least significant bit is clear. *)
Fixpoint fspecLoop (rest : list byte) (byteIndex : Z) (fields : list Z)
  (fspecLength : Z) : list Z * Z :=
  match rest with
  | [] => (fields, fspecLength)
  | b :: rest' =>
      let fspecByte := byteZ b in
      let fspecLength := fspecLength + 1 in
      let fields := scanFieldBits fspecByte byteIndex [7; 6; 5; 4; 3; 2; 1]
                      fields in
      if Z.land fspecByte 1 =? 1
      then fspecLoop rest' (byteIndex + 1) fields fspecLength
      else (fields, fspecLength)
  end.

(** [readFieldSpecification], for an offset that is not negative. *)
Definition readFieldSpecification (data : Buffer) (offset : Z)
  : list Z * Z :=
  fspecLoop (skipn (Z.to_nat offset) data) 0 [] 0.

(** [data.toString('ascii')]: the low seven bits of every byte. *)
Definition toStringAscii (data : Buffer) : string :=
  string_of_list_ascii
    (map (fun b => ascii_of_nat (Z.to_nat (Z.land (byteZ b) 127))) data).

(** [s.replace(/\0/g, '')] *)
Fixpoint removeNul (s : string) : string :=
  match s with
  | EmptyString => EmptyString
  | String c s' =>
      if (nat_of_ascii c =? 0)%nat then removeNul s'
      else String c (removeNul s')
  end.

(** The white space of [trim] among the first 128 characters. *)
Definition isWhiteSpace (c : ascii) : bool :=
  let n := nat_of_ascii c in
  ((9 <=? n)%nat && (n <=? 13)%nat) || (n =? 32)%nat.

Fixpoint trimStartWhite (s : string) : string :=
  match s with
  | EmptyString => EmptyString
  | String c s' => if isWhiteSpace c then trimStartWhite s' else s
  end.

Definition trimWhite (s : string) : string :=
  rev_string (trimStartWhite (rev_string (trimStartWhite s) "")) "".

Definition decodeAsterixField (fieldId : Z) (data : Buffer)
  : Result Decoded :=
  if fieldId =? 0x010 then
    sac <- readUInt8 data 0 ;;
    sic <- readUInt8 data 1 ;;
    Ok (SacSic sac sic)
  else if fieldId =? 0x040 then
    r <- readUInt16BE data 0 ;;
    t <- readUInt16BE data 2 ;;
    Ok (RangeAzimuth (inject_Z r * (1 # 256))%Q
                     (inject_Z t * (360 # 65536))%Q)
  else if fieldId =? 0x070 then
    raw <- readUInt16BE data 0 ;;
    let mode3A := Z.land raw 0x0FFF in
    Ok (Code (padStart0 4 (toString8 mode3A)))
  else if fieldId =? 0x090 then
    raw <- readInt16BE data 0 ;;
    Ok (FlightLevel (inject_Z raw * (1 # 4))%Q)
  else if fieldId =? 0x240 then
    Ok (Callsign (trimWhite (removeNul (toStringAscii data))))
  else Ok (Raw data).

(** The state of the loops of [parseDataBlocks] after the fields of one
    FSPEC: the loop goes on from [offset], or an error has made it
    leave. *)
Inductive Step : Type :=
| Next (offset : Z) (blocks : list AsterixDataBlock)
| Break (blocks : list AsterixDataBlock).

(** The loop [for (const fieldId of fspec.fields)]. *)
Fixpoint readFields (data : Buffer) (fieldIds : list Z) (offset : Z)
  (blocks : list AsterixDataBlock) : Step :=
  match fieldIds with
  | [] => Next offset blocks
  | fieldId :: rest =>
      match JsMap.get Z.eq_dec fieldId asterixFields with
      | Some fieldDef =>
          if offset + def_length fieldDef <=? buf_length data then
            let fieldData :=
              subarray data offset (offset + def_length fieldDef) in
            match decodeAsterixField fieldId fieldData with
            | Ok decoded =>
                readFields data rest (offset + def_length fieldDef)
                  (blocks ++ [{| blk_itemId := fieldId;
                                 blk_data := fieldData;
                                 blk_decoded := decoded |}])
            | Throw _ => Break blocks
            end
          else readFields data rest offset blocks
      | None => readFields data rest offset blocks
      end
  end.

(** The loop [while (offset < data.length)] of [parseDataBlocks], with at
    most [fuel] iterations; [None] when they do not suffice. *)
Fixpoint parseBlocksFrom (fuel : nat) (data : Buffer) (offset : Z)
  (blocks : list AsterixDataBlock) : option (list AsterixDataBlock) :=
  match fuel with
  | O => None
  | S fuel' =>
      if offset <? buf_length data then
        let '(fieldIds, fspecLength) := readFieldSpecification data offset in
        match readFields data fieldIds (offset + fspecLength) blocks with
        | Next offset' blocks' => parseBlocksFrom fuel' data offset' blocks'
        | Break blocks' => Some blocks'
        end
      else Some blocks
  end.

(** [parseDataBlocks]: every iteration consumes a byte at least, so one
    iteration more than the buffer has bytes is enough. *)
Definition parseDataBlocks (data : Buffer) (category : Z)
  : option (list AsterixDataBlock) :=
  if category =? 48 then parseBlocksFrom (S (List.length data)) data 0 []
  else Some [].

Inductive ParseLog : Type :=
| IncompleteMessage (expectedLength remainingBytes : Z)
| ParsingError (offset : Z).

(** The header that [parseAsterixData] reads at [offset]. *)
Definition readHeader (rawData : Buffer) (offset : Z) : Result (Z * Z) :=
  category <- readUInt8 rawData offset ;;
  length <- readUInt16BE rawData (offset + 1) ;;
  Ok (category, length).

(** The loop [while (offset < rawData.length - 3)] of [parseAsterixData],
    with at most [fuel] iterations; [None] when they do not suffice.
    [clock n] is the time stamp given to message number [n]. *)
Fixpoint parseMessages (clock : nat -> Z) (fuel : nat) (rawData : Buffer)
  (offset : Z) (messages : list AsterixMessage) (log : list ParseLog)
  : option (list AsterixMessage * list ParseLog) :=
  match fuel with
  | O => None
  | S fuel' =>
      if offset <? buf_length rawData - 3 then
        match readHeader rawData offset with
        | Ok (category, length) =>
            if offset + length >? buf_length rawData
            then Some (messages,
                       log ++ [IncompleteMessage length
                                 (buf_length rawData - offset)])
            else
              let messageData :=
                subarray rawData (offset + 3) (offset + length) in
              match (if buf_length messageData >=? 2
                     then readUInt16BE messageData 0 else Ok 0) with
              | Ok dataSourceId =>
                  match parseDataBlocks
                          (subarray messageData 2 (buf_length messageData))
                          category with
                  | Some dataBlocks =>
                      parseMessages clock fuel' rawData (offset + length)
                        (messages ++
                         [{| msg_category := category;
                             msg_length := length;
                             msg_dataSourceId := dataSourceId;
                             msg_timestamp := clock (List.length messages);
                             msg_data := dataBlocks |}])
                        log
                  | None => None
                  end
              | Throw _ =>
                  parseMessages clock fuel' rawData (offset + 1) messages
                    (log ++ [ParsingError offset])
              end
        | Throw _ =>
            parseMessages clock fuel' rawData (offset + 1) messages
              (log ++ [ParsingError offset])
        end
      else Some (messages, log)
  end.

Definition parseAsterixData (clock : nat -> Z) (fuel : nat)
  (rawData : Buffer) : option (list AsterixMessage * list ParseLog) :=
  parseMessages clock fuel rawData 0 [] [].

(** [parseInt(s, 8)]: white space, a sign, then the longest run of octal
    digits; [None] is NaN. *)
Definition octalDigit (c : ascii) : option Z :=
  let n := nat_of_ascii c in
  if (48 <=? n)%nat && (n <=? 55)%nat then Some (Z.of_nat n - 48) else None.

Fixpoint octalDigits (s : string) (acc : option Z) : option Z :=
  match s with
  | EmptyString => acc
  | String c s' =>
      match octalDigit c with
      | Some d =>
          octalDigits s' (Some (8 * match acc with Some a => a | None => 0 end
                                + d))
      | None => acc
      end
  end.

Definition parseInt8 (s : string) : option Z :=
  match trimStartWhite s with
  | String "-" s' =>
      match octalDigits s' None with Some v => Some (- v) | None => None end
  | String "+" s' => octalDigits s' None
  | s' => octalDigits s' None
  end.

(** [generateTrackNumber]; [random] is [Math.floor(Math.random() * 1000)]
    and [None] is NaN. *)
Definition generateTrackNumber (random : Z) (dataSourceId : Z)
  (squawkCode : option string) : option Z :=
  let base := dataSourceId * 10000 in
  let suffix :=
    match squawkCode with
    | Some code =>
        if string_dec code "" then Some random
        else match parseInt8 code with
             | Some v => Some (Z.rem v 1000)
             | None => None
             end
    | None => Some random
    end in
  match suffix with
  | Some suffix => Some (base + suffix)
  | None => None
  end.

End RadarIngest.

Module RadarIngestProps.
Import Asterix RadarIngest.

Local Open Scope string_scope.
Local Open Scope list_scope.
Local Open Scope Z_scope.

(** *** The field specification *)

Lemma mapBitToFieldId_catalogue (bitPosition fieldId : Z) :
  mapBitToFieldId bitPosition = Some fieldId ->
  In fieldId (JsMap.keys asterixFields).
Proof.
  unfold mapBitToFieldId. cbn [JsMap.get].
  repeat (destruct (Z.eq_dec bitPosition _);
          [cbn; intros [= <-]; cbn; tauto |]).
  discriminate.
Qed.

Lemma scanFieldBits_ids (fspecByte byteIndex : Z) (bits : list Z) :
  forall (fields : list Z) (fieldId : Z),
    In fieldId (scanFieldBits fspecByte byteIndex bits fields) ->
    In fieldId fields \/ In fieldId (JsMap.keys asterixFields).
Proof.
  induction bits as [| bit bits IH]; intros fields fieldId Hin;
    cbn [scanFieldBits] in Hin; [now left |].
  apply IH in Hin. destruct Hin as [Hin | Hin]; [| now right].
  destruct (_ =? 0); [now left |].
  destruct (mapBitToFieldId (byteIndex * 7 + (8 - bit))) as [fid |] eqn:Hmap;
    [| now left].
  apply in_app_or in Hin. destruct Hin as [Hin | [<- | []]]; [now left |].
  right. exact (mapBitToFieldId_catalogue _ Hmap).
Qed.

Lemma scanFieldBits_keeps (fspecByte byteIndex : Z) (bits : list Z) :
  forall (fields : list Z) (fieldId : Z),
    In fieldId fields ->
    In fieldId (scanFieldBits fspecByte byteIndex bits fields).
Proof.
  induction bits as [| bit bits IH]; intros fields fieldId Hin;
    cbn [scanFieldBits]; [exact Hin |].
  apply IH. destruct (_ =? 0); [exact Hin |].
  destruct (mapBitToFieldId _); [| exact Hin].
  apply in_or_app. now left.
Qed.

Lemma scanFieldBits_snoc (fspecByte byteIndex : Z) (bits : list Z) (bit : Z) :
  forall fields : list Z,
    scanFieldBits fspecByte byteIndex (bits ++ [bit]) fields =
    scanFieldBits fspecByte byteIndex [bit]
      (scanFieldBits fspecByte byteIndex bits fields).
Proof.
  induction bits as [| b bits IH]; intros fields; [reflexivity |].
  cbn [app scanFieldBits]. rewrite IH. reflexivity.
Qed.

(** The continuation bit of the first byte is also read as the seventh
    field. *)
Lemma continuation_is_a_field (fspecByte : Z) (fields : list Z) :
  Z.land fspecByte 1 = 1 ->
  In 0x220 (scanFieldBits fspecByte 0 [7; 6; 5; 4; 3; 2; 1] fields).
Proof.
  intros Hbit.
  change [7; 6; 5; 4; 3; 2; 1] with ([7; 6; 5; 4; 3; 2] ++ [1]).
  rewrite scanFieldBits_snoc. cbn [scanFieldBits].
  change (Z.shiftl 1 (1 - 1)) with 1. rewrite Hbit.
  change (1 =? 0) with false. cbv iota.
  change (mapBitToFieldId (0 * 7 + (8 - 1))) with (Some 0x220).
  apply in_or_app. right. now left.
Qed.

Lemma fspecLoop_spec (rest : list byte) :
  forall (byteIndex : Z) (fields : list Z) (fspecLength : Z),
    let fspec := fspecLoop rest byteIndex fields fspecLength in
    fspecLength <= snd fspec <= fspecLength + Z.of_nat (List.length rest) /\
    (rest <> [] -> fspecLength + 1 <= snd fspec) /\
    (forall fieldId, In fieldId (fst fspec) ->
       In fieldId fields \/ In fieldId (JsMap.keys asterixFields)) /\
    (forall fieldId, In fieldId fields -> In fieldId (fst fspec)).
Proof.
  induction rest as [| b rest IH]; intros byteIndex fields fspecLength.
  - cbn. repeat split; try lia; tauto.
  - cbn [fspecLoop]. cbv zeta.
    pose proof (scanFieldBits_ids (byteZ b) byteIndex [7; 6; 5; 4; 3; 2; 1]
                  fields) as Hids.
    pose proof (scanFieldBits_keeps (byteZ b) byteIndex [7; 6; 5; 4; 3; 2; 1]
                  fields) as Hkeeps.
    destruct (Z.land (byteZ b) 1 =? 1).
    + specialize (IH (byteIndex + 1)
                     (scanFieldBits (byteZ b) byteIndex [7; 6; 5; 4; 3; 2; 1]
                        fields)
                     (fspecLength + 1)).
      cbv zeta in IH. destruct IH as (Hlen & _ & Hsrc & Hkeep).
      cbn [List.length]. repeat split; try lia.
      * intros fieldId Hin. destruct (Hsrc fieldId Hin) as [H1 | H1];
          [now apply Hids | now right].
      * intros fieldId Hin. now apply Hkeep, Hkeeps.
    + cbn [fst snd List.length]. repeat split; try lia; assumption.
Qed.

Lemma fspecLoop_extension (b : byte) (rest : list byte) (fields : list Z)
  (fspecLength : Z) :
  fspecLength + 2 <= snd (fspecLoop (b :: rest) 0 fields fspecLength) ->
  In 0x220 (fst (fspecLoop (b :: rest) 0 fields fspecLength)).
Proof.
  cbn [fspecLoop]. cbv zeta.
  destruct (Z.land (byteZ b) 1 =? 1) eqn:Hcont.
  - intros _. apply Z.eqb_eq in Hcont.
    apply fspecLoop_spec. now apply continuation_is_a_field.
  - cbn [snd]. lia.
Qed.

Lemma scanFieldBits_withoutTopBit (b : byte) (byteIndex : Z)
  (fields : list Z) :
  scanFieldBits (byteZ (AsterixMore.withoutTopBit b)) byteIndex
                [7; 6; 5; 4; 3; 2; 1] fields =
  scanFieldBits (byteZ b) byteIndex [7; 6; 5; 4; 3; 2; 1] fields.
Proof. destruct b; reflexivity. Qed.

Lemma fspecLoop_withoutTopBit (rest : list byte) :
  forall (byteIndex : Z) (fields : list Z) (fspecLength : Z),
    fspecLoop (map AsterixMore.withoutTopBit rest) byteIndex fields fspecLength
    = fspecLoop rest byteIndex fields fspecLength.
Proof.
  induction rest as [| b rest IH]; intros byteIndex fields fspecLength;
    [reflexivity |].
  cbn [map fspecLoop]. cbv zeta.
  rewrite scanFieldBits_withoutTopBit, AsterixMore.continuation_withoutTopBit.
  destruct (Z.land (byteZ b) 1 =? 1); [apply IH | reflexivity].
Qed.

(** Where the decoder's [readFSPEC] loop returns, the processor's loop
    has counted the same bytes. *)
Lemma fspecLoop_agrees (SP RE : Z) (rest : list byte) :
  forall (fieldIndex : Z) (presentFields : list Z) (byteIndex : Z)
         (fields : list Z) (fspecLength : Z) (present : list Z) (len : Z),
    readFSPEC_loop SP RE rest fieldIndex presentFields fspecLength =
      Ok (present, len) ->
    snd (fspecLoop rest byteIndex fields fspecLength) = len.
Proof.
  induction rest as [| b rest IH];
    intros fieldIndex presentFields byteIndex fields fspecLength present len H;
    cbn [readFSPEC_loop] in H; [discriminate H |].
  cbn [fspecLoop]. cbv zeta.
  destruct (scanBits SP RE (byteZ b) [7; 6; 5; 4; 3; 2; 1] fieldIndex
              presentFields) as [present1 index1].
  destruct (Z.land (byteZ b) 1 =? 1).
  - exact (IH index1 present1 _ _ _ present len H).
  - injection H as _ <-. reflexivity.
Qed.

(** X23. On an offset inside the buffer [readFieldSpecification] never
    fails: it consumes at least one byte and at most the bytes that
    remain, where the decoder's [readFSPEC] would throw for want of a
    final byte; whenever [readFSPEC] returns, both report the same
    length. Every field it reports is in the catalogue of the processor.
    The most significant bit of a byte is never read, and the
    continuation bit of the first byte is read as a field as well: a
    field specification of two bytes or more always reports the aircraft
    address (0x220). *)
Theorem field_specification_never_fails (data : Buffer) (offset : Z) :
  0 <= offset < buf_length data ->
  let fspec := readFieldSpecification data offset in
  1 <= snd fspec <= buf_length data - offset /\
  (forall fieldId, In fieldId (fst fspec) ->
                   In fieldId (JsMap.keys asterixFields)) /\
  (2 <= snd fspec -> In 0x220 (fst fspec)) /\
  readFieldSpecification (map AsterixMore.withoutTopBit data) offset = fspec /\
  (forall SP RE presentFields fspecLength,
     readFSPEC SP RE data offset = Ok (presentFields, fspecLength) ->
     snd fspec = fspecLength).
Proof.
  intros [Hlo Hhi] fspec. subst fspec. unfold readFieldSpecification.
  assert (Hrest : Z.of_nat (List.length (skipn (Z.to_nat offset) data)) =
                  buf_length data - offset).
  { unfold buf_length in *. rewrite length_skipn. lia. }
  destruct (skipn (Z.to_nat offset) data) as [| b rest] eqn:Hskip.
  { cbn [List.length] in Hrest. lia. }
  destruct (fspecLoop_spec (b :: rest) 0 [] 0) as (Hlen & Hmin & Hsrc & _).
  split; [split; [apply Hmin; discriminate | lia] |].
  split; [intros fieldId Hin; destruct (Hsrc fieldId Hin) as [[] | H];
          exact H |].
  split; [intros H2; apply fspecLoop_extension; lia |].
  split.
  - rewrite skipn_map, Hskip. apply fspecLoop_withoutTopBit.
  - intros SP RE presentFields fspecLength H. unfold readFSPEC in H.
    destruct (offset >=? buf_length data); [discriminate H |].
    destruct (offset <? 0); [discriminate H |].
    rewrite Hskip in H.
    exact (@fspecLoop_agrees SP RE (b :: rest) 1 [] 0 [] 0 presentFields
             fspecLength H).
Qed.

Lemma field_specification_never_fails_witness :
  readFieldSpecification [x03; x40]%byte 0 = ([0x130; 0x220; 0x240], 2) /\
  In 0x220 (fst (readFieldSpecification [x03; x40]%byte 0)).
Proof.
  split; [reflexivity |].
  assert (H : 0 <= 0 < buf_length [x03; x40]%byte) by (vm_compute; split; congruence).
  destruct (@field_specification_never_fails [x03; x40]%byte 0 H)
    as (_ & _ & Hext & _).
  apply Hext. vm_compute. congruence.
Defined.

(** *** The data blocks of a message *)

Lemma readUInt8_ok (data : Buffer) (i : Z) :
  0 <= i < buf_length data -> exists v, readUInt8 data i = Ok v.
Proof.
  intros [Hlo Hhi]. unfold readUInt8.
  rewrite (proj2 (Z.leb_le 0 i) Hlo), (proj2 (Z.ltb_lt _ _) Hhi).
  cbn [andb].
  destruct (nth_error data (Z.to_nat i)) eqn:E; [eauto |].
  apply nth_error_None in E. unfold buf_length in Hhi. lia.
Qed.

Lemma readUInt16BE_ok (data : Buffer) (i : Z) :
  0 <= i -> i + 1 < buf_length data ->
  exists v, readUInt16BE data i = Ok v.
Proof.
  intros Hlo Hhi. unfold readUInt16BE.
  destruct (@readUInt8_ok data i) as [hi ->]; [lia |].
  destruct (@readUInt8_ok data (i + 1)) as [lo ->]; [lia |].
  cbn [bindR]. eauto.
Qed.

Lemma readInt16BE_ok (data : Buffer) (i : Z) :
  0 <= i -> i + 1 < buf_length data ->
  exists v, readInt16BE data i = Ok v.
Proof.
  intros Hlo Hhi. unfold readInt16BE.
  destruct (@readUInt16BE_ok data i Hlo Hhi) as [u ->].
  cbn [bindR]. eauto.
Qed.

Lemma catalogue_lengths (fieldId : Z) (fieldDef : FieldDef) :
  JsMap.get Z.eq_dec fieldId asterixFields = Some fieldDef ->
  1 <= def_length fieldDef <= 8.
Proof.
  unfold asterixFields. cbn [JsMap.get].
  repeat (destruct (Z.eq_dec fieldId _);
          [intros [= <-]; cbn [def_length]; lia |]).
  discriminate.
Qed.

Lemma decodeAsterixField_total (fieldId : Z) (fieldDef : FieldDef)
  (data : Buffer) :
  JsMap.get Z.eq_dec fieldId asterixFields = Some fieldDef ->
  buf_length data = def_length fieldDef ->
  exists decoded, decodeAsterixField fieldId data = Ok decoded.
Proof.
  unfold asterixFields. cbn [JsMap.get].
  repeat (destruct (Z.eq_dec fieldId _) as [-> | _];
          [intros [= <-]; cbn [def_length]; intros Hlen;
           unfold decodeAsterixField; cbn [Z.eqb Pos.eqb];
           try (destruct (@readUInt8_ok data 0) as [v0 ->]; [lia |];
                destruct (@readUInt8_ok data 1) as [v1 ->]; [lia |]);
           try (destruct (@readUInt16BE_ok data 0) as [u0 ->]; [lia | lia |];
                try (destruct (@readUInt16BE_ok data 2) as [u2 ->];
                     [lia | lia |]));
           try (destruct (@readInt16BE_ok data 0) as [i0 ->]; [lia | lia |]);
           cbn [bindR]; eauto |]).
  discriminate.
Qed.

(** A block as [parseDataBlocks] builds it: the item is in the catalogue,
    the slice has the length that the catalogue declares, and the decoded
    value is the one of the slice. *)
Definition wellFormed (block : AsterixDataBlock) : Prop :=
  exists fieldDef,
    JsMap.get Z.eq_dec (blk_itemId block) asterixFields = Some fieldDef /\
    buf_length (blk_data block) = def_length fieldDef /\
    decodeAsterixField (blk_itemId block) (blk_data block) =
      Ok (blk_decoded block).

(** The number of bytes that the blocks hold. *)
Definition payload (blocks : list AsterixDataBlock) : Z :=
  fold_right (fun block n => buf_length (blk_data block) + n) 0 blocks.

Lemma payload_app (blocks blocks' : list AsterixDataBlock) :
  payload (blocks ++ blocks') = payload blocks + payload blocks'.
Proof.
  induction blocks as [| b blocks IH]; cbn [app payload fold_right];
    [reflexivity |].
  fold (payload (blocks ++ blocks')). fold (payload blocks). lia.
Qed.

Lemma readFields_spec (data : Buffer) (fieldIds : list Z) :
  forall (offset : Z) (blocks : list AsterixDataBlock),
    0 <= offset <= buf_length data ->
    exists offset' added,
      readFields data fieldIds offset blocks = Next offset' (blocks ++ added) /\
      offset <= offset' <= buf_length data /\
      payload added = offset' - offset /\
      Forall wellFormed added.
Proof.
  induction fieldIds as [| fieldId rest IH]; intros offset blocks Hoff.
  - exists offset, []. cbn [readFields]. rewrite app_nil_r.
    split; [reflexivity |]. split; [lia |].
    split; [cbn; lia | constructor].
  - cbn [readFields].
    destruct (JsMap.get Z.eq_dec fieldId asterixFields) as [fieldDef |] eqn:Hdef;
      [| apply IH; exact Hoff].
    pose proof (catalogue_lengths _ Hdef) as Hlen.
    destruct (offset + def_length fieldDef <=? buf_length data) eqn:Hfits;
      [| apply IH; exact Hoff].
    apply Z.leb_le in Hfits.
    assert (Hslice : buf_length (subarray data offset
                                   (offset + def_length fieldDef))
                     = def_length fieldDef).
    { rewrite AsterixMore.subarray_length by lia. lia. }
    destruct (decodeAsterixField_total _ _ Hdef Hslice) as [decoded Hdec].
    rewrite Hdec.
    match goal with
    | |- context [readFields data rest _ (blocks ++ [?blk])] =>
        destruct (IH (offset + def_length fieldDef) (blocks ++ [blk]))
          as (offset' & added & -> & Hbound & Hpay & Hwf); [lia |];
        exists offset', (blk :: added)
    end.
    rewrite <- app_assoc. split; [reflexivity |]. split; [lia |].
    split.
    + cbn [payload fold_right blk_data]. fold (payload added). lia.
    + constructor; [| exact Hwf]. exists fieldDef. cbn. tauto.
Qed.

Lemma fspec_length_bounds (data : Buffer) (offset : Z) :
  0 <= offset < buf_length data ->
  1 <= snd (readFieldSpecification data offset) <= buf_length data - offset.
Proof.
  intros [Hlo Hhi]. unfold readFieldSpecification.
  assert (Hrest : Z.of_nat (List.length (skipn (Z.to_nat offset) data)) =
                  buf_length data - offset).
  { unfold buf_length in *. rewrite length_skipn. lia. }
  destruct (skipn (Z.to_nat offset) data) as [| b rest] eqn:Hskip.
  { cbn [List.length] in Hrest. lia. }
  destruct (fspecLoop_spec (b :: rest) 0 [] 0) as (Hlen & Hmin & _).
  split; [apply Hmin; discriminate | lia].
Qed.

Lemma parseBlocksFrom_spec (data : Buffer) (fuel : nat) :
  forall (offset : Z) (blocks : list AsterixDataBlock),
    0 <= offset ->
    (Z.to_nat (buf_length data - offset) < fuel)%nat ->
    exists added,
      parseBlocksFrom fuel data offset blocks = Some (blocks ++ added) /\
      Forall wellFormed added /\
      (offset <= buf_length data -> payload added <= buf_length data - offset) /\
      (buf_length data <= offset -> added = []).
Proof.
  induction fuel as [| fuel IH]; intros offset blocks Hoff Hfuel; [lia |].
  cbn [parseBlocksFrom].
  destruct (offset <? buf_length data) eqn:Hin.
  - apply Z.ltb_lt in Hin.
    pose proof (@fspec_length_bounds data offset (conj Hoff Hin)) as Hfspec.
    destruct (readFieldSpecification data offset) as [fieldIds fspecLength].
    cbn [snd] in Hfspec.
    destruct (@readFields_spec data fieldIds (offset + fspecLength) blocks)
      as (offset' & added1 & -> & Hbound & Hpay & Hwf1); [lia |].
    destruct (IH offset' (blocks ++ added1)) as (added2 & -> & Hwf2 & Hpay2 & _);
      [lia | lia |].
    exists (added1 ++ added2). rewrite <- app_assoc.
    split; [reflexivity |].
    split; [apply Forall_app; tauto |].
    split; [| lia].
    intros _. rewrite payload_app. specialize (Hpay2 ltac:(lia)). lia.
  - apply Z.ltb_ge in Hin. exists []. rewrite app_nil_r.
    split; [reflexivity |]. split; [constructor |].
    split; [cbn; lia | reflexivity].
Qed.

Lemma parseBlocksFrom_more_fuel (data : Buffer) (fuel extra : nat) :
  forall (offset : Z) (blocks result : list AsterixDataBlock),
    parseBlocksFrom fuel data offset blocks = Some result ->
    parseBlocksFrom (fuel + extra) data offset blocks = Some result.
Proof.
  induction fuel as [| fuel IH]; intros offset blocks result H;
    [discriminate H |].
  cbn [parseBlocksFrom Nat.add] in *.
  destruct (offset <? buf_length data); [| exact H].
  destruct (readFieldSpecification data offset) as [fieldIds fspecLength].
  destruct (readFields data fieldIds (offset + fspecLength) blocks);
    [now apply IH | exact H].
Qed.

Lemma parseDataBlocks_total (data : Buffer) (category : Z) :
  exists blocks,
    parseDataBlocks data category = Some blocks /\
    (category <> 48 -> blocks = []) /\
    Forall wellFormed blocks /\
    payload blocks <= buf_length data.
Proof.
  unfold parseDataBlocks.
  destruct (Z.eqb_spec category 48) as [-> | Hne].
  - destruct (@parseBlocksFrom_spec data (S (List.length data)) 0 [])
      as (added & -> & Hwf & Hpay & _).
    + lia.
    + unfold buf_length. lia.
    + exists added. cbn [app]. split; [reflexivity |].
      split; [congruence |]. split; [exact Hwf |].
      unfold buf_length in *. lia.
  - exists []. split; [reflexivity |]. split; [reflexivity |].
    split; [constructor |]. unfold buf_length. cbn. lia.
Qed.

(** X24. [parseDataBlocks] always ends and never leaves its loop by an
    error: as many iterations as the buffer has bytes, and one, are
    enough, and more change nothing. For a category other than 48 the
    result is empty. Every block of the result bears an item of the
    catalogue, holds exactly as many bytes as the catalogue declares for
    it, and carries the decoded value of those bytes; all the blocks
    together hold at most as many bytes as the buffer. *)
Theorem data_blocks_are_well_formed (data : Buffer) (category : Z) :
  exists blocks,
    parseDataBlocks data category = Some blocks /\
    (category <> 48 -> blocks = []) /\
    Forall wellFormed blocks /\
    payload blocks <= buf_length data /\
    (category = 48 ->
     forall extra,
       parseBlocksFrom (S (List.length data) + extra) data 0 [] = Some blocks).
Proof.
  destruct (parseDataBlocks_total data category)
    as (blocks & Hrun & Hother & Hwf & Hpay).
  exists blocks. repeat split; try assumption.
  intros -> extra. unfold parseDataBlocks in Hrun.
  change (48 =? 48) with true in Hrun. cbv iota in Hrun.
  now apply parseBlocksFrom_more_fuel.
Qed.

(** *** The messages of a buffer *)

Lemma readUInt8_nonneg (data : Buffer) (i v : Z) :
  readUInt8 data i = Ok v -> 0 <= v.
Proof.
  unfold readUInt8. destruct ((0 <=? i) && (i <? buf_length data));
    [| discriminate].
  destruct (nth_error data (Z.to_nat i)); [| discriminate].
  intros [= <-]. unfold byteZ. lia.
Qed.

Lemma readUInt16BE_nonneg (data : Buffer) (i v : Z) :
  readUInt16BE data i = Ok v -> 0 <= v.
Proof.
  unfold readUInt16BE.
  destruct (readUInt8 data i) as [hi | e] eqn:Hhi; [| discriminate].
  destruct (readUInt8 data (i + 1)) as [lo | e] eqn:Hlo; [| discriminate].
  cbn [bindR]. intros [= <-].
  apply readUInt8_nonneg in Hhi. apply readUInt8_nonneg in Hlo.
  apply Z.lor_nonneg. split; [| exact Hlo].
  apply (proj2 (Z.shiftl_nonneg hi 8)). exact Hhi.
Qed.

Lemma readHeader_ok (rawData : Buffer) (offset : Z) :
  0 <= offset < buf_length rawData - 3 ->
  exists category length,
    readHeader rawData offset = Ok (category, length) /\ 0 <= length.
Proof.
  intros [Hlo Hhi]. unfold readHeader.
  destruct (@readUInt8_ok rawData offset) as [category ->]; [lia |].
  destruct (@readUInt16BE_ok rawData (offset + 1)) as [length Hlen];
    [lia | lia |].
  rewrite Hlen. cbn [bindR]. exists category, length.
  split; [reflexivity | exact (readUInt16BE_nonneg _ _ Hlen)].
Qed.

Lemma subarray_empty (data : Buffer) (s e : Z) :
  e <= s -> subarray data s e = [].
Proof.
  intros Hle. unfold subarray.
  replace (Z.to_nat (Z.min (Z.max 0 e) (buf_length data) -
                     Z.min (Z.max 0 s) (buf_length data))) with 0%nat by lia.
  reflexivity.
Qed.

Lemma parseDataBlocks_empty (category : Z) :
  parseDataBlocks [] category = Some [].
Proof. unfold parseDataBlocks. destruct (category =? 48); reflexivity. Qed.

(** A message whose header declares the length 0 is parsed over and
    over. *)
Lemma zero_length_loops (clock : nat -> Z) (rawData : Buffer) (category : Z)
  (offset : Z) :
  0 <= offset < buf_length rawData - 3 ->
  readHeader rawData offset = Ok (category, 0) ->
  forall (fuel : nat) (messages : list AsterixMessage) (log : list ParseLog),
    parseMessages clock fuel rawData offset messages log = None.
Proof.
  intros [Hlo Hhi] Hheader.
  induction fuel as [| fuel IH]; intros messages log; [reflexivity |].
  cbn [parseMessages].
  rewrite (proj2 (Z.ltb_lt _ _) Hhi), Hheader.
  destruct (offset + 0 >? buf_length rawData) eqn:E;
    [apply Z.gtb_lt in E; lia |].
  cbv zeta. rewrite (@subarray_empty rawData (offset + 3) (offset + 0)) by lia.
  change (buf_length [] >=? 2) with false. cbv iota.
  rewrite (@subarray_empty [] 2 (buf_length [])) by (cbn; lia).
  rewrite parseDataBlocks_empty, Z.add_0_r.
  apply IH.
Qed.

(** The sum of the lengths that the messages declare. *)
Definition declared (messages : list AsterixMessage) : Z :=
  fold_right (fun message n => msg_length message + n) 0 messages.

Lemma parseMessages_ends (clock : nat -> Z) (rawData : Buffer) (fuel : nat) :
  forall (offset : Z) (messages : list AsterixMessage) (log : list ParseLog),
    0 <= offset ->
    (Z.to_nat (buf_length rawData - offset) < fuel)%nat ->
    (forall o category, offset <= o < buf_length rawData - 3 ->
                        readHeader rawData o <> Ok (category, 0)) ->
    exists added warnings,
      parseMessages clock fuel rawData offset messages log =
        Some (messages ++ added, log ++ warnings) /\
      (warnings = [] \/
       exists expected remaining,
         warnings = [IncompleteMessage expected remaining] /\
         remaining < expected) /\
      Forall (fun message =>
                1 <= msg_length message /\
                Forall wellFormed (msg_data message)) added /\
      (offset <= buf_length rawData ->
       declared added <= buf_length rawData - offset).
Proof.
  induction fuel as [| fuel IH]; intros offset messages log Hoff Hfuel Hpos;
    [lia |].
  cbn [parseMessages].
  destruct (offset <? buf_length rawData - 3) eqn:Hin.
  - apply Z.ltb_lt in Hin.
    destruct (@readHeader_ok rawData offset (conj Hoff Hin))
      as (category & length & Hheader & Hlen).
    rewrite Hheader.
    assert (Hone : 1 <= length).
    { destruct (Z.eq_dec length 0) as [-> | Hne]; [| lia].
      exfalso. apply (Hpos offset category); [lia | exact Hheader]. }
    destruct (offset + length >? buf_length rawData) eqn:Hfit.
    + apply Z.gtb_lt in Hfit.
      exists [], [IncompleteMessage length (buf_length rawData - offset)].
      rewrite app_nil_r. split; [reflexivity |].
      split; [right; eexists; eexists; split; [reflexivity | lia] |].
      split; [constructor | cbn; lia].
    + assert (Hfit' : offset + length <= buf_length rawData).
      { destruct (Z.gtb_spec (offset + length) (buf_length rawData));
          [discriminate | lia]. }
      cbv zeta.
      set (messageData := subarray rawData (offset + 3) (offset + length)).
      assert (Hsource : exists dataSourceId,
                (if buf_length messageData >=? 2
                 then readUInt16BE messageData 0 else Ok 0) = Ok dataSourceId).
      { destruct (buf_length messageData >=? 2) eqn:Hge; [| eauto].
        apply Z.geb_le in Hge.
        apply readUInt16BE_ok; lia. }
      destruct Hsource as [dataSourceId ->].
      destruct (parseDataBlocks_total
                  (subarray messageData 2 (buf_length messageData)) category)
        as (blocks & -> & _ & Hwf & _).
      match goal with
      | |- context [parseMessages clock fuel rawData _ (messages ++ [?m]) log] =>
          destruct (IH (offset + length) (messages ++ [m]) log)
            as (added & warnings & -> & Hwarn & Hall & Hsum);
          [lia | lia | intros o c Ho; apply Hpos; lia |];
          exists (m :: added), warnings
      end.
      rewrite <- app_assoc. split; [reflexivity |].
      split; [exact Hwarn |].
      split; [constructor; [cbn [msg_length msg_data]; tauto | exact Hall] |].
      intros _. cbn [declared fold_right msg_length].
      fold (declared added). specialize (Hsum Hfit'). lia.
  - exists [], []. rewrite !app_nil_r. split; [reflexivity |].
    split; [now left |]. split; [constructor |].
    intros Hle. cbn. lia.
Qed.

Lemma parseMessages_more_fuel (clock : nat -> Z) (rawData : Buffer)
  (fuel extra : nat) :
  forall (offset : Z) (messages : list AsterixMessage) (log : list ParseLog)
         (result : list AsterixMessage * list ParseLog),
    parseMessages clock fuel rawData offset messages log = Some result ->
    parseMessages clock (fuel + extra) rawData offset messages log =
      Some result.
Proof.
  induction fuel as [| fuel IH]; intros offset messages log result H;
    [discriminate H |].
  cbn [parseMessages Nat.add] in *.
  destruct (offset <? buf_length rawData - 3); [| exact H].
  destruct (readHeader rawData offset) as [[category length] | e];
    [| now apply IH].
  destruct (offset + length >? buf_length rawData); [exact H |].
  cbv zeta in *.
  destruct (if buf_length (subarray rawData (offset + 3) (offset + length))
               >=? 2
            then readUInt16BE (subarray rawData (offset + 3) (offset + length)) 0
            else Ok 0) as [dataSourceId | e]; [| now apply IH].
  destruct (parseDataBlocks _ category); [now apply IH | discriminate H].
Qed.

(** X25. Parsing never ends on a buffer in which a message that is
    reached declares the length 0: the loop reads the same header again
    and again, however many iterations it is given. When no header
    position of the buffer declares the length 0, parsing ends within as
    many iterations as the buffer has bytes, and one: no parsing error is
    logged, at most one warning (for a last message that declares more
    bytes than remain) is, every message of the result declares a length
    of 1 at least, its blocks are well formed, and the declared lengths
    add up to the length of the buffer at most. *)
Theorem parsing_ends_unless_a_length_is_zero (clock : nat -> Z)
  (rawData : Buffer) :
  (forall offset category,
     0 <= offset < buf_length rawData - 3 ->
     readHeader rawData offset = Ok (category, 0) ->
     forall fuel messages log,
       parseMessages clock fuel rawData offset messages log = None) /\
  ((forall offset category,
      0 <= offset < buf_length rawData - 3 ->
      readHeader rawData offset <> Ok (category, 0)) ->
   exists messages log,
     (forall extra,
        parseAsterixData clock (S (List.length rawData) + extra) rawData =
          Some (messages, log)) /\
     (log = [] \/
      exists expected remaining,
        log = [IncompleteMessage expected remaining] /\
        remaining < expected) /\
     Forall (fun message =>
               1 <= msg_length message /\
               Forall wellFormed (msg_data message)) messages /\
     declared messages <= buf_length rawData).
Proof.
  split.
  - intros offset category Hoff Hheader.
    exact (@zero_length_loops clock rawData category offset Hoff Hheader).
  - intros Hpos.
    destruct (@parseMessages_ends clock rawData (S (List.length rawData))
                0 [] [])
      as (messages & log & Hrun & Hlog & Hall & Hsum).
    + lia.
    + unfold buf_length. lia.
    + intros o c Ho. apply Hpos. lia.
    + exists messages, log. cbn [app] in Hrun.
      split; [intros extra; now apply parseMessages_more_fuel |].
      split; [exact Hlog |]. split; [exact Hall |].
      specialize (Hsum ltac:(unfold buf_length; lia)). lia.
Qed.

Lemma parsing_ends_unless_a_length_is_zero_witness :
  (forall fuel,
     parseAsterixData (fun _ => 0) fuel [x30; x00; x00; x00]%byte = None) /\
  parseAsterixData (fun _ => 0) 5 [x30; x00; x03; x00]%byte =
    Some ([{| msg_category := 48; msg_length := 3; msg_dataSourceId := 0;
              msg_timestamp := 0; msg_data := [] |}], []).
Proof.
  split; [| reflexivity].
  intros fuel.
  destruct (parsing_ends_unless_a_length_is_zero (fun _ => 0)
              [x30; x00; x00; x00]%byte) as [Hloop _].
  apply (Hloop 0 48); [vm_compute; split; congruence | reflexivity].
Defined.

(** *** Track numbers *)

Lemma squawk_round_trip (mode3A : Z) :
  0 <= mode3A < 4096 ->
  parseInt8 (padStart0 4 (toString8 mode3A)) = Some mode3A /\
  padStart0 4 (toString8 mode3A) <> "".
Proof.
  intros Hrange.
  assert (Hall :
    forallb (fun n =>
               let code := padStart0 4 (toString8 (Z.of_nat n)) in
               match parseInt8 code with
               | Some v => (v =? Z.of_nat n) && negb (String.eqb code "")
               | None => false
               end) (seq 0 4096) = true) by (vm_compute; reflexivity).
  rewrite forallb_forall in Hall.
  specialize (Hall (Z.to_nat mode3A)).
  rewrite Z2Nat.id in Hall by lia. cbv zeta in Hall.
  assert (Hin : In (Z.to_nat mode3A) (seq 0 4096)) by (apply in_seq; lia).
  specialize (Hall Hin).
  destruct (parseInt8 (padStart0 4 (toString8 mode3A))) as [v |];
    [| discriminate Hall].
  apply andb_true_iff in Hall. destruct Hall as [Hv Hne].
  apply Z.eqb_eq in Hv. subst v. split; [reflexivity |].
  intros E. rewrite E in Hne. discriminate Hne.
Qed.

(** X26. The octal string that [decodeAsterixField] gives for a mode 3/A
    code is read back by [parseInt] as the code, so the track number that
    [generateTrackNumber] derives from it is the data source identifier
    times 10000 plus the code modulo 1000: two codes that differ by a
    multiple of 1000 from the same source share a track number. Without
    a code the suffix is the random draw. A report of source 0 whose code
    is a multiple of 1000 gets the track number 0, with which
    [updateRadarTrack] changes nothing. *)
Theorem track_number_is_source_and_code (random dataSourceId mode3A : Z) :
  0 <= mode3A < 4096 ->
  let code := padStart0 4 (toString8 mode3A) in
  parseInt8 code = Some mode3A /\
  generateTrackNumber random dataSourceId (Some code) =
    Some (dataSourceId * 10000 + mode3A mod 1000) /\
  generateTrackNumber random dataSourceId None =
    Some (dataSourceId * 10000 + random) /\
  (forall data raw,
     readUInt16BE data 0 = Ok raw -> Z.land raw 0x0FFF = mode3A ->
     decodeAsterixField 0x070 data = Ok (Code code)) /\
  (forall other,
     0 <= other < 4096 -> other mod 1000 = mode3A mod 1000 ->
     generateTrackNumber random dataSourceId
       (Some (padStart0 4 (toString8 other))) =
     generateTrackNumber random dataSourceId (Some code)) /\
  (dataSourceId = 0 -> mode3A mod 1000 = 0 ->
   forall clock trackData st,
     Radar.td_trackNumber trackData =
       generateTrackNumber random dataSourceId (Some code) ->
     Radar.updateRadarTrack clock trackData st = st).
Proof.
  intros Hrange code. subst code.
  assert (Hgen : forall m, 0 <= m < 4096 ->
            generateTrackNumber random dataSourceId
              (Some (padStart0 4 (toString8 m))) =
            Some (dataSourceId * 10000 + m mod 1000)).
  { intros m Hm. destruct (squawk_round_trip Hm) as [Hparse Hne].
    unfold generateTrackNumber.
    destruct (string_dec (padStart0 4 (toString8 m)) "") as [E | _];
      [contradiction |].
    rewrite Hparse, Z.rem_mod_nonneg by lia. reflexivity. }
  split; [apply squawk_round_trip; exact Hrange |].
  split; [apply Hgen; exact Hrange |].
  split; [reflexivity |].
  split.
  { intros data raw Hraw Hcode. unfold decodeAsterixField.
    cbn [Z.eqb Pos.eqb]. rewrite Hraw. cbn [bindR]. now rewrite Hcode. }
  split.
  { intros other Hother Hsame. rewrite !Hgen by assumption.
    now rewrite Hsame. }
  intros -> Hzero clock trackData st Htn.
  rewrite Hgen, Hzero in Htn by exact Hrange.
  apply RadarMore.update_ignored. right. exact Htn.
Qed.

Lemma track_number_is_source_and_code_witness :
  generateTrackNumber 0 21 (Some "1200") = Some 210640 /\
  generateTrackNumber 0 21 (Some "3150") = Some 210640.
Proof.
  assert (H640 : 0 <= 640 < 4096) by lia.
  destruct (@track_number_is_source_and_code 0 21 640 H640)
    as (_ & Hown & _ & _ & Hother & _).
  split; [exact Hown |].
  assert (H1640 : 0 <= 1640 < 4096) by lia.
  exact (eq_trans (Hother 1640 H1640 eq_refl) Hown).
Defined.

End RadarIngestProps.

(** ** Variable and compound fields of the decoder *)

Module AsterixFields.
Import Asterix AsterixMore.

Local Open Scope string_scope.
Local Open Scope list_scope.
Local Open Scope Z_scope.

Lemma extentLoop_spec (rest : list byte) :
  let n := extentLoop rest in
  0 <= n <= Z.of_nat (List.length rest) /\
  (rest <> [] -> 1 <= n) /\
  forallb continuation (firstn (Z.to_nat (n - 1)) rest) = true /\
  (forall b, nth_error rest (Z.to_nat (n - 1)) = Some b ->
             continuation b = true -> n = Z.of_nat (List.length rest)).
Proof.
  induction rest as [| b rest IH]; cbn [extentLoop].
  - cbv zeta. cbn [extentLoop List.length].
    split; [lia |]. split; [congruence |]. split; [reflexivity |].
    intros b Hb. destruct (Z.to_nat (0 - 1)); discriminate Hb.
  - cbv zeta in *. destruct IH as (Hrange & Hmin & Hall & Hlast).
    destruct (Z.land (byteZ b) 1 =? 1) eqn:Hcont.
    + destruct rest as [| b' rest'].
      * cbn. repeat split; try lia.
      * specialize (Hmin ltac:(discriminate)).
        set (n := extentLoop (b' :: rest')) in *.
        replace (Z.to_nat (1 + n - 1)) with (S (Z.to_nat (n - 1))) by lia.
        cbn [List.length firstn forallb nth_error] in *.
        unfold continuation at 1. rewrite Hcont. cbn [andb].
        repeat split; try lia; try assumption.
        intros b0 Hb0 Hc. specialize (Hlast b0 Hb0 Hc). lia.
    + cbn [List.length]. repeat split; try lia.
      intros b0 Hb0 Hc. cbn in Hb0. injection Hb0 as <-.
      unfold continuation in Hc. congruence.
Qed.

Lemma extent_fits (data : Buffer) (offset : Z) :
  0 <= offset <= buf_length data ->
  exists n,
    extent data offset = Ok n /\
    0 <= n <= buf_length data - offset /\
    (offset < buf_length data ->
     1 <= n /\ n = extentLoop (skipn (Z.to_nat offset) data)).
Proof.
  intros [Hlo Hhi]. unfold extent.
  destruct (offset >=? buf_length data) eqn:Hge.
  - apply Z.geb_le in Hge. exists 0. split; [reflexivity |]. lia.
  - destruct (offset <? 0) eqn:Hneg; [apply Z.ltb_lt in Hneg; lia |].
    assert (Hlt : offset < buf_length data).
    { destruct (Z.geb_spec offset (buf_length data)); [discriminate | lia]. }
    eexists. split; [reflexivity |].
    destruct (extentLoop_spec (skipn (Z.to_nat offset) data))
      as (Hrange & Hmin & _).
    assert (Hrest : Z.of_nat (List.length (skipn (Z.to_nat offset) data)) =
                    buf_length data - offset).
    { unfold buf_length in *. rewrite length_skipn. lia. }
    split; [lia |]. intros _. split; [| reflexivity].
    apply Hmin. intros E. rewrite E in Hrest. cbn in Hrest. lia.
Qed.

Lemma flexible_length_fits (fieldDef : AsterixFieldDefinition)
  (data : Buffer) (offset : Z) :
  fd_type fieldDef = VARIABLE \/ fd_type fieldDef = COMPOUND ->
  0 <= offset <= buf_length data ->
  exists n,
    getFieldLength fieldDef data offset = Ok n /\
    0 <= n <= buf_length data - offset /\
    (offset < buf_length data -> 1 <= n).
Proof.
  intros Htype Hoff. unfold getFieldLength.
  destruct (@extent_fits data offset Hoff) as (e & He & Hrange & Hin).
  destruct Htype as [-> | ->].
  - exists e. split; [exact He |]. split; [exact Hrange |].
    intros Hlt. now apply Hin.
  - unfold getCompoundFieldLength. rewrite He. cbn [bindR].
    eexists. split; [reflexivity |]. split; [lia |].
    intros Hlt. specialize (Hin Hlt). lia.
Qed.

Lemma readUInt8_slice (data : Buffer) (offset n : Z) :
  0 <= offset -> 1 <= n -> offset + n <= buf_length data ->
  readUInt8 (subarray data offset (offset + n)) 0 = readUInt8 data offset.
Proof.
  intros Hlo Hn Hhi.
  assert (Hlen : buf_length (subarray data offset (offset + n)) = n).
  { rewrite subarray_length by lia. lia. }
  unfold readUInt8. rewrite Hlen.
  rewrite (proj2 (Z.ltb_lt 0 n)) by lia.
  rewrite (proj2 (Z.leb_le 0 offset)) by lia.
  rewrite (proj2 (Z.ltb_lt offset (buf_length data))) by lia.
  cbn [andb Z.leb Z.compare Z.to_nat].
  unfold subarray. rewrite !Z.max_r, !Z.min_l by lia.
  replace (Z.to_nat (offset + n - offset)) with (S (Z.to_nat (n - 1))) by lia.
  rewrite nth_error_firstn. cbn [Nat.ltb Nat.leb].
  rewrite nth_error_skipn, Nat.add_0_r. reflexivity.
Qed.

(** X27. The variable and compound fields never fail for want of data:
    at an offset that is not beyond the buffer, the length computed for
    such a field is at most the bytes that remain, so the field is
    sliced and handed to its decoder. The target report descriptor of
    category 048, at an offset inside the buffer, is always decoded: it
    consumes the bytes up to and including the first one whose
    continuation bit is clear (or all that remain), its value is taken
    from the first of them only, and nothing is logged. At the very end
    of the buffer its slice is empty: the decoder fails with a range
    error, which is logged, and the offset moves on by one. *)
Theorem flexible_fields_never_lack_data (data : Buffer) (st : DecodeState) :
  (forall fieldDef fieldId,
     fd_type fieldDef = VARIABLE \/ fd_type fieldDef = COMPOUND ->
     0 <= offset st <= buf_length data ->
     exists n,
       getFieldLength fieldDef data (offset st) = Ok n /\
       0 <= n <= buf_length data - offset st /\
       tryDecodeField fieldDef data (offset st) fieldId =
         (decodedField <-
            fd_decoder fieldDef
              (subarray data (offset st) (offset st + n)) ;;
          Ok (decodedField, n))) /\
  (0 <= offset st < buf_length data ->
   exists n firstByte,
     n = extentLoop (skipn (Z.to_nat (offset st)) data) /\
     1 <= n <= buf_length data - offset st /\
     readUInt8 data (offset st) = Ok firstByte /\
     decodeField cat048 data st 0x020 =
       {| offset := offset st + n;
          fields :=
            JsMap.set string_dec "Target Report Descriptor"
              (TargetReportDescriptor
                 (Z.land (Z.shiftr firstByte 5) 7)
                 (Z.land (Z.shiftr firstByte 4) 1)
                 (Z.land (Z.shiftr firstByte 3) 1)
                 (Z.land (Z.shiftr firstByte 2) 1)
                 (Z.land (Z.shiftr firstByte 1) 1)
                 (Z.land firstByte 1))
              (fields st);
          logger := logger st |}) /\
  (offset st = buf_length data ->
   decodeField cat048 data st 0x020 =
     {| offset := offset st + 1;
        fields := fields st;
        logger := logger st ++ [errorFieldDecoding RangeError 48 0x020] |}).
Proof.
  assert (Htry : forall fieldDef fieldId,
     fd_type fieldDef = VARIABLE \/ fd_type fieldDef = COMPOUND ->
     0 <= offset st <= buf_length data ->
     exists n,
       getFieldLength fieldDef data (offset st) = Ok n /\
       0 <= n <= buf_length data - offset st /\
       (offset st < buf_length data -> 1 <= n) /\
       tryDecodeField fieldDef data (offset st) fieldId =
         (decodedField <-
            fd_decoder fieldDef
              (subarray data (offset st) (offset st + n)) ;;
          Ok (decodedField, n))).
  { intros fieldDef fieldId Htype Hoff.
    destruct (@flexible_length_fits fieldDef data (offset st) Htype Hoff)
      as (n & Hlen & Hrange & Hmin).
    exists n. split; [exact Hlen |]. split; [exact Hrange |].
    split; [exact Hmin |].
    unfold tryDecodeField. rewrite Hlen. cbn [bindR].
    destruct (offset st + n >? buf_length data) eqn:E;
      [apply Z.gtb_lt in E; lia | reflexivity]. }
  split; [| split].
  - intros fieldDef fieldId Htype Hoff.
    destruct (Htry fieldDef fieldId Htype Hoff) as (n & H1 & H2 & _ & H3).
    exists n. tauto.
  - intros Hoff.
    assert (Hoff' : 0 <= offset st <= buf_length data) by lia.
    destruct (@extent_fits data (offset st) Hoff') as (n & He & Hrange & Hin).
    destruct (Hin ltac:(lia)) as [Hone Hn].
    destruct (@RadarIngestProps.readUInt8_ok data (offset st) Hoff)
      as [firstByte Hfirst].
    exists n, firstByte.
    split; [exact Hn |]. split; [lia |]. split; [exact Hfirst |].
    unfold decodeField. cbn [cat048 cat_fields JsMap.get fixedField].
    destruct (Z.eq_dec 0x020 0x010) as [E | _]; [discriminate E |].
    destruct (Z.eq_dec 0x020 0x020) as [_ | E]; [| contradiction].
    unfold tryDecodeField, getFieldLength. cbn [fd_type fd_decoder fd_name].
    rewrite He. cbn [bindR].
    destruct (offset st + n >? buf_length data) eqn:E;
      [apply Z.gtb_lt in E; lia |].
    unfold decode_020. rewrite readUInt8_slice by lia.
    rewrite Hfirst. cbn [bindR]. reflexivity.
  - intros Hend.
    unfold decodeField. cbn [cat048 cat_fields JsMap.get fixedField].
    destruct (Z.eq_dec 0x020 0x010) as [E | _]; [discriminate E |].
    destruct (Z.eq_dec 0x020 0x020) as [_ | E]; [| contradiction].
    unfold tryDecodeField, getFieldLength, extent.
    cbn [fd_type fd_decoder fd_name cat_number].
    rewrite Hend. rewrite (proj2 (Z.geb_le _ _)) by lia. cbn [bindR].
    rewrite Z.add_0_r.
    destruct (buf_length data >? buf_length data) eqn:E;
      [apply Z.gtb_lt in E; lia |].
    rewrite RadarIngestProps.subarray_empty by lia.
    reflexivity.
Qed.

Lemma flexible_fields_never_lack_data_witness :
  decodeField cat048 [x41; x00; x07]%byte
    {| offset := 0; fields := []; logger := [] |} 0x020 =
  {| offset := 2;
     fields := [("Target Report Descriptor",
                 TargetReportDescriptor 2 0 0 0 0 1)];
     logger := [] |}.
Proof.
  destruct (flexible_fields_never_lack_data [x41; x00; x07]%byte
              {| offset := 0; fields := []; logger := [] |})
    as (_ & Hin & _).
  destruct Hin as (n & firstByte & Hn & _ & Hfirst & Hrun);
    [vm_compute; split; congruence |].
  rewrite Hrun. injection Hfirst as <-. subst n. reflexivity.
Defined.

End AsterixFields.

(** ** Analysis of a conflict *)

Module ConflictAnalysis.
Import Types Conflict ConflictProps.

Local Open Scope string_scope.
Local Open Scope list_scope.





(** *** The quality of a prediction *)

Local Open Scope R_scope.

(** X29. The confidence of a prediction made for an aircraft whose last
    update is not after the clock reading is between 0.05 and 0.9, and at
    most 0.5 when the status of the aircraft is unknown; its uncertainty
    radius is 0.5 NM at least. Neither of them, nor the aircraft recorded
    in a prediction, nor the time stamps of the second prediction of a
    pair, is read by the pairwise detection: two pairs of predictions
    with the same positions and the same time stamps of the first give
    the same outcome. *)
Theorem prediction_quality_is_bounded_and_unused (o : Oracle) (s : Service)
  (aircraft1 aircraft2 : Aircraft) :
  (exists prediction,
     predictTrajectory o aircraft1 s = (Returns prediction, tick (tick s)) /\
     ((lastUpdate aircraft1 <= Date_now o (clockReads s))%Z ->
      5 / 100 <= confidence prediction <= 9 / 10 /\
      (status aircraft1 = UNKNOWN -> confidence prediction <= 5 / 10)) /\
     ((lastUpdate aircraft1 <= Date_now o (S (clockReads s)))%Z ->
      5 / 10 <= uncertaintyRadius prediction)) /\
  (forall trajectory1 trajectory2 trajectory1' trajectory2',
     predictedPositions trajectory1' = predictedPositions trajectory1 ->
     timeStamps trajectory1' = timeStamps trajectory1 ->
     predictedPositions trajectory2' = predictedPositions trajectory2 ->
     detectPairwiseConflict o aircraft1 aircraft2
       (Some trajectory1') (Some trajectory2') s =
     detectPairwiseConflict o aircraft1 aircraft2
       (Some trajectory1) (Some trajectory2) s).
Proof.
  split.
  - exists (predicted o s aircraft1).
    split; [apply predictTrajectory_eval |].
    unfold predicted. cbn [confidence uncertaintyRadius].
    split.
    + intros Hage.
      assert (0 <= IZR (Date_now o (clockReads s) - lastUpdate aircraft1))
        by (apply IZR_le; lia).
      destruct (ConflictMore.Rmax_cases (1 / 10)
                  (1 - IZR (Date_now o (clockReads s) - lastUpdate aircraft1)
                       / 1000 / 30)) as (Hl & Hr & [E | E]);
        rewrite E in *; clear E;
        (split; [destruct (status aircraft1); lra | intros ->; lra]).
    + intros Hage.
      assert (0 <= IZR (Date_now o (S (clockReads s)) - lastUpdate aircraft1))
        by (apply IZR_le; lia).
      lra.
  - intros t1 t2 t1' t2' Hp1 Ht1 Hp2.
    unfold detectPairwiseConflict, closestApproach.
    rewrite Hp1, Ht1, Hp2. reflexivity.
Qed.

End ConflictAnalysis.
